(** * Cities duel bot: a shallow embedding of [bot.py] and [database.py]

    The development follows the two source files.

    - Python [str] values are lists of Unicode code points ([list N]).
      The Unicode tables behind [str.lower] and [str.isalpha] are not part
      of the repository; they are the fields of the class [Unicode].  The
      white-space test behind [str.strip] and [str.split] is the fixed
      CPython table and is written out.
    - The module-level dictionaries [games], [player_game] and
      [rematch_offers] are finite maps, the sets are finite sets, and the
      mutable objects stored in them are updated in place by re-inserting
      the changed value under the same key.
    - A game id [f"game_{min(a,b)}_{max(a,b)}"] is the pair
      [(min a b, max a b)]: the formatting is injective on such pairs.
    - The [players] table of the SQLite file is a finite map from
      [user_id] to a row.
    - An [asyncio] task running [turn_timeout] is an entry of the table
      [tasks], from the task's identity to the arguments it was created
      with; a task that is cancelled or has finished is no longer in the
      table.
    - Every handler is one atomic transition: the event loop is
      single-threaded and the handlers are modelled as if no other handler
      ran at their [await] points.  Sending a message appends it to
      [outbox]; a failed delivery is swallowed by the source's
      [try/except] and is not modelled.
    - The task of a clock is modelled a second time, step by step: in
      [live] it runs from one [await] of [end_game] to the next, and
      handlers run in between.  A forfeit that nothing interrupts is the
      atomic [turn_timeout]; one that is interrupted is not.
    - The events of the model are the handlers that change the state:
      [/start] (and [/help], which calls it), [/play], [/leave],
      [/surrender], [/country], [/cancel_rematch], a text message, a press
      of a rematch button, and the end of a clock's sleep.  [/top],
      [/myrank] and [/profile] only read the table.  A rematch button is
      pressed by a player the bot has sent it to. *)

From Stdlib Require Import ZArith NArith Lia String Ascii.
From stdpp Require Import gmap list sorting.

Local Open Scope Z_scope.

(** ** Python strings *)

Abbreviation str := (list N) (only parsing).

Module Py.

(** [Py_UNICODE_ISSPACE]: the characters [str.strip] and [str.split]
    treat as white space. *)
Definition isspace (c : N) : bool :=
  ((9 <=? c) && (c <=? 13) || (28 <=? c) && (c <=? 32)
   || (c =? 133) || (c =? 160) || (c =? 5760)
   || (8192 <=? c) && (c <=? 8202)
   || (c =? 8232) || (c =? 8233) || (c =? 8239) || (c =? 8287)
   || (c =? 12288))%N.

(** [s.lstrip()], [s.rstrip()] and [s.strip()] without arguments. *)
Fixpoint lstrip (s : str) : str :=
  match s with
  | [] => []
  | c :: s' => if isspace c then lstrip s' else s
  end.

Definition rstrip (s : str) : str := rev (lstrip (rev s)).

Definition strip (s : str) : str := rstrip (lstrip s).

(** [s.split()] without arguments: the maximal runs of characters that
    are not white space.  [cur] is the run being read, in reverse. *)
Fixpoint split_from (cur : str) (s : str) : list str :=
  match s with
  | [] => match cur with [] => [] | _ => [rev cur] end
  | c :: s' =>
      if isspace c
      then match cur with
           | [] => split_from [] s'
           | _ => rev cur :: split_from [] s'
           end
      else split_from (c :: cur) s'
  end.

Definition split (s : str) : list str := split_from [] s.

(** [sep.join(parts)]. *)
Fixpoint join (sep : str) (parts : list str) : str :=
  match parts with
  | [] => []
  | [p] => p
  | p :: ps => p ++ sep ++ join sep ps
  end.

(** [s.replace(a, b)] for one-character [a] and [b]. *)
Definition replace1 (a b : N) (c : N) : N := if (c =? a)%N then b else c.

Definition replace (a b : N) (s : str) : str := map (replace1 a b) s.

(** Decoding of a UTF-8 literal, so that examples can be written with
    the words themselves. *)
Fixpoint decode (fuel : nat) (bs : list N) : str :=
  match fuel with
  | O => []
  | S fuel =>
      match bs with
      | [] => []
      | b :: bs1 =>
          if (b <? 128)%N then b :: decode fuel bs1
          else if (b <? 224)%N then
            match bs1 with
            | b1 :: bs2 =>
                ((b - 192) * 64 + (b1 - 128))%N :: decode fuel bs2
            | _ => []
            end
          else if (b <? 240)%N then
            match bs1 with
            | b1 :: b2 :: bs3 =>
                ((b - 224) * 4096 + (b1 - 128) * 64 + (b2 - 128))%N
                  :: decode fuel bs3
            | _ => []
            end
          else
            match bs1 with
            | b1 :: b2 :: b3 :: bs4 =>
                ((b - 240) * 262144 + (b1 - 128) * 4096
                 + (b2 - 128) * 64 + (b3 - 128))%N :: decode fuel bs4
            | _ => []
            end
      end
  end.

Definition utf8 (s : string) : str :=
  let bs := map (fun a => N_of_ascii a) (list_ascii_of_string s) in
  decode (length bs) bs.

End Py.

(** The Unicode tables of the interpreter. *)
Class Unicode := {
  (** [ch.isalpha()] for a one-character string *)
  py_isalpha : N -> bool;
  (** [s.lower()] *)
  py_lower : str -> str
}.

(** The Latin and Russian part of the tables, enough to run the examples. *)
Module Sample.

Definition isalpha (c : N) : bool :=
  ((65 <=? c) && (c <=? 90) || (97 <=? c) && (c <=? 122)
   || (1040 <=? c) && (c <=? 1103) || (c =? 1025) || (c =? 1105))%N.

Definition lower1 (c : N) : N :=
  (if (65 <=? c) && (c <=? 90) then c + 32
   else if (1040 <=? c) && (c <=? 1071) then c + 32
   else if c =? 1025 then 1105
   else c)%N.

Definition tables : Unicode :=
  {| py_isalpha := isalpha; py_lower := map lower1 |}.

End Sample.

(** ** bot.py: the dictionary normalizer *)

(** The letters the source names: "ё", "е", and the members of
    [set("ьъый")]. *)
Definition yo : N := 1105.
Definition ie : N := 1077.
Definition soft_sign : N := 1100.
Definition hard_sign : N := 1098.
Definition yeru : N := 1099.
Definition short_i : N := 1081.
Definition space : N := 32.

Definition SKIP_LAST : gset N :=
  list_to_set [soft_sign; hard_sign; yeru; short_i].

Section Normalizer.
Context {U : Unicode}.

Definition normalize_city (s : str) : str :=
  match s with
  | [] => []
  | _ =>
      let s := py_lower (Py.strip s) in
      let s := Py.join [space] (Py.split s) in
      Py.replace yo ie s
  end.

(** The [for ch in reversed(word)] loop of [last_significant_letter];
    the argument is the word already reversed. *)
Fixpoint scan_letters (rword : str) : option N :=
  match rword with
  | [] => None
  | ch :: rest =>
      if py_isalpha ch then
        let ch_norm := Py.replace1 yo ie ch in
        if bool_decide (ch_norm ∈ SKIP_LAST) then scan_letters rest
        else Some ch_norm
      else scan_letters rest
  end.

Definition last_significant_letter (word : str) : option N :=
  let word := normalize_city word in
  match word with
  | [] => None
  | _ => scan_letters (rev word)
  end.

End Normalizer.

(** ** database.py: the [players] table *)

Record row := Row {
  username : str;
  country : str;
  wins : Z;
  current_streak : Z;
  max_streak : Z
}.

Module DB.

Definition Player : str := Py.utf8 "Player".

(** [username or "Player"] *)
Definition or_Player (username : option str) : str :=
  match username with
  | None | Some [] => Player
  | Some s => s
  end.

(** [INSERT OR IGNORE INTO players (user_id, username) VALUES (?, ?)]:
    the other columns take their defaults. *)
Definition insert_or_ignore (user_id : Z) (name : str)
    (db : gmap Z row) : gmap Z row :=
  match db !! user_id with
  | Some _ => db
  | None => <[user_id := Row name [] 0 0 0]> db
  end.

Definition add_or_update_player (user_id : Z) (uname : option str)
    (db : gmap Z row) : gmap Z row :=
  let db := insert_or_ignore user_id (or_Player uname) db in
  alter (fun r => Row (or_Player uname) (country r) (wins r)
                      (current_streak r) (max_streak r)) user_id db.

Definition set_country (user_id : Z) (c : str)
    (db : gmap Z row) : gmap Z row :=
  let db := insert_or_ignore user_id Player db in
  alter (fun r => Row (username r) c (wins r)
                      (current_streak r) (max_streak r)) user_id db.

(** [UPDATE players SET wins = wins + 1,
     current_streak = current_streak + 1 WHERE user_id = ?] *)
Definition bump (r : row) : row :=
  Row (username r) (country r) (wins r + 1) (current_streak r + 1)
      (max_streak r).

(** [UPDATE players SET max_streak = current_streak
     WHERE user_id = ? AND current_streak > max_streak] *)
Definition raise_max (r : row) : row :=
  if current_streak r >? max_streak r
  then Row (username r) (country r) (wins r) (current_streak r)
           (current_streak r)
  else r.

Definition record_win (user_id : Z) (db : gmap Z row) : gmap Z row :=
  let db := insert_or_ignore user_id Player db in
  let db := alter bump user_id db in
  alter raise_max user_id db.

(** [UPDATE players SET current_streak = 0 WHERE user_id = ?] *)
Definition zero_streak (r : row) : row :=
  Row (username r) (country r) (wins r) 0 (max_streak r).

Definition reset_streak (user_id : Z) (db : gmap Z row) : gmap Z row :=
  let db := insert_or_ignore user_id Player db in
  alter zero_streak user_id db.

(** *** The read queries *)

(** [ORDER BY username ASC]: SQLite compares the UTF-8 bytes of two texts,
    which orders them as the lists of their code points. *)
Fixpoint text_le (a b : str) : bool :=
  match a, b with
  | [], _ => true
  | _ :: _, [] => false
  | x :: a', y :: b' =>
      if (x <? y)%N then true
      else if (x =? y)%N then text_le a' b'
      else false
  end.

(** [ORDER BY wins DESC, username ASC] *)
Definition top_order (a b : Z * row) : Prop :=
  wins b.2 < wins a.2
  ∨ (wins a.2 = wins b.2 ∧ text_le (username a.2) (username b.2) = true).

#[global] Instance top_order_dec a b : Decision (top_order a b).
Proof. unfold top_order. apply _. Defined.

(** One element of the list [get_top50] returns:
    [(rank, username, country, wins, max_streak)]. *)
Record top_entry := TopEntry {
  top_rank : Z;
  top_username : str;
  top_country : str;
  top_wins : Z;
  top_max_streak : Z
}.

(** The loop of [get_top50] over the fetched rows, [rank] counting up. *)
Fixpoint number_rows (rank : Z) (rows : list (Z * row)) : list top_entry :=
  match rows with
  | [] => []
  | (user_id, r) :: rows =>
      TopEntry rank (or_Player (Some (username r))) (country r) (wins r)
               (max_streak r)
        :: number_rows (rank + 1) rows
  end.

(** [SELECT ... ORDER BY wins DESC, username ASC LIMIT 50].  SQL leaves the
    order of rows equal in both columns open; here it is the order the
    merge leaves them in. *)
Definition select_top50 (db : gmap Z row) : list (Z * row) :=
  take 50 (merge_sort top_order (map_to_list db)).

Definition get_top50 (db : gmap Z row) : list top_entry :=
  number_rows 1 (select_top50 db).

(** [SELECT COUNT( * ) FROM players WHERE wins > ?] *)
Definition count_higher (w : Z) (db : gmap Z row) : Z :=
  Z.of_nat (size (filter (fun kv : Z * row => w < wins kv.2) db)).

Definition get_player_rank_and_points (user_id : Z) (db : gmap Z row)
    : option Z * Z :=
  match db !! user_id with
  | None => (None, 0)
  | Some r => (Some (count_higher (wins r) db + 1), wins r)
  end.

(** The dictionary [get_player_profile] returns. *)
Record profile := Profile {
  profile_user_id : Z;
  profile_username : str;
  profile_country : str;
  profile_wins : Z;
  profile_current_streak : Z;
  profile_max_streak : Z;
  profile_rank : Z
}.

Definition get_player_profile (user_id : Z) (db : gmap Z row)
    : option profile :=
  match db !! user_id with
  | None => None
  | Some r =>
      Some (Profile user_id (or_Player (Some (username r))) (country r)
                    (wins r) (current_streak r) (max_streak r)
                    (count_higher (wins r) db + 1))
  end.

End DB.

(** ** bot.py: the game structures *)

(** [f"game_{min(a,b)}_{max(a,b)}"] and [pair_key] *)
Definition make_game_id (a b : Z) : Z * Z := (Z.min a b, Z.max a b).
Definition pair_key (a b : Z) : Z * Z := (Z.min a b, Z.max a b).

(** The [reason] argument of [end_game] at its two call sites. *)
Inductive reason := TimedOut | Surrendered.

(** What the bot sends; the constructor says which text, the arguments are
    the values formatted into it. *)
Inductive msg :=
| YourTurn (letter : option N)
| OpponentNamed (mover : Z) (city : str) (user_to_move : Z)
| AwaitingOpponent (user_to_move : Z)
| GameStarted (first : bool)
| GameStartedWait (p1 : Z)
| RematchButton (p1 p2 : Z)
| Draw (why : reason)
| YouWon (loser : Z) (why : reason)
| YouLost (winner : Z) (why : reason)
| Welcome
| AlreadyInGame
| Queued
| AlreadyQueued
| LeftQueue
| NotInQueue
| NotInGame
| GameNotFound
| AskCountry
| CountrySaved (c : str)
| NoRematchOffers
| RematchOfferCancelled
| OpponentCancelledOffer
| NotYourTurn
| InvalidWord
| UnknownCity
| AlreadyUsed
| WrongLetter (needed : N)
| Accepted (city : str)
| OpponentMoved (mover : Z) (city : str) (letter : option N)
| BadCallback
| ConsentWithdrawn
| OpponentWithdrew
| ConsentGiven
| OpponentConsented
| RematchAborted.

#[global] Instance reason_eq_dec : EqDecision reason.
Proof. solve_decision. Defined.

#[global] Instance msg_eq_dec : EqDecision msg.
Proof. solve_decision. Defined.

(** One entry of [games].  [started_at] is written once and never read;
    it is left out. *)
Record game := Game {
  players : Z * Z;
  turn : Z;
  last_letter : option N;
  used_cities : gset str;
  timer_task : option nat;
  moves : Z;
  last_move : option (Z * str)
}.

Record state := State {
  games : gmap (Z * Z) game;
  player_game : gmap Z (Z * Z);
  waiting_player : option Z;
  rematch_offers : gmap (Z * Z) (gset Z);
  db : gmap Z row;
  (** the [turn_timeout(game_id, user_id)] tasks that are still pending *)
  tasks : gmap nat ((Z * Z) * Z);
  next_task : nat;
  outbox : list (Z * msg)
}.

Definition init : state := State ∅ ∅ None ∅ ∅ ∅ O [].

Definition set_games (f : gmap (Z * Z) game -> gmap (Z * Z) game) (st : state) :=
  State (f (games st)) (player_game st) (waiting_player st)
        (rematch_offers st) (db st) (tasks st) (next_task st) (outbox st).
Definition set_player_game (f : gmap Z (Z * Z) -> gmap Z (Z * Z)) (st : state) :=
  State (games st) (f (player_game st)) (waiting_player st)
        (rematch_offers st) (db st) (tasks st) (next_task st) (outbox st).
Definition set_waiting_player (w : option Z) (st : state) :=
  State (games st) (player_game st) w
        (rematch_offers st) (db st) (tasks st) (next_task st) (outbox st).
Definition set_rematch_offers
    (f : gmap (Z * Z) (gset Z) -> gmap (Z * Z) (gset Z)) (st : state) :=
  State (games st) (player_game st) (waiting_player st)
        (f (rematch_offers st)) (db st) (tasks st) (next_task st) (outbox st).
Definition set_db (f : gmap Z row -> gmap Z row) (st : state) :=
  State (games st) (player_game st) (waiting_player st)
        (rematch_offers st) (f (db st)) (tasks st) (next_task st) (outbox st).
Definition set_tasks
    (f : gmap nat ((Z * Z) * Z) -> gmap nat ((Z * Z) * Z)) (st : state) :=
  State (games st) (player_game st) (waiting_player st)
        (rematch_offers st) (db st) (f (tasks st)) (next_task st) (outbox st).

(** [bot.send_message], [message.reply] and [cb.answer] *)
Definition send (to : Z) (m : msg) (st : state) : state :=
  State (games st) (player_game st) (waiting_player st)
        (rematch_offers st) (db st) (tasks st) (next_task st)
        (outbox st ++ [(to, m)]).

(** [asyncio.create_task(turn_timeout(game_id, user_id))] *)
Definition create_task (game_id : Z * Z) (user_id : Z) (st : state)
    : nat * state :=
  (next_task st,
   State (games st) (player_game st) (waiting_player st)
         (rematch_offers st) (db st)
         (<[next_task st := (game_id, user_id)]> (tasks st))
         (S (next_task st)) (outbox st)).

(** [task.done()] *)
Definition task_done (task : nat) (st : state) : bool :=
  match tasks st !! task with Some _ => false | None => true end.

(** [cancel_and_await(task)]: the cancelled task leaves at its
    [except asyncio.CancelledError: return]. *)
Definition cancel_and_await (task : option nat) (st : state) : state :=
  match task with
  | None => st
  | Some t => if task_done t st then st else set_tasks (delete t) st
  end.

Definition set_timer_task (t : option nat) (g : game) : game :=
  Game (players g) (turn g) (last_letter g) (used_cities g) t (moves g)
       (last_move g).

(** [players[0] if players[1] == user_id else players[1]] *)
Definition other_player (ps : Z * Z) (user_id : Z) : Z :=
  if decide (ps.2 = user_id) then ps.1 else ps.2.

Definition is_user_in_game (user_id : Z) (st : state) : bool :=
  match player_game st !! user_id with Some _ => true | None => false end.

Definition set_turn_clock (game_id : Z * Z) (t : option nat) (st : state) : state :=
  set_games (alter (set_timer_task t) game_id) st.

(** [start_turn]: the two notifications, then the old clock (if one is
    still pending) is cancelled and a new one is created for the player to
    move. *)
Definition start_turn (game_id : Z * Z) (st : state) : state :=
  match games st !! game_id with
  | None => st
  | Some game =>
      let user_to_move := turn game in
      let opponent := other_player (players game) user_to_move in
      let st := send user_to_move (YourTurn (last_letter game)) st in
      let st :=
        match last_move game with
        | Some (mover_id, city) =>
            send opponent (OpponentNamed mover_id city user_to_move) st
        | None => send opponent (AwaitingOpponent user_to_move) st
        end in
      let st := cancel_and_await (timer_task game) st in
      let '(task, st) := create_task game_id user_to_move st in
      set_turn_clock game_id (Some task) st
  end.

Definition create_game_between (p1 p2 : Z) (first_player : option Z)
    (st : state) : state :=
  let gid := make_game_id p1 p2 in
  match games st !! gid with
  | Some _ => st
  | None =>
      let first_player := default p1 first_player in
      let st := set_games
                  <[gid := Game (p1, p2) first_player None ∅ None 0 None]> st in
      let st := set_player_game <[p1 := gid]> st in
      let st := set_player_game <[p2 := gid]> st in
      let st := send p1 (GameStarted (bool_decide (first_player = p1))) st in
      let st := send p2 (GameStartedWait p1) st in
      start_turn gid st
  end.

Definition offer_rematch_to_players (p1 p2 : Z) (st : state) : state :=
  send p2 (RematchButton p1 p2) (send p1 (RematchButton p1 p2) st).

Definition end_game (game_id : Z * Z) (winner_id : option Z) (why : reason)
    (st : state) : state :=
  match games st !! game_id with
  | None => st
  | Some game =>
      let '(p1, p2) := players game in
      let st := cancel_and_await (timer_task game) st in
      let st :=
        match winner_id with
        | None =>
            let st := send p1 (Draw why) st in
            let st := send p2 (Draw why) st in
            let st := set_db (DB.reset_streak p1) st in
            set_db (DB.reset_streak p2) st
        | Some winner_id =>
            let loser := if decide (winner_id = p2) then p1 else p2 in
            let st := send winner_id (YouWon loser why) st in
            let st := send loser (YouLost winner_id why) st in
            let st := set_db (DB.record_win winner_id) st in
            set_db (DB.reset_streak loser) st
        end in
      let st := set_player_game (delete p1) st in
      let st := set_player_game (delete p2) st in
      let st := set_games (delete game_id) st in
      offer_rematch_to_players p1 p2 st
  end.

(** [turn_timeout], entered when the sleep of the pending task [task] is
    over.  A task that was cancelled, or has finished, does nothing.  When
    [end_game] is reached from here the clock it cancels is this very
    task, which carries on after its [except asyncio.CancelledError] and
    finishes when [end_game] returns. *)
Definition turn_timeout (task : nat) (st : state) : state :=
  match tasks st !! task with
  | None => st
  | Some (game_id, user_id) =>
      let st :=
        match games st !! game_id with
        | None => st
        | Some game =>
            if decide (turn game = user_id) then
              let opponent := other_player (players game) user_id in
              end_game game_id (Some opponent) TimedOut st
            else st
        end in
      set_tasks (delete task) st
  end.

(** *** Commands *)

Definition cmd_start (user_id : Z) (uname : option str) (st : state) : state :=
  send user_id Welcome (set_db (DB.add_or_update_player user_id uname) st).

Definition cmd_play (user_id : Z) (uname : option str) (st : state) : state :=
  let st := set_db (DB.add_or_update_player user_id uname) st in
  if is_user_in_game user_id st then send user_id AlreadyInGame st
  else
    match waiting_player st with
    | None => send user_id Queued (set_waiting_player (Some user_id) st)
    | Some waiting =>
        if decide (waiting = user_id) then send user_id AlreadyQueued st
        else
          let p1 := waiting in
          let p2 := user_id in
          let st := set_waiting_player None st in
          create_game_between p1 p2 (Some p1) st
    end.

Definition cmd_leave (user_id : Z) (st : state) : state :=
  if decide (waiting_player st = Some user_id)
  then send user_id LeftQueue (set_waiting_player None st)
  else send user_id NotInQueue st.

Definition cmd_surrender (user_id : Z) (st : state) : state :=
  match player_game st !! user_id with
  | None => send user_id NotInGame st
  | Some gid =>
      match games st !! gid with
      | None => send user_id GameNotFound st
      | Some game =>
          let opponent := other_player (players game) user_id in
          end_game gid (Some opponent) Surrendered st
      end
  end.

(** [/country]: [arg] is [parts[1]] when the text has a second part. *)
Definition cmd_country (user_id : Z) (uname : option str) (arg : option str)
    (st : state) : state :=
  match arg with
  | None => send user_id AskCountry st
  | Some a =>
      let c := Py.strip a in
      let st := set_db (DB.add_or_update_player user_id uname) st in
      let st := set_db (DB.set_country user_id c) st in
      send user_id (CountrySaved c) st
  end.

(** [/cancel_rematch].  The source walks [rematch_offers] in insertion
    order; here the counterparts are notified in the key order of the
    map. *)
Definition withdraw_from (user_id : Z) (offers : gset Z) : option (gset Z) :=
  if decide (user_id ∈ offers) then
    let offers := offers ∖ {[user_id]} in
    if decide (offers = ∅) then None else Some offers
  else Some offers.

Definition cmd_cancel_rematch (user_id : Z) (st : state) : state :=
  let hit := filter (fun kv : (Z * Z) * gset Z => user_id ∈ kv.2)
                    (map_to_list (rematch_offers st)) in
  let to_notify := map (fun kv : (Z * Z) * gset Z => other_player kv.1 user_id) hit in
  let st := set_rematch_offers (omap (withdraw_from user_id)) st in
  match hit with
  | [] => send user_id NoRematchOffers st
  | _ =>
      let st := send user_id RematchOfferCancelled st in
      foldl (fun st other => send other OpponentCancelledOffer st) st to_notify
  end.

Section Bot.
Context {U : Unicode}.
(** The set read from [cities.txt] when the module is loaded. *)
Variable CITY_SET : gset str.

(** The tail of [handle_move], from [game["used_cities"].add(city)] on:
    the move passed every check. *)
Definition accept_move (gid : Z * Z) (game : game) (user_id : Z)
    (city : str) (st : state) : state :=
  let nxt := last_significant_letter city in
  let st := cancel_and_await (timer_task game) st in
  let opponent := other_player (players game) user_id in
  let st := send user_id (Accepted city) st in
  let st := send opponent (OpponentMoved user_id city nxt) st in
  let '(task, st) := create_task gid opponent st in
  set_games
    <[gid := Game (players game) opponent nxt
                  ({[city]} ∪ used_cities game) (Some task)
                  (moves game + 1) (Some (user_id, city))]> st.

(** [handle_move]; [text] is [message.text]. *)
Definition handle_move (user_id : Z) (text : option str) (st : state)
    : state :=
  match player_game st !! user_id with
  | None => st
  | Some gid =>
      match games st !! gid with
      | None => st
      | Some game =>
          if decide (turn game ≠ user_id) then send user_id NotYourTurn st
          else
            let city_raw := Py.strip (default [] text) in
            let city := normalize_city city_raw in
            match city with
            | [] => send user_id InvalidWord st
            | first_letter :: _ =>
                if decide (city ∉ CITY_SET) then send user_id UnknownCity st
                else if decide (city ∈ used_cities game)
                then send user_id AlreadyUsed st
                else
                  match last_letter game with
                  | Some needed =>
                      if decide (first_letter ≠ needed)
                      then send user_id (WrongLetter needed) st
                      else accept_move gid game user_id city st
                  | None => accept_move gid game user_id city st
                  end
            end
      end
  end.

(** The checks of the specification's [submitMove], steps 1 to 5, in
    the order the specification lists them: the first check that fails
    gives the rejection, [None] means the move passes. *)
Definition submitMove_checks (session : game) (playerId : Z) (word : str)
    : option msg :=
  if decide (playerId ≠ turn session) then Some NotYourTurn
  else if decide (word = []) then Some InvalidWord
  else if decide (word ∉ CITY_SET) then Some UnknownCity
  else if decide (word ∈ used_cities session) then Some AlreadyUsed
  else
    match last_letter session with
    | Some needed =>
        if decide (head word ≠ Some needed) then Some (WrongLetter needed)
        else None
    | None => None
    end.

(** [callback_rematch]; [data] is [Some (p1, p2)] when [cb.data] parses
    as ["rematch:p1:p2"]. *)
Definition callback_rematch (user_id : Z) (data : option (Z * Z))
    (st : state) : state :=
  match data with
  | None => send user_id BadCallback st
  | Some (p1, p2) =>
      let key := pair_key p1 p2 in
      let offers := default ∅ (rematch_offers st !! key) in
      let other := other_player (p1, p2) user_id in
      if decide (user_id ∈ offers) then
        let offers := offers ∖ {[user_id]} in
        let st := set_rematch_offers <[key := offers]> st in
        let st := send user_id ConsentWithdrawn st in
        let st := send other OpponentWithdrew st in
        if decide (offers = ∅)
        then set_rematch_offers (delete key) st
        else st
      else
        let offers := offers ∪ {[user_id]} in
        let st := set_rematch_offers <[key := offers]> st in
        let st := send user_id ConsentGiven st in
        let st := send other OpponentConsented st in
        if decide (offers = {[key.1; key.2]}) then
          let st := set_rematch_offers (delete key) st in
          if is_user_in_game p1 st || is_user_in_game p2 st then
            send p2 RematchAborted (send p1 RematchAborted st)
          else create_game_between p1 p2 (Some p1) st
        else st
  end.

(** *** The dispatcher *)

Inductive event :=
| Start (user_id : Z) (uname : option str)
| Play (user_id : Z) (uname : option str)
| Leave (user_id : Z)
| Surrender (user_id : Z)
| Country (user_id : Z) (uname : option str) (arg : option str)
| CancelRematch (user_id : Z)
| Text (user_id : Z) (text : option str)
| RematchTap (user_id : Z) (data : option (Z * Z))
| ClockExpires (task : nat).

Definition handle (ev : event) (st : state) : state :=
  match ev with
  | Start u n => cmd_start u n st
  | Play u n => cmd_play u n st
  | Leave u => cmd_leave u st
  | Surrender u => cmd_surrender u st
  | Country u n a => cmd_country u n a st
  | CancelRematch u => cmd_cancel_rematch u st
  | Text u t => handle_move u t st
  | RematchTap u d => callback_rematch u d st
  | ClockExpires t => turn_timeout t st
  end.

(** A rematch button can only be pressed by a player it was sent to. *)
Definition enabled (st : state) (ev : event) : Prop :=
  match ev with
  | RematchTap u (Some (p1, p2)) => (u, RematchButton p1 p2) ∈ outbox st
  | _ => True
  end.

#[global] Instance enabled_dec st ev : Decision (enabled st ev).
Proof. destruct ev as [| | | | | | |? [[??]|]|]; simpl; apply _. Defined.

Inductive reachable : state -> Prop :=
| reachable_init : reachable init
| reachable_step st ev :
    reachable st -> enabled st ev -> reachable (handle ev st).

Fixpoint run (evs : list event) (st : state) : option state :=
  match evs with
  | [] => Some st
  | ev :: evs =>
      if decide (enabled st ev) then run evs (handle ev st) else None
  end.

End Bot.

(** ** bot.py: the task of a clock between its awaits

    The handlers above run to their end in one step.  The event loop
    runs a task only up to its next [await], and the task of a clock
    whose sleep is over spends most of [end_game] at one: it awaits two
    sends and two writes of the statistics before it takes the session
    out of [games] and [player_game], and two more sends after.  Here that
    task is followed from one [await] to the next, and handlers run while
    it is suspended.  A handler still runs without interruption, which is
    one of the schedules of the loop, so every run below is a run of the
    program.

    A task of [tasks] is not done.  It sleeps unless [forfeits] has its
    frame; then it is suspended inside [end_game] at the [await] the frame
    names.  [cancel_and_await] makes a task done wherever it is suspended:
    [asyncio.CancelledError] is not an [Exception] (since Python 3.8),
    so the [except Exception] clauses around the awaits of [end_game] let it pass
    to the [except asyncio.CancelledError: return] of [turn_timeout]. *)

(** The [await] of [end_game] that a task is suspended at, in the order
    of the source: the send to the winner, the send to the loser,
    [record_win], [reset_streak], and the two sends of
    [offer_rematch_to_players]. *)
Inductive forfeit_at :=
| TellWinner
| TellLoser
| RecordWin
| ResetStreak
| OfferFirst
| OfferSecond.

(** The local variables of [end_game] in a suspended task. *)
Record forfeit := Forfeit {
  f_game_id : Z * Z;
  f_winner_id : Z;
  f_reason : reason;
  f_p1 : Z;
  f_p2 : Z;
  f_loser : Z;
  f_at : forfeit_at
}.

Definition set_at (pos : forfeit_at) (f : forfeit) : forfeit :=
  Forfeit (f_game_id f) (f_winner_id f) (f_reason f) (f_p1 f) (f_p2 f)
          (f_loser f) pos.

Record live := Live {
  shared : state;
  forfeits : gmap nat forfeit
}.

Definition live_init : live := Live init ∅.

(** The coroutine of the task returns. *)
Definition task_returns (task : nat) (l : live) : live :=
  Live (set_tasks (delete task) (shared l)) (delete task (forfeits l)).

(** [end_game(game_id, winner_id, reason)] as [turn_timeout] calls it in
    the task [task], up to its first send.  When the session's clock is
    the running task itself, [task.cancel()] and [await task] raise
    [asyncio.CancelledError] in it at once, [end_game] catches it and
    goes on; another clock that is not done is cancelled. *)
Definition end_game_enter (task : nat) (game_id : Z * Z) (winner_id : Z)
    (why : reason) (l : live) : live :=
  let st := shared l in
  match games st !! game_id with
  | None => task_returns task l
  | Some game =>
      let '(p1, p2) := players game in
      let st :=
        match timer_task game with
        | Some t => if decide (t = task) then st
                    else cancel_and_await (Some t) st
        | None => st
        end in
      let loser := if decide (winner_id = p2) then p1 else p2 in
      Live st (<[task := Forfeit game_id winner_id why p1 p2 loser
                                  TellWinner]> (forfeits l))
  end.

(** [turn_timeout] when [asyncio.sleep(ROUND_SECONDS)] returns in the
    task [task]. *)
Definition sleep_over (task : nat) (l : live) : live :=
  let st := shared l in
  match tasks st !! task, forfeits l !! task with
  | Some (game_id, user_id), None =>
      match games st !! game_id with
      | None => task_returns task l
      | Some game =>
          if decide (turn game = user_id) then
            let opponent := other_player (players game) user_id in
            end_game_enter task game_id opponent TimedOut l
          else task_returns task l
      end
  | _, _ => l
  end.

(** The operation the task [task] awaits inside [end_game] completes, and
    the task runs on to its next [await], or to its end. *)
Definition await_done (task : nat) (l : live) : live :=
  let st := shared l in
  match tasks st !! task, forfeits l !! task with
  | Some _, Some f =>
      let winner_id := f_winner_id f in
      let loser := f_loser f in
      let p1 := f_p1 f in
      let p2 := f_p2 f in
      let next pos st := Live st (<[task := set_at pos f]> (forfeits l)) in
      match f_at f with
      | TellWinner =>
          next TellLoser (send winner_id (YouWon loser (f_reason f)) st)
      | TellLoser =>
          next RecordWin (send loser (YouLost winner_id (f_reason f)) st)
      | RecordWin => next ResetStreak (set_db (DB.record_win winner_id) st)
      | ResetStreak =>
          let st := set_db (DB.reset_streak loser) st in
          let st := set_player_game (delete p1) st in
          let st := set_player_game (delete p2) st in
          let st := set_games (delete (f_game_id f)) st in
          next OfferFirst st
      | OfferFirst => next OfferSecond (send p1 (RematchButton p1 p2) st)
      | OfferSecond =>
          task_returns task
            (Live (send p2 (RematchButton p1 p2) st) (forfeits l))
      end
  | _, _ => l
  end.

Section Live.
Context {U : Unicode}.
Variable CITY_SET : gset str.

Inductive live_event :=
| Handler (ev : event)
| SleepOver (task : nat)
| AwaitDone (task : nat).

Definition live_handle (e : live_event) (l : live) : live :=
  match e with
  | Handler ev => Live (handle CITY_SET ev (shared l)) (forfeits l)
  | SleepOver task => sleep_over task l
  | AwaitDone task => await_done task l
  end.

(** [Handler (ClockExpires task)] is the whole of [turn_timeout] after
    its sleep, for a task that sleeps. *)
Definition live_enabled (l : live) (e : live_event) : Prop :=
  match e with
  | Handler ev =>
      enabled (shared l) ev
      ∧ match ev with
        | ClockExpires task => forfeits l !! task = None
        | _ => True
        end
  | _ => True
  end.

#[global] Instance live_enabled_dec l e : Decision (live_enabled l e).
Proof.
  destruct e as [ev| |]; simpl; [|apply _..].
  apply and_dec; [apply enabled_dec|destruct ev; apply _].
Defined.

Inductive live_reachable : live -> Prop :=
| live_reachable_init : live_reachable live_init
| live_reachable_step l e :
    live_reachable l -> live_enabled l e -> live_reachable (live_handle e l).

Fixpoint live_run (es : list live_event) (l : live) : option live :=
  match es with
  | [] => Some l
  | e :: es =>
      if decide (live_enabled l e) then live_run es (live_handle e l)
      else None
  end.

End Live.

(** ** Vocabulary of the properties *)


(** The row [INSERT OR IGNORE] leaves under [user_id]. *)
Definition row_of (db : gmap Z row) (user_id : Z) : row :=
  default (Row DB.Player [] 0 0 0) (db !! user_id).

(** The clock table after the session's current clock is cancelled. *)
Definition without_clock (g : game) (ts : gmap nat ((Z * Z) * Z))
    : gmap nat ((Z * Z) * Z) :=
  match timer_task g with Some old => delete old ts | None => ts end.

(** How the table of pending tasks may change: entries are never
    altered, and a new entry gets an identity that was not used before. *)
Definition tasks_evolve (st st' : state) : Prop :=
  (next_task st <= next_task st')%nat
  ∧ ∀ t x, tasks st' !! t = Some x ->
           tasks st !! t = Some x
           ∨ (next_task st <= t < next_task st')%nat.

(** Every pending task was created by [create_task]. *)
Definition tasks_fresh (st : state) : Prop :=
  ∀ t x, tasks st !! t = Some x -> (t < next_task st)%nat.

(** A task that existed and is no longer pending. *)
Definition spent (t : nat) (st : state) : Prop :=
  tasks st !! t = None ∧ (t < next_task st)%nat.

(** Every registered session has one pending clock, the one its
    [timer_task] names, and that clock is for the player to move; every
    pending clock is the clock of a registered session. *)
Definition clock_inv (st : state) : Prop :=
  (∀ gid g, games st !! gid = Some g ->
            ∃ t, timer_task g = Some t ∧ tasks st !! t = Some (gid, turn g))
  ∧ (∀ t gid u, tasks st !! t = Some (gid, u) ->
                ∃ g, games st !! gid = Some g ∧ timer_task g = Some t)
  ∧ tasks_fresh st.

Section Settling.
Context {U : Unicode}.
Variable CITY_SET : gset str.

(** An accepted move against the pending clock [t], and a forfeit by the
    expiry of [t]. *)
Definition move_accepted_on (t : nat) (ev : event) (st : state) : Prop :=
  ∃ u text gid g,
    ev = Text u text
    ∧ player_game st !! u = Some gid
    ∧ games st !! gid = Some g
    ∧ timer_task g = Some t
    ∧ is_Some (tasks st !! t)
    ∧ submitMove_checks CITY_SET g u
        (normalize_city (Py.strip (default [] text))) = None.

Definition timeout_forfeits (t : nat) (ev : event) (st : state) : Prop :=
  ev = ClockExpires t
  ∧ ∃ gid mover g,
      tasks st !! t = Some (gid, mover)
      ∧ games st !! gid = Some g
      ∧ turn g = mover.

Definition settles (t : nat) (ev : event) (st : state) : Prop :=
  move_accepted_on t ev st ∨ timeout_forfeits t ev st.

End Settling.

(** A session has two different players and its turn is one of them. *)
Definition session_wf (g : game) : Prop :=
  (players g).1 ≠ (players g).2
  ∧ (turn g = (players g).1 ∨ turn g = (players g).2).

Definition buttons_ok (l : list (Z * msg)) : Prop :=
  ∀ u p1 p2, (u, RematchButton p1 p2) ∈ l -> p1 ≠ p2.

Definition sessions_wf (st : state) : Prop :=
  (∀ gid g, games st !! gid = Some g -> session_wf g)
  ∧ buttons_ok (outbox st).

Definition is_button (m : msg) : bool :=
  match m with RematchButton _ _ => true | _ => false end.

(** The session [create_game_between] registers. *)
Definition fresh_session (p1 p2 first_player : Z) (clock : nat) : game :=
  Game (p1, p2) first_player None ∅ (Some clock) 0 None.

(** A player on the [players] list of a session. *)
Definition plays_in (user_id : Z) (g : game) : Prop :=
  user_id = (players g).1 ∨ user_id = (players g).2.

(** The reverse index is sound: a session is registered under the id of
    its two players, and an entry of [player_game] leads to a registered
    session that lists the player. *)
Definition index_inv (st : state) : Prop :=
  (∀ gid g, games st !! gid = Some g ->
            gid = make_game_id (players g).1 (players g).2)
  ∧ (∀ u gid, player_game st !! u = Some gid ->
              ∃ g, games st !! gid = Some g ∧ plays_in u g).

(** No registered session lists the player. *)
Definition in_no_session (user_id : Z) (st : state) : Prop :=
  ∀ gid g, games st !! gid = Some g -> ¬ plays_in user_id g.

(** ** Sample runs *)

Module Scenario.
#[local] Existing Instance Sample.tables.

Definition cities : gset str :=
  list_to_set [Py.utf8 "москва"; Py.utf8 "архангельск"; Py.utf8 "орел";
               Py.utf8 "казань"; Py.utf8 "учалы"].

Definition is_play (ev : event) : Prop :=
  match ev with Play _ _ => True | _ => False end.

(** The state after the events [evs], from the start of the process. *)
Definition after (evs : list event) : state :=
  default init (run cities evs init).

(** Players 1 and 2 are matched by [/play]; player 1 moves first. *)
Definition matched : list event := [Play 1 None; Play 2 None].

(** Player 1 names Moscow. *)
Definition moscow : list event :=
  matched ++ [Text 1 (Some (Py.utf8 "Москва"))].

(** The game of 1 and 2 ends, 1 asks for a new opponent, then both
    press the rematch button. *)
Definition rematch_while_waiting : list event :=
  matched ++ [Surrender 2; Play 1 None;
              RematchTap 1 (Some (1, 2)); RematchTap 2 (Some (1, 2))].

(** ... and then player 3 asks for an opponent. *)
Definition third_player_joins : list event :=
  rematch_while_waiting ++ [Play 3 None].

(** The session of players 1 and 2 right after they were matched. *)
Definition first_session : game := fresh_session 1 2 1 0.

(** The game of 1 and 2 is over and nobody has asked for a rematch. *)
Definition game_over : list event := matched ++ [Surrender 2].

(** The game is over and player 1 has pressed the rematch button. *)
Definition one_consent : list event :=
  game_over ++ [RematchTap 1 (Some (1, 2))].

(** ... and player 2 has meanwhile been matched with player 3. *)
Definition opponent_busy : list event :=
  one_consent ++ [Play 2 None; Play 3 None].

(** The state after 1 and 2 were matched, with their session taken out
    of the registry while its clock is still pending. *)
Definition session_gone : state := set_games (delete (1, 2)) (after matched).

End Scenario.

(** ** Sample runs of interleaved tasks, and of the rematch *)

Module Races.
Import Scenario.
#[local] Existing Instance Sample.tables.

(** The state after the steps [es], from the start of the process. *)
Definition live_after (es : list live_event) : live :=
  default live_init (live_run cities es live_init).

(** Players 1 and 2 are matched and player 1 lets the clock run out; the
    task of the clock tells player 2 of the win and is suspended in the
    send to player 1. *)
Definition told_of_the_win : list live_event :=
  [Handler (Play 1 None); Handler (Play 2 None); SleepOver 0; AwaitDone 0].

(** ... and it goes on until the win of player 2 is written and it is
    suspended in [reset_streak]. *)
Definition win_recorded : list live_event :=
  told_of_the_win ++ [AwaitDone 0; AwaitDone 0].

(** Player 1 names Moscow. *)
Definition late_move : event := Text 1 (Some (Py.utf8 "Москва")).

(** The session of players 1 and 2 after that move. *)
Definition moved_session : game :=
  Game (1, 2) 2 (Some 1072%N) {[Py.utf8 "москва"]} (Some 1%nat) 1
       (Some (1, Py.utf8 "москва")).

(** After player 1 was matched with player 3 while in the game with
    player 2, player 3 gives up and player 1 asks for a rematch with 3. *)
Definition listed_elsewhere : list event :=
  third_player_joins ++ [Surrender 3; RematchTap 1 (Some (1, 3))].

(** Player 3 gives up and waits for a new opponent, 1 and 3 agree on a
    rematch, player 2 gives up the game with 1, is matched with 3 and
    gives up again; then player 1 asks for another rematch with 3. *)
Definition stale_session : list event :=
  third_player_joins
  ++ [Surrender 3; Play 3 None;
      RematchTap 1 (Some (1, 3)); RematchTap 3 (Some (1, 3));
      Surrender 2; Play 2 None; Surrender 2;
      RematchTap 1 (Some (1, 3))].

(** Player 3 presses the rematch button. *)
Definition second_consent : event := RematchTap 3 (Some (1, 3)).

End Races.

(** ** Vocabulary of the further properties *)

(** A word of a normalized name: not empty, without white space and
    without "ё". *)
Definition plain_word (w : str) : Prop :=
  w ≠ [] ∧ Forall (fun c => Py.isspace c = false ∧ c ≠ yo) w.

Section Ledger.
Context {U : Unicode}.
Variable CITY_SET : gset str.

(** The session after the move [word] of [user_id] was accepted, with
    [clock] the new clock. *)
Definition after_move (g : game) (user_id : Z) (word : str) (clock : nat)
    : game :=
  Game (players g) (other_player (players g) user_id)
       (last_significant_letter word) ({[word]} ∪ used_cities g)
       (Some clock) (moves g + 1) (Some (user_id, word)).

(** The books of a session agree: the move count is the number of used
    cities, every used city is in the dictionary, and the last move, if
    there is one, is a used city that gave the last letter and passed the
    turn on. *)
Definition ledger_ok (g : game) : Prop :=
  moves g = Z.of_nat (size (used_cities g))
  ∧ used_cities g ⊆ CITY_SET
  ∧ match last_move g with
    | None => used_cities g = ∅ ∧ last_letter g = None
    | Some (mover, city) =>
        city ∈ used_cities g
        ∧ last_letter g = last_significant_letter city
        ∧ turn g = other_player (players g) mover
    end.

End Ledger.

(** The numbers of a row are consistent: the current streak is not
    negative, the best streak is at least the current one, and there are
    at least as many wins as the best streak. *)
Definition row_ok (r : row) : Prop :=
  0 <= current_streak r ∧ current_streak r <= max_streak r
  ∧ max_streak r <= wins r.

Definition db_ok (db : gmap Z row) : Prop :=
  ∀ user_id r, db !! user_id = Some r -> row_ok r.

(** The messages of [st'] are those of [st] followed by messages that
    all satisfy [P]. *)
Definition grows (P : Z * msg -> Prop) (st st' : state) : Prop :=
  ∃ l, outbox st' = outbox st ++ l ∧ Forall P l.



(** The user has a row in the statistics. *)
Definition known (db : gmap Z row) (user_id : Z) : Prop :=
  is_Some (db !! user_id).

Definition button_known (db : gmap Z row) (um : Z * msg) : Prop :=
  match um.2 with
  | RematchButton p1 p2 => known db p1 ∧ known db p2
  | _ => True
  end.

(** Whoever plays, waits or is named on a rematch button has a row. *)
Definition registered_inv (st : state) : Prop :=
  (∀ gid g, games st !! gid = Some g ->
     known (db st) (players g).1 ∧ known (db st) (players g).2)
  ∧ (∀ u, waiting_player st = Some u -> known (db st) u)
  ∧ Forall (button_known (db st)) (outbox st).

(** ** A sample table *)

Module Table.

(** Three players; 7 and 8 tie at three wins behind 9. *)
Definition league : gmap Z row :=
  <[9 := Row (Py.utf8 "c") [] 5 0 4]>
    (<[8 := Row (Py.utf8 "b") [] 3 0 1]>
       (<[7 := Row (Py.utf8 "a") [] 3 2 2]> ∅)).

End Table.

(** * Properties *)

Ltac fields :=
  unfold set_turn_clock, send, set_games, set_player_game,
    set_waiting_player, set_rematch_offers, set_db, set_tasks, create_task;
  cbn [games player_game waiting_player rematch_offers db tasks next_task
       outbox fst snd].

(** ** The dictionary normalizer *)

Section NormalizerFacts.
Context {U : Unicode}.

Lemma elem_of_rev (x : N) (l : str) : x ∈ rev l <-> x ∈ l.
Proof. rewrite !list_elem_of_In. symmetry. apply in_rev. Qed.



Lemma replace1_yo_ne c : Py.replace1 yo ie c ≠ yo.
Proof.
  unfold Py.replace1. destruct (N.eqb_spec c yo) as [->|Hne]; [|exact Hne].
  discriminate.
Qed.

Lemma replace1_other c : c ≠ yo -> Py.replace1 yo ie c = c.
Proof.
  intros Hne. unfold Py.replace1.
  destruct (N.eqb_spec c yo); [contradiction|reflexivity].
Qed.


Lemma normalize_city_no_yo (s : str) : yo ∉ normalize_city s.
Proof.
  destruct s as [|c s]; simpl.
  - apply not_elem_of_nil.
  - unfold Py.replace. intros (x & Hx & _)%list_elem_of_fmap.
    symmetry in Hx. exact (replace1_yo_ne _ Hx).
Qed.

Lemma scan_letters_Some (l : str) c :
  scan_letters l = Some c ->
  ∃ ch, ch ∈ l ∧ py_isalpha ch = true ∧ c = Py.replace1 yo ie ch
        ∧ c ∉ SKIP_LAST.
Proof.
  induction l as [|x l IH]; simpl; [discriminate|].
  destruct (py_isalpha x) eqn:Ha.
  - case_bool_decide as Hs.
    + intros (ch & ? & ?)%IH. exists ch. split; [by right|done].
    + intros [= <-]. exists x. split; [by left|done].
  - intros (ch & ? & ?)%IH. exists ch. split; [by right|done].
Qed.



Lemma last_significant_letter_scan (word : str) :
  last_significant_letter word = scan_letters (rev (normalize_city word)).
Proof.
  unfold last_significant_letter. by destruct (normalize_city word).
Qed.


(** C10.  The result of [last_significant_letter] is [None] or one
    alphabetic character that is not in the skip set and is not "ё". *)
Theorem last_significant_letter_eligible (word : str) :
  match last_significant_letter word with
  | None => True
  | Some ch => py_isalpha ch = true ∧ (ch ∉ SKIP_LAST) ∧ ch ≠ yo
  end.
Proof.
  destruct (last_significant_letter word) as [c|] eqn:E; [|done].
  rewrite last_significant_letter_scan in E.
  apply scan_letters_Some in E as (ch & Hin & Ha & -> & Hs).
  apply (proj1 (elem_of_rev _ _)) in Hin.
  assert (ch ≠ yo) as Hne.
  { intros ->. exact (normalize_city_no_yo word Hin). }
  rewrite replace1_other in * by done. done.
Qed.

End NormalizerFacts.

(** ** The statistics table *)

Section DatabaseFacts.
Implicit Types (db : gmap Z row) (user_id : Z).

Lemma insert_or_ignore_lookup db user_id name :
  DB.insert_or_ignore user_id name db !! user_id
  = Some (default (Row name [] 0 0 0) (db !! user_id)).
Proof.
  unfold DB.insert_or_ignore.
  destruct (db !! user_id) as [r|] eqn:E; simpl.
  - exact E.
  - apply lookup_insert_eq.
Qed.

Lemma insert_or_ignore_other db user_id name other :
  other ≠ user_id ->
  DB.insert_or_ignore user_id name db !! other = db !! other.
Proof.
  intros Hne. unfold DB.insert_or_ignore.
  destruct (db !! user_id); [done|]. by rewrite lookup_insert_ne.
Qed.

Lemma record_win_lookup db user_id :
  DB.record_win user_id db !! user_id
  = Some (DB.raise_max (DB.bump (row_of db user_id))).
Proof.
  unfold DB.record_win, row_of.
  by rewrite !lookup_alter_eq, insert_or_ignore_lookup.
Qed.

Lemma reset_streak_lookup db user_id :
  DB.reset_streak user_id db !! user_id
  = Some (DB.zero_streak (row_of db user_id)).
Proof.
  unfold DB.reset_streak, row_of.
  by rewrite lookup_alter_eq, insert_or_ignore_lookup.
Qed.

(** C9.  [record_win] adds one to the wins and to the current streak of
    the player's row and makes the best streak equal to the new current
    streak exactly when that exceeds the previous best; [reset_streak]
    zeroes the current streak and keeps wins and best streak.  Rows of
    other players are not touched. *)
Theorem record_win_reset_streak_spec db user_id :
  let old := row_of db user_id in
  (∃ r, DB.record_win user_id db !! user_id = Some r
        ∧ wins r = wins old + 1
        ∧ current_streak r = current_streak old + 1
        ∧ (current_streak r > max_streak old ->
           max_streak r = current_streak r)
        ∧ (current_streak r <= max_streak old ->
           max_streak r = max_streak old))
  ∧ (∃ r, DB.reset_streak user_id db !! user_id = Some r
          ∧ current_streak r = 0
          ∧ wins r = wins old
          ∧ max_streak r = max_streak old)
  ∧ (∀ other, other ≠ user_id ->
       DB.record_win user_id db !! other = db !! other
       ∧ DB.reset_streak user_id db !! other = db !! other).
Proof.
  intros old. split; [|split].
  - eexists. split; [apply record_win_lookup|]. fold old.
    unfold DB.raise_max, DB.bump. simpl.
    destruct (Z.gtb_spec (current_streak old + 1) (max_streak old));
      simpl; repeat split; lia.
  - eexists. split; [apply reset_streak_lookup|]. done.
  - intros other Hne. unfold DB.record_win, DB.reset_streak.
    rewrite !lookup_alter_ne by done.
    by rewrite insert_or_ignore_other.
Qed.

End DatabaseFacts.

(** ** The move handler *)

Section MoveFacts.
Context {U : Unicode}.
Variable CITY_SET : gset str.

Lemma cancel_and_await_eq t st :
  cancel_and_await t st
  = set_tasks (fun ts => match t with
                         | Some old => delete old ts
                         | None => ts
                         end) st.
Proof.
  destruct t as [old|]; [|by destruct st]. unfold cancel_and_await, task_done.
  destruct (tasks st !! old) eqn:E; [done|].
  destruct st; unfold set_tasks; simpl in *. f_equal.
  symmetry. by apply delete_id.
Qed.

Lemma handle_move_cases st user_id text gid g :
  player_game st !! user_id = Some gid ->
  games st !! gid = Some g ->
  let word := normalize_city (Py.strip (default [] text)) in
  let st' := handle_move CITY_SET user_id text st in
  match submitMove_checks CITY_SET g user_id word with
  | Some rejection => st' = send user_id rejection st
  | None =>
      let opponent := other_player (players g) user_id in
      let nxt := last_significant_letter word in
      games st'
      = <[gid := Game (players g) opponent nxt
                      ({[word]} ∪ used_cities g) (Some (next_task st))
                      (moves g + 1) (Some (user_id, word))]> (games st)
      ∧ tasks st'
        = <[next_task st := (gid, opponent)]> (without_clock g (tasks st))
      ∧ next_task st' = S (next_task st)
      ∧ outbox st'
        = outbox st ++ [(user_id, Accepted word);
                        (opponent, OpponentMoved user_id word nxt)]
      ∧ player_game st' = player_game st
      ∧ waiting_player st' = waiting_player st
      ∧ rematch_offers st' = rematch_offers st
      ∧ db st' = db st
  end.
Proof.
  intros Hpg Hg word st'. subst st'. unfold handle_move, submitMove_checks.
  rewrite Hpg, Hg. fold word.
  destruct (decide (user_id ≠ turn g)) as [Hne|Heq].
  { rewrite (decide_True (P := turn g ≠ user_id)) by (intros ?; by apply Hne).
    done. }
  rewrite (decide_False (P := turn g ≠ user_id))
    by (intros Hne; apply Heq; intros ?; by apply Hne).
  destruct word as [|first rest] eqn:Ew; [done|].
  destruct (decide (first :: rest = [])); [done|].
  destruct (decide (first :: rest ∉ CITY_SET)); [done|].
  destruct (decide (first :: rest ∈ used_cities g)); [done|].
  assert (let st' := accept_move gid g user_id (first :: rest) st in
          let opponent := other_player (players g) user_id in
          let nxt := last_significant_letter (first :: rest) in
          games st'
          = <[gid := Game (players g) opponent nxt
                      ({[first :: rest]} ∪ used_cities g)
                      (Some (next_task st))
                      (moves g + 1) (Some (user_id, first :: rest))]>
              (games st)
          ∧ tasks st'
            = <[next_task st := (gid, opponent)]> (without_clock g (tasks st))
          ∧ next_task st' = S (next_task st)
          ∧ outbox st'
            = outbox st ++ [(user_id, Accepted (first :: rest));
                            (opponent,
                             OpponentMoved user_id (first :: rest) nxt)]
          ∧ player_game st' = player_game st
          ∧ waiting_player st' = waiting_player st
          ∧ rematch_offers st' = rematch_offers st
          ∧ db st' = db st) as Hacc.
  { unfold accept_move. rewrite cancel_and_await_eq. simpl.
    rewrite <- app_assoc. done. }
  destruct (last_letter g) as [needed|]; [|exact Hacc].
  simpl. destruct (decide (first ≠ needed)) as [Hf|Hf].
  - rewrite (decide_True (P := Some first ≠ Some needed))
      by (intros [= ?]; by apply Hf).
    done.
  - rewrite (decide_False (P := Some first ≠ Some needed))
      by (intros Hs; apply Hf; intros ->; by apply Hs).
    exact Hacc.
Qed.


Lemma submitMove_checks_kinds g user_id word rejection :
  submitMove_checks CITY_SET g user_id word = Some rejection ->
  rejection = NotYourTurn ∨ rejection = InvalidWord
  ∨ rejection = UnknownCity ∨ rejection = AlreadyUsed
  ∨ ∃ needed, last_letter g = Some needed ∧ rejection = WrongLetter needed.
Proof.
  unfold submitMove_checks. intros H.
  repeat case_decide; try (injection H as <-; tauto).
  destruct (last_letter g) as [needed|]; [|discriminate].
  case_decide; [|discriminate].
  injection H as <-. do 4 right. by exists needed.
Qed.

(** C4.  A move that fails one of the five checks leaves the session as
    it was: the session record (turn, used words, last letter, last
    move, move count, clock handle) and the table of pending clocks are
    the same, as is every other part of the state, and the only output
    is the rejection sent to the submitting player. *)
Theorem rejected_move_changes_nothing st user_id text gid g rejection :
  player_game st !! user_id = Some gid ->
  games st !! gid = Some g ->
  submitMove_checks CITY_SET g user_id
    (normalize_city (Py.strip (default [] text))) = Some rejection ->
  let st' := handle_move CITY_SET user_id text st in
  games st' !! gid = Some g
  ∧ games st' = games st
  ∧ tasks st' = tasks st
  ∧ next_task st' = next_task st
  ∧ player_game st' = player_game st
  ∧ waiting_player st' = waiting_player st
  ∧ rematch_offers st' = rematch_offers st
  ∧ db st' = db st
  ∧ outbox st' = outbox st ++ [(user_id, rejection)]
  ∧ (rejection = NotYourTurn ∨ rejection = InvalidWord
     ∨ rejection = UnknownCity ∨ rejection = AlreadyUsed
     ∨ ∃ needed, last_letter g = Some needed
                 ∧ rejection = WrongLetter needed).
Proof.
  intros Hpg Hg Hchk st'. subst st'.
  pose proof (handle_move_cases st user_id text gid g Hpg Hg) as H.
  cbv zeta in H. rewrite Hchk in H. rewrite H.
  repeat split; try done.
  by eapply submitMove_checks_kinds.
Qed.

End MoveFacts.

(** ** Turn clocks *)

Section ClockFacts.
Context {U : Unicode}.
Variable CITY_SET : gset str.

Lemma tasks_evolve_refl st : tasks_evolve st st.
Proof. split; [lia|]. intros t x H. by left. Qed.

Lemma tasks_evolve_trans st1 st2 st3 :
  tasks_evolve st1 st2 -> tasks_evolve st2 st3 -> tasks_evolve st1 st3.
Proof.
  intros [Hn1 H1] [Hn2 H2]. split; [lia|].
  intros t x H3. destruct (H2 t x H3) as [H|H]; [|right; lia].
  destruct (H1 t x H) as [H'|H']; [by left|right; lia].
Qed.

Lemma tasks_evolve_same st st' :
  tasks st' = tasks st -> next_task st' = next_task st ->
  tasks_evolve st st'.
Proof.
  intros Ht Hn. split; [lia|]. intros t x H. left. by rewrite <- Ht.
Qed.

Lemma tasks_evolve_fresh st st' :
  tasks_evolve st st' -> tasks_fresh st -> tasks_fresh st'.
Proof.
  intros [Hn He] Hf t x H. destruct (He t x H) as [H'|H']; [|lia].
  apply Hf in H'. lia.
Qed.

Lemma tasks_evolve_spent st st' t :
  tasks_evolve st st' -> spent t st -> spent t st'.
Proof.
  intros [Hn He] [Hd Hlt]. split; [|lia].
  destruct (tasks st' !! t) as [x|] eqn:E; [|done].
  destruct (He t x E) as [H'|H']; [congruence|lia].
Qed.

Lemma tasks_evolve_cancel t st : tasks_evolve st (cancel_and_await t st).
Proof.
  rewrite cancel_and_await_eq. split; [simpl; lia|]. simpl.
  intros t' x H. left. destruct t as [old|]; [|done].
  by apply lookup_delete_Some in H as [_ H].
Qed.

Lemma tasks_evolve_create gid u st :
  tasks_evolve st (create_task gid u st).2.
Proof.
  split; [simpl; lia|]. simpl. intros t x H.
  apply lookup_insert_Some in H as [[<- _]|[_ H]]; [right; lia|by left].
Qed.

Lemma tasks_evolve_delete t st : tasks_evolve st (set_tasks (delete t) st).
Proof.
  split; [simpl; lia|]. simpl. intros t' x H. left.
  by apply lookup_delete_Some in H as [_ H].
Qed.

Lemma start_turn_tasks gid g st :
  games st !! gid = Some g ->
  tasks (start_turn gid st)
  = <[next_task st := (gid, turn g)]> (without_clock g (tasks st))
  ∧ next_task (start_turn gid st) = S (next_task st).
Proof.
  intros Hg. unfold start_turn. rewrite Hg, cancel_and_await_eq.
  unfold without_clock. by destruct (last_move g) as [[??]|].
Qed.

Lemma tasks_evolve_start_turn gid st : tasks_evolve st (start_turn gid st).
Proof.
  destruct (games st !! gid) as [g|] eqn:Hg.
  - destruct (start_turn_tasks gid g st Hg) as [Ht Hn].
    split; [lia|]. rewrite Ht, Hn. intros t x H.
    apply lookup_insert_Some in H as [[<- _]|[_ H]]; [right; lia|left].
    unfold without_clock in H. destruct (timer_task g); [|done].
    by apply lookup_delete_Some in H as [_ H].
  - unfold start_turn. rewrite Hg. apply tasks_evolve_refl.
Qed.

Lemma tasks_evolve_create_game p1 p2 first st :
  tasks_evolve st (create_game_between p1 p2 first st).
Proof.
  unfold create_game_between.
  destruct (games st !! make_game_id p1 p2); [apply tasks_evolve_refl|].
  eapply tasks_evolve_trans; [|apply tasks_evolve_start_turn].
  by apply tasks_evolve_same.
Qed.

Lemma tasks_evolve_end_game gid winner why st :
  tasks_evolve st (end_game gid winner why st).
Proof.
  unfold end_game. destruct (games st !! gid) as [g|];
    [|apply tasks_evolve_refl].
  destruct (players g) as [p1 p2].
  eapply tasks_evolve_trans; [apply (tasks_evolve_cancel (timer_task g))|].
  apply tasks_evolve_same; by destruct winner.
Qed.

Lemma tasks_evolve_turn_timeout task st :
  tasks_evolve st (turn_timeout task st).
Proof.
  unfold turn_timeout.
  destruct (tasks st !! task) as [[gid u]|]; [|apply tasks_evolve_refl].
  eapply tasks_evolve_trans; [|apply tasks_evolve_delete].
  destruct (games st !! gid) as [g|]; [|apply tasks_evolve_refl].
  case_decide; [apply tasks_evolve_end_game|apply tasks_evolve_refl].
Qed.

Lemma foldl_send_fields (m : msg) (l : list Z) st :
  let st' := foldl (fun st other => send other m st) st l in
  games st' = games st ∧ player_game st' = player_game st
  ∧ waiting_player st' = waiting_player st
  ∧ rematch_offers st' = rematch_offers st ∧ db st' = db st
  ∧ tasks st' = tasks st ∧ next_task st' = next_task st
  ∧ outbox st' = outbox st ++ map (fun other => (other, m)) l.
Proof.
  revert st. induction l as [|x l IH]; intros st; simpl.
  - by rewrite app_nil_r.
  - destruct (IH (send x m st)) as (-> & -> & -> & -> & -> & -> & -> & ->).
    simpl. by rewrite <- app_assoc.
Qed.

Lemma tasks_evolve_handle_move u text st :
  tasks_evolve st (handle_move CITY_SET u text st).
Proof.
  unfold handle_move.
  repeat (first [apply tasks_evolve_refl | by apply tasks_evolve_same
                | case_match | case_decide ]).
  all: unfold accept_move;
    (eapply tasks_evolve_trans; [apply (tasks_evolve_cancel (timer_task g))|]);
    split; [simpl; lia|]; simpl; intros t x Hx;
    apply lookup_insert_Some in Hx as [[<- _]|[_ Hx]];
    [right; lia|by left].
Qed.

Lemma tasks_evolve_callback_rematch u data st :
  tasks_evolve st (callback_rematch u data st).
Proof.
  unfold callback_rematch.
  destruct data as [[p1 p2]|]; [|by apply tasks_evolve_same].
  repeat case_decide; try by apply tasks_evolve_same.
  case_match; [by apply tasks_evolve_same|].
  eapply tasks_evolve_trans; [|apply tasks_evolve_create_game].
  by apply tasks_evolve_same.
Qed.

Lemma tasks_evolve_handle ev st : tasks_evolve st (handle CITY_SET ev st).
Proof.
  destruct ev; simpl.
  - by apply tasks_evolve_same.
  - unfold cmd_play. repeat case_match; try by apply tasks_evolve_same.
    eapply tasks_evolve_trans; [|apply tasks_evolve_create_game].
    by apply tasks_evolve_same.
  - unfold cmd_leave. case_decide; by apply tasks_evolve_same.
  - unfold cmd_surrender. repeat case_match; try by apply tasks_evolve_same.
    apply tasks_evolve_end_game.
  - unfold cmd_country. case_match; by apply tasks_evolve_same.
  - unfold cmd_cancel_rematch. case_match; [by apply tasks_evolve_same|].
    match goal with |- tasks_evolve _ (foldl _ ?s ?l) =>
      destruct (foldl_send_fields OpponentCancelledOffer l s)
        as (_ & _ & _ & _ & _ & Ht & Hn & _) end.
    apply tasks_evolve_same; [by rewrite Ht|by rewrite Hn].
  - apply tasks_evolve_handle_move.
  - apply tasks_evolve_callback_rematch.
  - apply tasks_evolve_turn_timeout.
Qed.

Lemma reachable_tasks_fresh st : reachable CITY_SET st -> tasks_fresh st.
Proof.
  induction 1 as [|st ev _ IH _].
  - intros t x H. change (tasks init) with (∅ : gmap nat (Z * Z * Z)) in H.
    by rewrite lookup_empty in H.
  - eapply tasks_evolve_fresh; [apply tasks_evolve_handle|done].
Qed.

(** What [end_game] does to a registered session when a winner is
    given. *)
Lemma end_game_winner gid g winner why st :
  games st !! gid = Some g ->
  let p1 := (players g).1 in
  let p2 := (players g).2 in
  let loser := if decide (winner = p2) then p1 else p2 in
  end_game gid (Some winner) why st
  = State (delete gid (games st))
          (delete p2 (delete p1 (player_game st)))
          (waiting_player st) (rematch_offers st)
          (DB.reset_streak loser (DB.record_win winner (db st)))
          (without_clock g (tasks st)) (next_task st)
          (outbox st ++ [(winner, YouWon loser why);
                         (loser, YouLost winner why);
                         (p1, RematchButton p1 p2);
                         (p2, RematchButton p1 p2)]).
Proof.
  intros Hg. unfold end_game. rewrite Hg, cancel_and_await_eq.
  destruct (players g) as [p1 p2].
  unfold without_clock.
  lazy beta iota zeta delta
    [offer_rematch_to_players send set_games set_player_game set_db
     set_tasks games player_game waiting_player rematch_offers db tasks
     next_task outbox fst snd].
  by rewrite <- !app_assoc.
Qed.

(** The clock's mover loses when the clock forfeits: the loser computed
    by [end_game] for the winner [turn_timeout] names is the mover. *)
Lemma forfeit_loser (ps : Z * Z) mover :
  ps.1 ≠ ps.2 -> mover = ps.1 ∨ mover = ps.2 ->
  (if decide (other_player ps mover = ps.2) then ps.1 else ps.2) = mover.
Proof.
  intros Hne Hin. unfold other_player.
  destruct (decide (ps.2 = mover)) as [He|He].
  - rewrite decide_False by done. done.
  - rewrite decide_True by done. by destruct Hin.
Qed.

End ClockFacts.

(** ** Sessions *)

Section SessionFacts.
Context {U : Unicode}.
Variable CITY_SET : gset str.

(** What [start_turn] does to a registered session. *)
Lemma start_turn_eq gid g st :
  games st !! gid = Some g ->
  start_turn gid st
  = State (<[gid := set_timer_task (Some (next_task st)) g]> (games st))
          (player_game st) (waiting_player st) (rematch_offers st) (db st)
          (<[next_task st := (gid, turn g)]> (without_clock g (tasks st)))
          (S (next_task st))
          (outbox st
           ++ [(turn g, YourTurn (last_letter g));
               (other_player (players g) (turn g),
                match last_move g with
                | Some (mover_id, city) => OpponentNamed mover_id city (turn g)
                | None => AwaitingOpponent (turn g)
                end)]).
Proof.
  intros Hg. unfold start_turn. rewrite Hg, cancel_and_await_eq.
  unfold without_clock.
  destruct (last_move g) as [[mover_id city]|]; fields;
    rewrite <- app_assoc, (alter_alt_Some _ _ _ _ Hg); reflexivity.
Qed.

(** What [create_game_between] does when the pair has no registered
    session. *)
Lemma create_game_between_eq p1 p2 first st :
  games st !! make_game_id p1 p2 = None ->
  let gid := make_game_id p1 p2 in
  let first_player := default p1 first in
  create_game_between p1 p2 first st
  = State (<[gid := Game (p1, p2) first_player None ∅
                         (Some (next_task st)) 0 None]> (games st))
          (<[p2 := gid]> (<[p1 := gid]> (player_game st)))
          (waiting_player st) (rematch_offers st) (db st)
          (<[next_task st := (gid, first_player)]> (tasks st))
          (S (next_task st))
          (outbox st
           ++ [(p1, GameStarted (bool_decide (first_player = p1)));
               (p2, GameStartedWait p1);
               (first_player, YourTurn None);
               (other_player (p1, p2) first_player,
                AwaitingOpponent first_player)]).
Proof.
  intros Hnone. cbv zeta. unfold create_game_between. rewrite Hnone.
  erewrite start_turn_eq; [|fields; apply lookup_insert_eq].
  fields. unfold set_timer_task, without_clock. cbn.
  by rewrite insert_insert_eq, <- !app_assoc.
Qed.

Lemma create_game_between_registered p1 p2 first st :
  is_Some (games st !! make_game_id p1 p2) ->
  create_game_between p1 p2 first st = st.
Proof. intros [g Hg]. unfold create_game_between. by rewrite Hg. Qed.

Lemma buttons_ok_app l l' :
  buttons_ok l -> buttons_ok l' -> buttons_ok (l ++ l').
Proof.
  intros H H' u p1 p2 [Hin|Hin]%elem_of_app; [by eapply H|by eapply H'].
Qed.

Lemma buttons_ok_nil : buttons_ok [].
Proof. intros u p1 p2 Hin. by apply elem_of_nil in Hin. Qed.

Lemma buttons_ok_plain u m l :
  is_button m = false -> buttons_ok l -> buttons_ok ((u, m) :: l).
Proof.
  intros Hm Hl v p1 p2 [Heq|Hin]%elem_of_cons; [|by eapply Hl].
  injection Heq as _ <-. discriminate.
Qed.

Lemma buttons_ok_button u a b l :
  a ≠ b -> buttons_ok l -> buttons_ok ((u, RematchButton a b) :: l).
Proof.
  intros Hne Hl v p1 p2 [Heq|Hin]%elem_of_cons; [|by eapply Hl].
  by injection Heq as _ <- <-.
Qed.

Lemma buttons_ok_map m (l : list Z) :
  is_button m = false -> buttons_ok (map (fun other => (other, m)) l).
Proof.
  intros Hm. induction l as [|x l IH]; simpl;
    [apply buttons_ok_nil|by apply buttons_ok_plain].
Qed.

Create HintDb sessions.

Hint Resolve buttons_ok_app buttons_ok_nil buttons_ok_plain
  buttons_ok_button buttons_ok_map : sessions.

(** The state changed only in parts that hold no session and no
    button. *)
Lemma sessions_wf_same st st' :
  games st' = games st ->
  (∃ l, outbox st' = outbox st ++ l ∧ buttons_ok l) ->
  sessions_wf st -> sessions_wf st'.
Proof.
  intros Hg (l & Ho & Hl) [Hs Hb]. split.
  - by rewrite Hg.
  - rewrite Ho. by apply buttons_ok_app.
Qed.

Lemma sessions_wf_create_game p1 p2 st :
  p1 ≠ p2 -> sessions_wf st ->
  sessions_wf (create_game_between p1 p2 (Some p1) st).
Proof.
  intros Hne [Hs Hb].
  destruct (games st !! make_game_id p1 p2) as [g|] eqn:Hg.
  - by rewrite create_game_between_registered.
  - rewrite create_game_between_eq by done. split; fields.
    + intros gid g [[_ <-]|[_ H]]%lookup_insert_Some; [|by eapply Hs].
      split; [done|by left].
    + apply buttons_ok_app; [done|]. cbn. auto 10 with sessions.
Qed.

Lemma sessions_wf_end_game gid winner why st :
  sessions_wf st -> sessions_wf (end_game gid (Some winner) why st).
Proof.
  intros [Hs Hb]. destruct (games st !! gid) as [g|] eqn:Hg.
  - rewrite (end_game_winner gid g) by done.
    destruct (Hs _ _ Hg) as [Hne _]. split; fields.
    + intros gid' g' [_ H]%lookup_delete_Some. by eapply Hs.
    + apply buttons_ok_app; [done|]. auto 10 with sessions.
  - unfold end_game. by rewrite Hg.
Qed.

Lemma sessions_wf_turn_timeout task st :
  sessions_wf st -> sessions_wf (turn_timeout task st).
Proof.
  intros Hwf. unfold turn_timeout.
  destruct (tasks st !! task) as [[gid u]|]; [|done].
  set (st1 := match games st !! gid with Some _ => _ | None => _ end).
  assert (sessions_wf st1) as [Hs Hb]; [|by split].
  subst st1. destruct (games st !! gid) as [g|]; [|done].
  case_decide; [by apply sessions_wf_end_game|done].
Qed.

Lemma accepted_turn g user_id word :
  submitMove_checks CITY_SET g user_id word = None -> turn g = user_id.
Proof.
  unfold submitMove_checks.
  destruct (decide (user_id ≠ turn g)) as [Hne|Hne]; [discriminate|].
  intros _. destruct (decide (turn g = user_id)); [done|].
  exfalso. apply Hne. congruence.
Qed.

Lemma other_player_flips (ps : Z * Z) user_id :
  ps.1 ≠ ps.2 -> user_id = ps.1 ∨ user_id = ps.2 ->
  other_player ps user_id ≠ user_id
  ∧ (other_player ps user_id = ps.1 ∨ other_player ps user_id = ps.2).
Proof.
  intros Hne Hin. unfold other_player.
  destruct (decide (ps.2 = user_id)) as [He|He].
  - split; [congruence|by left].
  - split; [congruence|by right].
Qed.

Lemma sessions_wf_handle_move user_id text st :
  sessions_wf st -> sessions_wf (handle_move CITY_SET user_id text st).
Proof.
  intros Hwf.
  destruct (player_game st !! user_id) as [gid|] eqn:Hpg;
    [|unfold handle_move; by rewrite Hpg].
  destruct (games st !! gid) as [g|] eqn:Hg;
    [|unfold handle_move; by rewrite Hpg, Hg].
  pose proof (handle_move_cases CITY_SET st user_id text gid g Hpg Hg) as H.
  cbv zeta in H.
  destruct (submitMove_checks CITY_SET g user_id _) as [rejection|] eqn:Hchk.
  - rewrite H. apply (sessions_wf_same st); [done| |done].
    eexists. split; [done|]. apply buttons_ok_plain, buttons_ok_nil.
    apply submitMove_checks_kinds in Hchk
      as [->|[->|[->|[->|(needed & _ & ->)]]]]; done.
  - destruct H as (Hgames & _ & _ & Hout & _). destruct Hwf as [Hs Hb].
    split.
    + rewrite Hgames.
      intros gid' g' [[_ <-]|[_ H]]%lookup_insert_Some; [|by eapply Hs].
      destruct (Hs _ _ Hg) as [Hne Hturn].
      apply accepted_turn in Hchk. subst user_id.
      split; [done|]. cbn. by apply other_player_flips.
    + rewrite Hout. auto 10 with sessions.
Qed.

Lemma sessions_wf_callback_rematch user_id data st :
  enabled st (RematchTap user_id data) ->
  sessions_wf st -> sessions_wf (callback_rematch user_id data st).
Proof.
  intros Hen Hwf. unfold callback_rematch.
  destruct data as [[p1 p2]|].
  - assert (p1 ≠ p2) as Hne by (destruct Hwf as [_ Hb]; by eapply Hb).
    assert (∀ st1, games st1 = games st ->
                   (∃ l, outbox st1 = outbox st ++ l ∧ buttons_ok l) ->
                   sessions_wf st1) as Hsame
        by (intros; by eapply sessions_wf_same).
    repeat case_decide; try case_match;
      try (apply sessions_wf_create_game; [done|]);
      apply Hsame; try done; fields; eexists;
      (split; [by rewrite <- ?app_assoc|]); cbn; auto 10 with sessions.
  - apply (sessions_wf_same st); [done| |done].
    eexists. split; [done|]. auto with sessions.
Qed.

Lemma sessions_wf_handle ev st :
  enabled st ev -> sessions_wf st -> sessions_wf (handle CITY_SET ev st).
Proof.
  intros Hen Hwf.
  assert (∀ st1, games st1 = games st ->
                 (∃ l, outbox st1 = outbox st ++ l ∧ buttons_ok l) ->
                 sessions_wf st1) as Hsame
      by (intros; by eapply sessions_wf_same).
  destruct ev; cbn [handle].
  - apply Hsame; [done|]. eexists. split; [done|]. auto with sessions.
  - unfold cmd_play. case_match.
    { apply Hsame; [done|]. eexists. split; [done|]. auto with sessions. }
    destruct (waiting_player _) as [w|] eqn:Hw.
    + case_decide.
      * apply Hsame; [done|]. eexists. split; [done|]. auto with sessions.
      * apply sessions_wf_create_game; [done|].
        apply Hsame; [done|]. exists []. split; [by rewrite app_nil_r|].
        auto with sessions.
    + apply Hsame; [done|]. eexists. split; [done|]. auto with sessions.
  - unfold cmd_leave. case_decide;
      (apply Hsame; [done|]; eexists; split; [done|]; auto with sessions).
  - unfold cmd_surrender. repeat case_match;
      try (apply Hsame; [done|]; eexists; split; [done|];
           auto with sessions).
    by apply sessions_wf_end_game.
  - unfold cmd_country. case_match;
      (apply Hsame; [done|]; eexists; split; [done|]; auto with sessions).
  - unfold cmd_cancel_rematch. case_match.
    + apply Hsame; [done|]. eexists. split; [done|]. auto with sessions.
    + match goal with |- sessions_wf (foldl _ ?s ?l) =>
        destruct (foldl_send_fields OpponentCancelledOffer l s)
          as (Hg & _ & _ & _ & _ & _ & _ & Ho) end.
      apply Hsame; [by rewrite Hg|]. rewrite Ho. fields.
      eexists. split; [by rewrite <- app_assoc|].
      cbn. auto 10 with sessions.
  - by apply sessions_wf_handle_move.
  - by apply sessions_wf_callback_rematch.
  - by apply sessions_wf_turn_timeout.
Qed.

Lemma reachable_sessions_wf st : reachable CITY_SET st -> sessions_wf st.
Proof.
  induction 1 as [|st ev _ IH Hen].
  - split; [|apply buttons_ok_nil].
    intros gid g H. change (games init) with (∅ : gmap (Z * Z) game) in H.
    by rewrite lookup_empty in H.
  - by apply sessions_wf_handle.
Qed.

(** C8.  In every state the bot can reach, the turn of every registered
    session is exactly one of its two players; and a move that is
    accepted was made by the player whose turn it was and leaves the
    turn with the other player of the same session. *)
Theorem turn_is_a_player_and_flips :
  (∀ st gid g,
     reachable CITY_SET st -> games st !! gid = Some g ->
     (turn g = (players g).1 ∧ turn g ≠ (players g).2)
     ∨ (turn g = (players g).2 ∧ turn g ≠ (players g).1))
  ∧ (∀ st user_id text gid g,
       reachable CITY_SET st ->
       player_game st !! user_id = Some gid ->
       games st !! gid = Some g ->
       submitMove_checks CITY_SET g user_id
         (normalize_city (Py.strip (default [] text))) = None ->
       ∃ g', games (handle_move CITY_SET user_id text st) !! gid = Some g'
             ∧ players g' = players g
             ∧ turn g = user_id
             ∧ turn g' ≠ user_id
             ∧ (turn g' = (players g).1 ∨ turn g' = (players g).2)).
Proof.
  split.
  - intros st gid g Hr Hg.
    destruct (reachable_sessions_wf st Hr) as [Hs _].
    destruct (Hs _ _ Hg) as [Hne [Ht|Ht]]; [left|right];
      (split; [done|congruence]).
  - intros st user_id text gid g Hr Hpg Hg Hchk.
    destruct (reachable_sessions_wf st Hr) as [Hs _].
    destruct (Hs _ _ Hg) as [Hne Hturn].
    pose proof (handle_move_cases CITY_SET st user_id text gid g Hpg Hg) as H.
    cbv zeta in H. rewrite Hchk in H. destruct H as (Hgames & _).
    apply accepted_turn in Hchk. subst user_id.
    eexists. split; [rewrite Hgames; apply lookup_insert_eq|].
    cbn. split; [done|]. split; [done|]. by apply other_player_flips.
Qed.

End SessionFacts.

(** ** A move or a timeout, never both *)

Section ExclusionFacts.
Context {U : Unicode}.
Variable CITY_SET : gset str.

Lemma clock_inv_same st st' :
  games st' = games st -> tasks st' = tasks st ->
  next_task st' = next_task st -> clock_inv st -> clock_inv st'.
Proof.
  intros Hg Ht Hn (HA & HB & HF). unfold clock_inv, tasks_fresh.
  rewrite Hg, Ht, Hn. done.
Qed.

(** The session under [gid] is registered, or replaced, with a new clock;
    the clock the session had, if any, is gone. *)
Lemma clock_inv_new_clock gid g' st st' :
  clock_inv st ->
  games st' = <[gid := g']> (games st) ->
  timer_task g' = Some (next_task st) ->
  tasks st'
  = <[next_task st := (gid, turn g')]>
      (match games st !! gid with
       | Some g0 => without_clock g0 (tasks st)
       | None => tasks st
       end) ->
  next_task st' = S (next_task st) ->
  clock_inv st'.
Proof.
  intros (HA & HB & HF) Hg Htimer Ht Hn.
  set (ts := match games st !! gid with
             | Some g0 => without_clock g0 (tasks st)
             | None => tasks st
             end) in *.
  assert (∀ t x, ts !! t = Some x -> tasks st !! t = Some x) as Hsub.
  { intros t x. subst ts. destruct (games st !! gid) as [g0|]; [|done].
    unfold without_clock. destruct (timer_task g0); [|done].
    by intros [_ H]%lookup_delete_Some. }
  assert (∀ t gid' u, gid' ≠ gid -> tasks st !! t = Some (gid', u) ->
                      ts !! t = Some (gid', u)) as Hkeep.
  { intros t gid' u Hne Hl. subst ts.
    destruct (games st !! gid) as [g0|] eqn:Hg0; [|done].
    unfold without_clock. destruct (timer_task g0) as [t0|] eqn:Ht0; [|done].
    rewrite lookup_delete_ne; [done|]. intros <-.
    destruct (HA _ _ Hg0) as (t1 & Ht1 & Hl1). congruence. }
  split; [|split].
  - intros gid' g1. rewrite Hg, Ht.
    intros [[<- <-]|[Hne Hl]]%lookup_insert_Some.
    + exists (next_task st). split; [done|apply lookup_insert_eq].
    + destruct (HA _ _ Hl) as (t & Htm & Hlt). exists t. split; [done|].
      rewrite lookup_insert_ne by (apply HF in Hlt; lia).
      by apply Hkeep.
  - intros t gid' u. rewrite Hg, Ht.
    intros [[<- [= <- <-]]|[Hne Hl]]%lookup_insert_Some.
    + exists g'. split; [apply lookup_insert_eq|done].
    + pose proof (Hsub _ _ Hl) as Hl'.
      destruct (HB _ _ _ Hl') as (g1 & Hg1 & Htm).
      exists g1. split; [|done].
      rewrite lookup_insert_ne; [done|]. intros <-.
      subst ts. rewrite Hg1 in Hl. unfold without_clock in Hl.
      rewrite Htm in Hl. by rewrite lookup_delete_eq in Hl.
  - intros t x. rewrite Ht, Hn.
    intros [[<- _]|[_ Hl]]%lookup_insert_Some; [lia|].
    apply Hsub, HF in Hl. lia.
Qed.

Lemma clock_inv_create_game p1 p2 first st :
  clock_inv st -> clock_inv (create_game_between p1 p2 first st).
Proof.
  intros Hinv.
  destruct (games st !! make_game_id p1 p2) as [g|] eqn:Hg.
  - by rewrite create_game_between_registered.
  - rewrite create_game_between_eq by done.
    eapply (clock_inv_new_clock (make_game_id p1 p2)); [exact Hinv|..];
      cbn [games tasks next_task];
      [reflexivity|reflexivity|by rewrite Hg|reflexivity].
Qed.

Lemma clock_inv_end_game gid winner why st :
  clock_inv st -> clock_inv (end_game gid (Some winner) why st).
Proof.
  intros (HA & HB & HF). destruct (games st !! gid) as [g|] eqn:Hg.
  - rewrite (end_game_winner gid g) by done.
    destruct (HA _ _ Hg) as (t0 & Ht0 & Hl0).
    unfold clock_inv, tasks_fresh, without_clock.
    cbn [games tasks next_task]. rewrite Ht0. split; [|split].
    + intros gid' g' [Hne Hl]%lookup_delete_Some.
      destruct (HA _ _ Hl) as (t & Htm & Hlt). exists t. split; [done|].
      rewrite lookup_delete_ne; [done|]. intros <-. congruence.
    + intros t gid' u [Hne Hl]%lookup_delete_Some.
      destruct (HB _ _ _ Hl) as (g' & Hg' & Htm). exists g'. split; [|done].
      rewrite lookup_delete_ne; [done|]. intros <-. congruence.
    + intros t x [_ Hl]%lookup_delete_Some. by eapply HF.
  - unfold end_game. by rewrite Hg.
Qed.

Lemma clock_inv_turn_timeout task st :
  clock_inv st -> clock_inv (turn_timeout task st).
Proof.
  intros Hinv. unfold turn_timeout.
  destruct (tasks st !! task) as [[gid u]|] eqn:Htask; [|done].
  destruct Hinv as (HA & HB & HF).
  destruct (HB _ _ _ Htask) as (g & Hg & Htm).
  destruct (HA _ _ Hg) as (t & Htm' & Hl).
  assert (t = task) as -> by congruence.
  assert (turn g = u) as Hturn by congruence.
  rewrite Hg, decide_True by done.
  apply (clock_inv_same (end_game gid (Some (other_player (players g) u))
                                  TimedOut st)); try done.
  - rewrite (end_game_winner gid g) by done.
    unfold without_clock. cbn [tasks set_tasks]. rewrite Htm.
    apply delete_id, lookup_delete_eq.
  - by apply clock_inv_end_game.
Qed.

Lemma clock_inv_handle_move user_id text st :
  clock_inv st -> clock_inv (handle_move CITY_SET user_id text st).
Proof.
  intros Hinv.
  destruct (player_game st !! user_id) as [gid|] eqn:Hpg;
    [|unfold handle_move; by rewrite Hpg].
  destruct (games st !! gid) as [g|] eqn:Hg;
    [|unfold handle_move; by rewrite Hpg, Hg].
  pose proof (handle_move_cases CITY_SET st user_id text gid g Hpg Hg) as H.
  cbv zeta in H.
  destruct (submitMove_checks CITY_SET g user_id _) as [rejection|].
  - rewrite H. by apply (clock_inv_same st).
  - destruct H as (Hgames & Htasks & Hn & _).
    eapply (clock_inv_new_clock gid); [exact Hinv|exact Hgames|done| |done].
    by rewrite Hg.
Qed.

Lemma clock_inv_handle ev st :
  clock_inv st -> clock_inv (handle CITY_SET ev st).
Proof.
  intros Hinv.
  assert (∀ st1, games st1 = games st -> tasks st1 = tasks st ->
                 next_task st1 = next_task st -> clock_inv st1) as Hsame
      by (intros; by apply (clock_inv_same st)).
  destruct ev; cbn [handle].
  - by apply Hsame.
  - unfold cmd_play. case_match; [by apply Hsame|].
    case_match; [|by apply Hsame].
    case_decide; [by apply Hsame|].
    apply clock_inv_create_game. by apply Hsame.
  - unfold cmd_leave. case_decide; by apply Hsame.
  - unfold cmd_surrender. repeat case_match; try by apply Hsame.
    by apply clock_inv_end_game.
  - unfold cmd_country. case_match; by apply Hsame.
  - unfold cmd_cancel_rematch. case_match; [by apply Hsame|].
    match goal with |- clock_inv (foldl _ ?s ?l) =>
      destruct (foldl_send_fields OpponentCancelledOffer l s)
        as (Hg & _ & _ & _ & _ & Ht & Hn & _) end.
    apply Hsame; [by rewrite Hg|by rewrite Ht|by rewrite Hn].
  - by apply clock_inv_handle_move.
  - destruct data as [[p1 p2]|]; [|by apply Hsame].
    unfold callback_rematch.
    repeat case_decide; try by apply Hsame.
    case_match; [by apply Hsame|].
    apply clock_inv_create_game. by apply Hsame.
  - by apply clock_inv_turn_timeout.
Qed.

Lemma reachable_clock_inv st : reachable CITY_SET st -> clock_inv st.
Proof.
  induction 1 as [|st ev _ IH _].
  - split; [|split].
    + intros gid g H. change (games init) with (∅ : gmap (Z * Z) game) in H.
      by rewrite lookup_empty in H.
    + intros t gid u H. change (tasks init) with (∅ : gmap nat (Z * Z * Z)) in H.
      by rewrite lookup_empty in H.
    + intros t x H. change (tasks init) with (∅ : gmap nat (Z * Z * Z)) in H.
      by rewrite lookup_empty in H.
  - by apply clock_inv_handle.
Qed.

Lemma settles_pending t ev st : settles CITY_SET t ev st -> is_Some (tasks st !! t).
Proof.
  intros [(u & text & gid & g & _ & _ & _ & _ & H & _)
         |(_ & gid & mover & g & H & _)]; [done|by eexists].
Qed.

Lemma settles_spent t ev st :
  tasks_fresh st -> settles CITY_SET t ev st -> spent t (handle CITY_SET ev st).
Proof.
  intros Hf Hs. pose proof (settles_pending _ _ _ Hs) as [x Hx].
  pose proof (Hf _ _ Hx) as Hlt.
  destruct Hs as [(u & text & gid & g & -> & Hpg & Hg & Ht & _ & Hchk)
                 |(-> & gid & mover & g & Htm & Hg & Hturn)]; simpl.
  - pose proof (handle_move_cases CITY_SET st u text gid g Hpg Hg) as H.
    cbv zeta in H. rewrite Hchk in H. destruct H as (_ & Htasks & Hn & _).
    split; [|lia]. rewrite Htasks. unfold without_clock. rewrite Ht.
    rewrite lookup_insert_ne by lia. apply lookup_delete_eq.
  - unfold turn_timeout. rewrite Htm. split.
    + cbn [tasks set_tasks]. apply lookup_delete_eq.
    + cbn [next_task set_tasks]. rewrite Hg.
      rewrite decide_True by done.
      pose proof (tasks_evolve_end_game gid
                    (Some (other_player (players g) mover)) TimedOut st)
        as [Hn _]. lia.
Qed.

Lemma spent_forever t evs st :
  spent t st -> spent t (foldl (fun s ev => handle CITY_SET ev s) st evs).
Proof.
  revert st. induction evs as [|ev evs IH]; intros st Hs; simpl; [done|].
  apply IH. eapply tasks_evolve_spent; [apply tasks_evolve_handle|done].
Qed.

(** Handlers that nothing interrupts.  When the clock [task] of [mover]
    in session [gid] expires, [turn_timeout] does nothing but finish when
    the session is gone or the turn is no longer [mover]'s; when the
    session is there and it is still [mover]'s turn, it ends the game in
    favour of the opponent, which removes the session and, in a session of
    two players of whom [mover] is one, tells [mover] of the loss.  An
    accepted move against a pending clock cancels it, after which its
    expiry does nothing.  In every state that handlers running one after
    the other reach, each registered session has exactly the one pending
    clock its [timer_task] names, for the player to move, so every
    accepted move is a move against the pending clock of that turn; and
    once a pending clock has been settled, by an accepted move against it
    or by its forfeit, neither can take effect afterwards.  The exclusion
    does not survive tasks that interleave: see [RaceFacts]. *)
Theorem move_and_timeout_exclusive :
  (∀ st task gid mover,
     tasks st !! task = Some (gid, mover) ->
     (games st !! gid = None ->
      turn_timeout task st = set_tasks (delete task) st)
     ∧ (∀ g, games st !! gid = Some g -> turn g ≠ mover ->
          turn_timeout task st = set_tasks (delete task) st)
     ∧ (∀ g, games st !! gid = Some g -> turn g = mover ->
          let opponent := other_player (players g) mover in
          let st' := turn_timeout task st in
          st' = set_tasks (delete task)
                  (end_game gid (Some opponent) TimedOut st)
          ∧ games st' !! gid = None
          ∧ ((players g).1 ≠ (players g).2 ->
             mover = (players g).1 ∨ mover = (players g).2 ->
             (mover, YouLost opponent TimedOut) ∈ outbox st'
             ∧ (opponent, YouWon mover TimedOut) ∈ outbox st')))
  ∧ (∀ st t ev,
       tasks_fresh st -> move_accepted_on CITY_SET t ev st ->
       tasks (handle CITY_SET ev st) !! t = None
       ∧ turn_timeout t (handle CITY_SET ev st) = handle CITY_SET ev st)
  ∧ (∀ st, reachable CITY_SET st -> clock_inv st)
  ∧ (∀ st user_id text gid g,
       reachable CITY_SET st ->
       player_game st !! user_id = Some gid ->
       games st !! gid = Some g ->
       submitMove_checks CITY_SET g user_id
         (normalize_city (Py.strip (default [] text))) = None ->
       ∃ t, tasks st !! t = Some (gid, user_id)
            ∧ move_accepted_on CITY_SET t (Text user_id text) st)
  ∧ (∀ st t ev evs ev',
       reachable CITY_SET st -> settles CITY_SET t ev st ->
       ¬ settles CITY_SET t ev'
           (foldl (fun s e => handle CITY_SET e s)
                  (handle CITY_SET ev st) evs)).
Proof.
  split; [|split; [|split; [|split]]].
  - intros st task gid mover Htm. unfold turn_timeout. rewrite Htm.
    split; [|split].
    + by intros ->.
    + intros g -> Hne. by rewrite decide_False.
    + intros g Hg Hturn. rewrite Hg, decide_True by done.
      split; [done|]. rewrite (end_game_winner _ g) by done.
      cbn [games outbox set_tasks]. split; [apply lookup_delete_eq|].
      intros Hne Hin. rewrite forfeit_loser by done.
      split; apply elem_of_app; right.
      * right. by left.
      * by left.
  - intros st t ev Hf Hacc.
    destruct (settles_spent t ev st Hf (or_introl Hacc)) as [Hd _].
    split; [done|]. unfold turn_timeout. by rewrite Hd.
  - apply reachable_clock_inv.
  - intros st user_id text gid g Hr Hpg Hg Hchk.
    destruct (reachable_clock_inv st Hr) as (HA & _).
    destruct (HA _ _ Hg) as (t & Htm & Hl).
    assert (turn g = user_id) as Hturn.
    { revert Hchk. unfold submitMove_checks.
      destruct (decide (user_id ≠ turn g)) as [Hne|Hne]; [discriminate|].
      intros _. destruct (decide (turn g = user_id)); [done|].
      exfalso. apply Hne. congruence. }
    rewrite Hturn in Hl. exists t. split; [done|].
    exists user_id, text, gid, g. repeat split; try done.
  - intros st t ev evs ev' Hr Hs Hs'.
    apply settles_pending in Hs' as [x Hx].
    pose proof (settles_spent t ev st (reachable_tasks_fresh CITY_SET st Hr) Hs)
      as Hsp.
    apply (spent_forever t evs) in Hsp as [Hd _]. congruence.
Qed.

End ExclusionFacts.

(** ** The reverse index *)

Section IndexFacts.
Context {U : Unicode}.
Variable CITY_SET : gset str.

Lemma index_inv_same st st' :
  games st' = games st -> player_game st' = player_game st ->
  index_inv st -> index_inv st'.
Proof. intros Hg Hp [H1 H2]. unfold index_inv. by rewrite Hg, Hp. Qed.

Lemma index_inv_create_game p1 p2 first st :
  index_inv st -> index_inv (create_game_between p1 p2 first st).
Proof.
  intros [H1 H2].
  destruct (games st !! make_game_id p1 p2) as [g|] eqn:Hg.
  - by rewrite create_game_between_registered.
  - rewrite create_game_between_eq by done. split; cbn [games player_game].
    + intros gid g [[<- <-]|[_ Hl]]%lookup_insert_Some; [done|by apply H1].
    + intros u gid [[<- <-]|[_ Hl]]%lookup_insert_Some.
      { eexists. split; [apply lookup_insert_eq|]. by right. }
      apply lookup_insert_Some in Hl as [[<- <-]|[_ Hl]].
      { eexists. split; [apply lookup_insert_eq|]. by left. }
      destruct (H2 _ _ Hl) as (g & Hg' & Hin). exists g. split; [|done].
      rewrite lookup_insert_ne; [done|]. intros <-. congruence.
Qed.

Lemma index_inv_end_game gid winner why st :
  index_inv st -> index_inv (end_game gid (Some winner) why st).
Proof.
  intros [H1 H2]. destruct (games st !! gid) as [g|] eqn:Hg.
  - rewrite (end_game_winner gid g) by done. split; cbn [games player_game].
    + intros gid' g' [_ Hl]%lookup_delete_Some. by apply H1.
    + intros u gid' [Hu2 [Hu1 Hl]%lookup_delete_Some]%lookup_delete_Some.
      destruct (H2 _ _ Hl) as (g' & Hg' & Hin). exists g'. split; [|done].
      rewrite lookup_delete_ne; [done|]. intros <-.
      assert (g' = g) as -> by congruence. by destruct Hin.
  - unfold end_game. by rewrite Hg.
Qed.

Lemma index_inv_turn_timeout task st :
  index_inv st -> index_inv (turn_timeout task st).
Proof.
  intros Hinv. unfold turn_timeout.
  destruct (tasks st !! task) as [[gid u]|]; [|done].
  set (st1 := match games st !! gid with Some _ => _ | None => _ end).
  assert (index_inv st1) as Hinv1; [|by apply (index_inv_same st1)].
  subst st1. destruct (games st !! gid) as [g|]; [|done].
  case_decide; [by apply index_inv_end_game|done].
Qed.

Lemma index_inv_handle_move user_id text st :
  index_inv st -> index_inv (handle_move CITY_SET user_id text st).
Proof.
  intros [H1 H2].
  destruct (player_game st !! user_id) as [gid|] eqn:Hpg;
    [|unfold handle_move; by rewrite Hpg].
  destruct (games st !! gid) as [g|] eqn:Hg;
    [|unfold handle_move; by rewrite Hpg, Hg].
  pose proof (handle_move_cases CITY_SET st user_id text gid g Hpg Hg) as H.
  cbv zeta in H.
  destruct (submitMove_checks CITY_SET g user_id _) as [rejection|].
  - rewrite H. by apply (index_inv_same st).
  - destruct H as (Hgames & _ & _ & _ & Hp & _). split.
    + rewrite Hgames. intros gid' g' [[<- <-]|[_ Hl]]%lookup_insert_Some;
        [exact (H1 _ _ Hg)|exact (H1 _ _ Hl)].
    + rewrite Hgames, Hp. intros u gid' Hl.
      destruct (H2 _ _ Hl) as (g' & Hg' & Hin).
      destruct (decide (gid' = gid)) as [->|Hne].
      * eexists. split; [apply lookup_insert_eq|].
        assert (g' = g) as -> by congruence. exact Hin.
      * exists g'. by rewrite lookup_insert_ne.
Qed.

Lemma index_inv_handle ev st :
  index_inv st -> index_inv (handle CITY_SET ev st).
Proof.
  intros Hinv.
  assert (∀ st1, games st1 = games st -> player_game st1 = player_game st ->
                 index_inv st1) as Hsame
      by (intros; by apply (index_inv_same st)).
  destruct ev; cbn [handle].
  - by apply Hsame.
  - unfold cmd_play. case_match; [by apply Hsame|].
    case_match; [|by apply Hsame].
    case_decide; [by apply Hsame|].
    apply index_inv_create_game. by apply Hsame.
  - unfold cmd_leave. case_decide; by apply Hsame.
  - unfold cmd_surrender. repeat case_match; try by apply Hsame.
    by apply index_inv_end_game.
  - unfold cmd_country. case_match; by apply Hsame.
  - unfold cmd_cancel_rematch. case_match; [by apply Hsame|].
    match goal with |- index_inv (foldl _ ?s ?l) =>
      destruct (foldl_send_fields OpponentCancelledOffer l s)
        as (Hg & Hp & _) end.
    apply Hsame; [by rewrite Hg|by rewrite Hp].
  - by apply index_inv_handle_move.
  - destruct data as [[p1 p2]|]; [|by apply Hsame].
    unfold callback_rematch.
    repeat case_decide; try by apply Hsame.
    case_match; [by apply Hsame|].
    apply index_inv_create_game. by apply Hsame.
  - by apply index_inv_turn_timeout.
Qed.

Lemma reachable_index_inv st : reachable CITY_SET st -> index_inv st.
Proof.
  induction 1 as [|st ev _ IH _].
  - split.
    + intros gid g H. change (games init) with (∅ : gmap (Z * Z) game) in H.
      by rewrite lookup_empty in H.
    + intros u gid H.
      change (player_game init) with (∅ : gmap Z (Z * Z)) in H.
      by rewrite lookup_empty in H.
  - by apply index_inv_handle.
Qed.

Lemma make_game_id_plays_in p1 p2 g :
  make_game_id p1 p2 = make_game_id (players g).1 (players g).2 ->
  plays_in p1 g.
Proof.
  unfold make_game_id, plays_in. intros [= Hmin Hmax]. lia.
Qed.

(** With a sound index, two players whom no registered session lists are
    not in a game, and no session of the two is registered. *)
Lemma in_no_session_free p1 p2 st :
  index_inv st -> in_no_session p1 st -> in_no_session p2 st ->
  is_user_in_game p1 st || is_user_in_game p2 st = false
  ∧ games st !! make_game_id p1 p2 = None.
Proof.
  intros [H1 H2] Hp1 Hp2. split.
  - unfold is_user_in_game.
    destruct (player_game st !! p1) as [gid|] eqn:E1.
    { destruct (H2 _ _ E1) as (g & Hg & Hin). destruct (Hp1 _ _ Hg Hin). }
    destruct (player_game st !! p2) as [gid|] eqn:E2; [|done].
    destruct (H2 _ _ E2) as (g & Hg & Hin). destruct (Hp2 _ _ Hg Hin).
  - destruct (games st !! make_game_id p1 p2) as [g|] eqn:Hg; [|done].
    destruct (Hp1 _ _ Hg). eapply make_game_id_plays_in. by apply H1.
Qed.

End IndexFacts.

(** ** Rematch *)

Section RematchFacts.
Context {U : Unicode}.
Variable CITY_SET : gset str.

Lemma pair_key_set p1 p2 :
  {[(pair_key p1 p2).1; (pair_key p1 p2).2]} =@{gset Z} {[p1; p2]}.
Proof.
  unfold pair_key. cbn [fst snd].
  destruct (Z.min_spec p1 p2) as [[Hlt ->]|[Hle ->]],
           (Z.max_spec p1 p2) as [[Hlt' ->]|[Hle' ->]]; try lia.
  - done.
  - apply set_eq. intros x. rewrite !elem_of_union, !elem_of_singleton. tauto.
Qed.

(** A consent that does not complete the pair. *)
Lemma callback_rematch_first st user_id p1 p2 :
  let key := pair_key p1 p2 in
  let offers := default ∅ (rematch_offers st !! key) in
  user_id ∉ offers -> offers ∪ {[user_id]} ≠ {[p1; p2]} ->
  callback_rematch user_id (Some (p1, p2)) st
  = send (other_player (p1, p2) user_id) OpponentConsented
      (send user_id ConsentGiven
         (set_rematch_offers <[key := offers ∪ {[user_id]}]> st)).
Proof.
  intros key offers Hnot Hne. unfold callback_rematch. fold key offers.
  rewrite decide_False by done.
  rewrite decide_False; [done|]. subst key. by rewrite pair_key_set.
Qed.

(** A consent that completes the pair. *)
Lemma callback_rematch_second st user_id p1 p2 :
  let key := pair_key p1 p2 in
  let offers := default ∅ (rematch_offers st !! key) in
  user_id ∉ offers -> offers ∪ {[user_id]} = {[p1; p2]} ->
  let st1 :=
    State (games st) (player_game st) (waiting_player st)
          (delete key (rematch_offers st)) (db st) (tasks st)
          (next_task st)
          (outbox st ++ [(user_id, ConsentGiven);
                         (other_player (p1, p2) user_id,
                          OpponentConsented)]) in
  callback_rematch user_id (Some (p1, p2)) st
  = if is_user_in_game p1 st || is_user_in_game p2 st
    then send p2 RematchAborted (send p1 RematchAborted st1)
    else create_game_between p1 p2 (Some p1) st1.
Proof.
  intros key offers Hnot Heq st1. unfold callback_rematch. fold key offers.
  rewrite decide_False by done.
  rewrite decide_True by (subst key; by rewrite pair_key_set).
  assert (set_rematch_offers (delete key)
            (send (other_player (p1, p2) user_id) OpponentConsented
               (send user_id ConsentGiven
                  (set_rematch_offers <[key := offers ∪ {[user_id]}]> st)))
          = st1) as ->.
  { subst st1. fields. by rewrite delete_insert_eq, <- app_assoc. }
  done.
Qed.

(** A withdrawal. *)
Lemma callback_rematch_withdraw st user_id p1 p2 :
  let key := pair_key p1 p2 in
  let offers := default ∅ (rematch_offers st !! key) in
  user_id ∈ offers ->
  callback_rematch user_id (Some (p1, p2)) st
  = State (games st) (player_game st) (waiting_player st)
          (if decide (offers ∖ {[user_id]} = ∅)
           then delete key (rematch_offers st)
           else <[key := offers ∖ {[user_id]}]> (rematch_offers st))
          (db st) (tasks st) (next_task st)
          (outbox st ++ [(user_id, ConsentWithdrawn);
                         (other_player (p1, p2) user_id, OpponentWithdrew)]).
Proof.
  intros key offers Hin. unfold callback_rematch. fold key offers.
  rewrite decide_True by done.
  destruct (decide (offers ∖ {[user_id]} = ∅)); fields;
    by rewrite ?delete_insert_eq, <- app_assoc.
Qed.

Lemma create_game_between_lookup p1 p2 first st gid g' :
  games st !! gid = None ->
  games (create_game_between p1 p2 first st) !! gid = Some g' ->
  g' = fresh_session p1 p2 (default p1 first) (next_task st).
Proof.
  intros Hnone.
  destruct (games st !! make_game_id p1 p2) as [g|] eqn:Hg.
  - rewrite create_game_between_registered by done. congruence.
  - rewrite create_game_between_eq by done. fields.
    intros [[_ <-]|[_ H]]%lookup_insert_Some; [done|congruence].
Qed.

Lemma end_game_lookup gid0 winner why st gid g' :
  games (end_game gid0 (Some winner) why st) !! gid = Some g' ->
  games st !! gid = Some g'.
Proof.
  destruct (games st !! gid0) as [g|] eqn:Hg.
  - rewrite (end_game_winner gid0 g) by done. fields.
    by intros [_ H]%lookup_delete_Some.
  - unfold end_game. by rewrite Hg.
Qed.

Lemma handle_move_lookup user_id text st gid g' :
  games (handle_move CITY_SET user_id text st) !! gid = Some g' ->
  is_Some (games st !! gid).
Proof.
  destruct (player_game st !! user_id) as [gid0|] eqn:Hpg;
    [|unfold handle_move; rewrite Hpg; by eexists].
  destruct (games st !! gid0) as [g|] eqn:Hg;
    [|unfold handle_move; rewrite Hpg, Hg; by eexists].
  pose proof (handle_move_cases CITY_SET st user_id text gid0 g Hpg Hg) as H.
  cbv zeta in H.
  destruct (submitMove_checks CITY_SET g user_id _) as [rejection|].
  - rewrite H. fields. by eexists.
  - destruct H as (-> & _).
    intros [[<- _]|[_ Hl]]%lookup_insert_Some; by eexists.
Qed.

(** A session that a step of the bot registers is a fresh one, with the
    first of its players to move. *)
Lemma registered_by_step ev st gid g' :
  games st !! gid = None ->
  games (handle CITY_SET ev st) !! gid = Some g' ->
  ∃ clock, g' = fresh_session (players g').1 (players g').2
                              (players g').1 clock.
Proof.
  intros Hnone.
  assert (∀ st1, games st1 = games st -> games st1 !! gid = Some g' ->
                 ∃ clock, g' = fresh_session (players g').1 (players g').2
                                             (players g').1 clock) as Hsame.
  { intros st1 -> H. congruence. }
  destruct ev; cbn [handle].
  - by apply Hsame.
  - unfold cmd_play. case_match; [by apply Hsame|].
    case_match; [|by apply Hsame].
    case_decide; [by apply Hsame|].
    intros ->%create_game_between_lookup; [|done]. by eexists.
  - unfold cmd_leave. case_decide; by apply Hsame.
  - unfold cmd_surrender. repeat case_match; try by apply Hsame.
    intros Hl%end_game_lookup. congruence.
  - unfold cmd_country. case_match; by apply Hsame.
  - unfold cmd_cancel_rematch. case_match; [by apply Hsame|].
    match goal with |- games (foldl _ ?s ?l) !! _ = _ -> _ =>
      destruct (foldl_send_fields OpponentCancelledOffer l s)
        as (Hg & _) end.
    apply Hsame. by rewrite Hg.
  - intros [g Hg]%handle_move_lookup. congruence.
  - destruct data as [[p1 p2]|]; [|by apply Hsame].
    unfold callback_rematch.
    repeat case_decide; try by apply Hsame.
    case_match; [by apply Hsame|].
    intros ->%create_game_between_lookup; [|done]. by eexists.
  - unfold turn_timeout. case_match; [|by apply Hsame].
    case_match. fields. repeat case_match; try by apply Hsame.
    intros Hl%end_game_lookup. congruence.
Qed.

(** The cases of [callback_rematch].  For a pair of two different
    players: a consent that leaves the
    pair incomplete is added to the pair's entry and creates nothing; a
    consent by a player who has consented is withdrawn, and when it was
    the only one, the later consent of the other player alone creates
    nothing; a consent that completes the pair removes the entry, and
    then, if either player is in a game, both are told that the rematch
    is off and no session is created, and otherwise a session of the two
    is registered in which the first player of the button moves first.
    The button is the one [end_game] sent for the players of the ended
    game in their order, and in every session the bot registers the
    first of its players moves first: the first mover of the earlier
    game moves first again.  In a state the bot reaches, the session is
    registered whenever no registered session lists either player.  What
    happens when the index and the registry disagree is in
    [RaceFacts]. *)
Theorem rematch_handshake :
  (∀ st user_id p1 p2,
     p1 ≠ p2 ->
     let key := pair_key p1 p2 in
     let offers := default ∅ (rematch_offers st !! key) in
     let other := other_player (p1, p2) user_id in
     let st' := callback_rematch user_id (Some (p1, p2)) st in
     (user_id ∉ offers -> offers ∪ {[user_id]} ≠ {[p1; p2]} ->
      rematch_offers st' !! key = Some (offers ∪ {[user_id]})
      ∧ games st' = games st ∧ player_game st' = player_game st)
     ∧ (user_id ∈ offers ->
        default ∅ (rematch_offers st' !! key) = offers ∖ {[user_id]}
        ∧ games st' = games st ∧ player_game st' = player_game st)
     ∧ (offers = {[user_id]} -> other ≠ user_id ->
        let st'' := callback_rematch other (Some (p1, p2)) st' in
        rematch_offers st'' !! key = Some {[other]}
        ∧ games st'' = games st ∧ player_game st'' = player_game st)
     ∧ (user_id ∉ offers -> offers ∪ {[user_id]} = {[p1; p2]} ->
        rematch_offers st' !! key = None
        ∧ (is_user_in_game p1 st || is_user_in_game p2 st = true ->
           games st' = games st ∧ player_game st' = player_game st
           ∧ (p1, RematchAborted) ∈ outbox st'
           ∧ (p2, RematchAborted) ∈ outbox st')
        ∧ (is_user_in_game p1 st || is_user_in_game p2 st = false ->
           games st !! make_game_id p1 p2 = None ->
           ∃ clock,
             games st' !! make_game_id p1 p2
             = Some (fresh_session p1 p2 p1 clock)
             ∧ player_game st' !! p1 = Some (make_game_id p1 p2)
             ∧ player_game st' !! p2 = Some (make_game_id p1 p2))))
  ∧ (∀ st gid g winner why,
       games st !! gid = Some g ->
       let button := RematchButton (players g).1 (players g).2 in
       let st' := end_game gid (Some winner) why st in
       ((players g).1, button) ∈ outbox st'
       ∧ ((players g).2, button) ∈ outbox st')
  ∧ (∀ st ev gid g',
       games st !! gid = None ->
       games (handle CITY_SET ev st) !! gid = Some g' ->
       turn g' = (players g').1 ∧ moves g' = 0)
  ∧ (∀ st user_id p1 p2,
       reachable CITY_SET st ->
       let offers := default ∅ (rematch_offers st !! pair_key p1 p2) in
       user_id ∉ offers -> offers ∪ {[user_id]} = {[p1; p2]} ->
       in_no_session p1 st -> in_no_session p2 st ->
       ∃ clock,
         games (callback_rematch user_id (Some (p1, p2)) st)
         !! make_game_id p1 p2
         = Some (fresh_session p1 p2 p1 clock)).
Proof.
  split; [|split; [|split]].
  - intros st user_id p1 p2 Hne key offers other st'.
    split; [|split; [|split]].
    + intros Hnot Hinc. subst st'.
      rewrite callback_rematch_first by done. fields.
      split; [apply lookup_insert_eq|done].
    + intros Hin. subst st'. rewrite callback_rematch_withdraw by done.
      fold key offers. fields. split; [|done].
      case_decide as He.
      * by rewrite lookup_delete_eq, He.
      * by rewrite lookup_insert_eq.
    + intros Hoff Hother st''. subst st'' st'.
      assert (user_id ∈ offers) as Hin
          by (rewrite Hoff; by apply elem_of_singleton).
      rewrite (callback_rematch_withdraw st) by done. fold key offers.
      rewrite decide_True by (rewrite Hoff; apply difference_diag_L).
      rewrite callback_rematch_first; fold key; fields;
        rewrite lookup_delete_eq; cbn [default].
      * rewrite insert_delete_eq, lookup_insert_eq.
        split; [|done]. f_equal. apply union_empty_l_L.
      * apply not_elem_of_empty.
      * intros Heq. apply Hne.
        assert (∀ x, x ∈ ({[p1; p2]} : gset Z) -> x = other) as Hx.
        { intros x. rewrite <- Heq, elem_of_union, elem_of_singleton.
          intros [[]%not_elem_of_empty|Hx]. exact Hx. }
        rewrite (Hx p1), (Hx p2); [done|..];
          rewrite elem_of_union, !elem_of_singleton; tauto.
    + intros Hnot Hfull. subst st'.
      rewrite callback_rematch_second by done. fold key.
      set (st1 := State _ _ _ (delete key _) _ _ _ _).
      destruct (is_user_in_game p1 st || is_user_in_game p2 st) eqn:Hb.
      * split; [fields; apply lookup_delete_eq|].
        split; [|done]. intros _. fields. repeat split.
        -- apply elem_of_app. left. apply elem_of_app. right. by left.
        -- apply elem_of_app. right. by left.
      * split.
        { destruct (games st !! make_game_id p1 p2) as [g|] eqn:Hg.
          - rewrite create_game_between_registered by (by eexists).
            apply lookup_delete_eq.
          - rewrite create_game_between_eq by done.
            fields. apply lookup_delete_eq. }
        split; [done|]. intros _ Hnone.
        rewrite create_game_between_eq by done. fields.
        exists (next_task st). split; [apply lookup_insert_eq|].
        split; [|apply lookup_insert_eq].
        rewrite lookup_insert_ne by done. apply lookup_insert_eq.
  - intros st gid g winner why Hg button st'. subst st'.
    rewrite (end_game_winner gid g) by done. cbn [outbox].
    split; apply elem_of_app; right.
    + do 2 right. by left.
    + do 3 right. by left.
  - intros st ev gid g' Hnone Hreg.
    destruct (registered_by_step ev st gid g' Hnone Hreg) as [clock H].
    rewrite H. done.
  - intros st user_id p1 p2 Hr offers Hnot Hfull Hp1 Hp2.
    destruct (in_no_session_free p1 p2 st (reachable_index_inv CITY_SET st Hr)
                Hp1 Hp2) as [Hfree Hnone].
    rewrite callback_rematch_second by done. rewrite Hfree.
    rewrite create_game_between_eq by done. cbn [games].
    exists (next_task st). apply lookup_insert_eq.
Qed.

End RematchFacts.

(** ** Matchmaking *)

Section MatchmakingFacts.

Lemma is_user_in_game_set_db user_id f st :
  is_user_in_game user_id (set_db f st) = is_user_in_game user_id st.
Proof. reflexivity. Qed.

(** C6, as amended.  A [/play] request of a player who is in a game is
    answered with "already in a game" and changes neither the waiting
    slot nor the sessions.  For a player who is not in a game: when no
    one is waiting the requester becomes the waiting player and is told
    so, and no session is created; when the requester is the waiting
    player the request changes nothing and is answered with "already
    queued"; when another player is waiting the slot is cleared and,
    unless a session of the two is registered already, a session of the
    two is registered in which the player who was waiting moves first. *)
Theorem play_request_spec st user_id uname :
  let st' := cmd_play user_id uname st in
  (is_user_in_game user_id st = true ->
   waiting_player st' = waiting_player st
   ∧ games st' = games st ∧ player_game st' = player_game st
   ∧ outbox st' = outbox st ++ [(user_id, AlreadyInGame)])
  ∧ (is_user_in_game user_id st = false ->
     (waiting_player st = None ->
      waiting_player st' = Some user_id
      ∧ games st' = games st ∧ player_game st' = player_game st
      ∧ outbox st' = outbox st ++ [(user_id, Queued)])
     ∧ (waiting_player st = Some user_id ->
        waiting_player st' = Some user_id
        ∧ games st' = games st ∧ player_game st' = player_game st
        ∧ outbox st' = outbox st ++ [(user_id, AlreadyQueued)])
     ∧ (∀ waiting,
          waiting_player st = Some waiting -> waiting ≠ user_id ->
          waiting_player st' = None
          ∧ (games st !! make_game_id waiting user_id = None ->
             ∃ clock,
               games st' !! make_game_id waiting user_id
               = Some (fresh_session waiting user_id waiting clock)
               ∧ player_game st' !! waiting
                 = Some (make_game_id waiting user_id)
               ∧ player_game st' !! user_id
                 = Some (make_game_id waiting user_id)))).
Proof.
  intros st'. subst st'. unfold cmd_play.
  rewrite is_user_in_game_set_db. split.
  { by intros ->. }
  intros ->. cbn [waiting_player set_db]. split; [|split].
  - intros Hw. by rewrite Hw.
  - intros Hw. rewrite Hw. by rewrite decide_True.
  - intros waiting Hw Hne. rewrite Hw, decide_False by done.
    set (st1 := set_waiting_player None _).
    split.
    + destruct (games st !! make_game_id waiting user_id) as [g|] eqn:Hg.
      * by rewrite create_game_between_registered by (by eexists).
      * by rewrite create_game_between_eq.
    + intros Hnone. rewrite create_game_between_eq by done.
      subst st1. fields. exists (next_task st).
      split; [apply lookup_insert_eq|].
      split; [|apply lookup_insert_eq].
      rewrite lookup_insert_ne by done. apply lookup_insert_eq.
Qed.

End MatchmakingFacts.

(** ** Runs of the bot *)

Section RunFacts.
Context {U : Unicode}.
Variable CITY_SET : gset str.

Lemma run_reachable evs st st' :
  reachable CITY_SET st -> run CITY_SET evs st = Some st' ->
  reachable CITY_SET st'.
Proof.
  revert st. induction evs as [|ev evs IH]; intros st Hr; simpl.
  - by intros [= <-].
  - case_decide as Hen; [|discriminate].
    apply IH. by constructor.
Qed.

End RunFacts.

Module ScenarioFacts.
Import Scenario.
#[local] Existing Instance Sample.tables.

Lemma after_reachable evs :
  is_Some (run cities evs init) -> reachable cities (after evs).
Proof.
  intros [st Hst]. unfold after. rewrite Hst.
  eapply run_reachable; [constructor|exact Hst].
Qed.

Example uchaly :
  last_significant_letter (Py.utf8 "Учалы") = Some 1083%N.
Proof. vm_compute. reflexivity. Qed.

Example moskva :
  last_significant_letter (Py.utf8 "  Москва ") = Some 1072%N.
Proof. vm_compute. reflexivity. Qed.

Example normalize_spaces :
  normalize_city (Py.utf8 "  Нижний   Новгород ")
  = Py.utf8 "нижний новгород".
Proof. vm_compute. reflexivity. Qed.

Example normalize_yo :
  normalize_city (Py.utf8 "Орёл") = Py.utf8 "орел".
Proof. vm_compute. reflexivity. Qed.

(** C6 as stated fails: after 1 and 2 were matched nobody is waiting,
    and a further [/play] of player 1 does not put player 1 in the
    waiting slot. *)
Lemma play_in_game_not_queued :
  ¬ (∀ evs st user_id uname,
       Forall is_play evs -> run cities evs init = Some st ->
       waiting_player st = None ->
       waiting_player (cmd_play user_id uname st) = Some user_id).
Proof.
  intros H.
  specialize (H matched (after matched) 1 None).
  assert (Forall is_play matched) as Hp by (repeat constructor).
  specialize (H Hp eq_refl eq_refl). vm_compute in H. discriminate H.
Qed.


Lemma record_win_reset_streak_spec_witness :
  let db := <[7 := Row DB.Player [] 3 2 2]> (∅ : gmap Z row) in
  (∃ r, DB.record_win 7 db !! 7 = Some r
        ∧ wins r = 4 ∧ current_streak r = 3 ∧ max_streak r = 3)
  ∧ DB.record_win 8 db !! 7 = db !! 7.
Proof.
  intros db. split.
  - destruct (record_win_reset_streak_spec db 7)
      as ((r & Hr & Hw & Hc & Hup & _) & _).
    exists r. split; [exact Hr|].
    change (row_of db 7) with (Row DB.Player [] 3 2 2) in Hw, Hc, Hup.
    simpl in Hw, Hc, Hup. split; [exact Hw|]. split; [exact Hc|].
    rewrite Hup; [exact Hc|]. rewrite Hc. lia.
  - destruct (record_win_reset_streak_spec db 8) as (_ & _ & H).
    destruct (H 7 ltac:(lia)) as [Hw _]. exact Hw.
Defined.


Lemma rejected_move_changes_nothing_witness :
  let st := after matched in
  let st' := handle_move cities 2 (Some (Py.utf8 "Москва")) st in
  games st' !! (1, 2) = Some first_session
  ∧ tasks st' = tasks st
  ∧ outbox st' = outbox st ++ [(2, NotYourTurn)].
Proof.
  intros st st'.
  destruct (rejected_move_changes_nothing cities st 2
              (Some (Py.utf8 "Москва")) (1, 2) first_session NotYourTurn
              eq_refl eq_refl eq_refl)
    as (Hs & _ & Ht & _ & _ & _ & _ & _ & Ho & _).
  split; [exact Hs|]. split; [exact Ht|exact Ho].
Defined.

Lemma move_and_timeout_exclusive_witness :
  let st := after matched in
  let accepted := Text 1 (Some (Py.utf8 "Москва")) in
  (1, YouLost 2 TimedOut) ∈ outbox (turn_timeout 0 st)
  ∧ turn_timeout 0 session_gone = set_tasks (delete 0%nat) session_gone
  ∧ tasks (handle cities accepted st) !! 0%nat = None
  ∧ (∃ t, tasks st !! t = Some ((1, 2), 1)
          ∧ move_accepted_on cities t accepted st)
  ∧ settles cities 0 accepted st
  ∧ ¬ settles cities 0 (ClockExpires 0) (handle cities accepted st).
Proof.
  intros st accepted.
  assert (reachable cities st) as Hr
      by (apply after_reachable; vm_compute; by eexists).
  assert (move_accepted_on cities 0 accepted st) as Hm.
  { exists 1, (Some (Py.utf8 "Москва")), (1, 2), first_session.
    split; [reflexivity|]. split; [reflexivity|]. split; [reflexivity|].
    split; [reflexivity|]. split; [|vm_compute; reflexivity].
    exists ((1, 2), 1). reflexivity. }
  destruct (move_and_timeout_exclusive cities) as (H1 & H2 & H3 & H4 & H5).
  split; [|split; [|split; [|split; [|split]]]].
  - destruct (H1 st 0%nat (1, 2) 1 eq_refl) as (_ & _ & Hf).
    destruct (Hf first_session eq_refl eq_refl) as (_ & _ & Hout).
    destruct Hout as [Hlost _]; [cbn; lia|by left|]. exact Hlost.
  - destruct (H1 session_gone 0%nat (1, 2) 1 eq_refl) as (Hgone & _).
    apply Hgone. reflexivity.
  - destruct (H2 st 0%nat accepted) as [Hd _]; [|exact Hm|exact Hd].
    by destruct (H3 st Hr) as (_ & _ & Hf).
  - apply (H4 st 1 (Some (Py.utf8 "Москва")) (1, 2) first_session Hr);
      [reflexivity|reflexivity|vm_compute; reflexivity].
  - by left.
  - apply (H5 st 0%nat accepted [] (ClockExpires 0) Hr). by left.
Defined.

Lemma play_request_spec_witness :
  (let st' := cmd_play 1 None init in
   waiting_player st' = Some 1 ∧ games st' = games init)
  ∧ (let st := after [Play 1 None] in
     let st' := cmd_play 1 None st in
     waiting_player st' = Some 1
     ∧ outbox st' = outbox st ++ [(1, AlreadyQueued)])
  ∧ (let st := after [Play 1 None] in
     let st' := cmd_play 2 None st in
     waiting_player st' = None
     ∧ ∃ clock, games st' !! make_game_id 1 2
                = Some (fresh_session 1 2 1 clock))
  ∧ (let st := after matched in
     let st' := cmd_play 1 None st in
     waiting_player st' = waiting_player st
     ∧ outbox st' = outbox st ++ [(1, AlreadyInGame)]).
Proof.
  split; [|split; [|split]].
  - intros st'. destruct (play_request_spec init 1 None) as (_ & H).
    destruct (H eq_refl) as (Hq & _).
    destruct (Hq eq_refl) as (Hw & Hg & _). by split.
  - intros st st'. destruct (play_request_spec st 1 None) as (_ & H).
    destruct (H eq_refl) as (_ & Hq & _).
    destruct (Hq eq_refl) as (Hw & _ & _ & Ho). by split.
  - intros st st'. destruct (play_request_spec st 2 None) as (_ & H).
    destruct (H eq_refl) as (_ & _ & Hm).
    destruct (Hm 1 eq_refl ltac:(lia)) as (Hw & Hc).
    split; [exact Hw|].
    destruct (Hc eq_refl) as (clock & Hg & _). by exists clock.
  - intros st st'. destruct (play_request_spec st 1 None) as (H & _).
    destruct (H eq_refl) as (Hw & _ & _ & Ho). by split.
Defined.

Lemma rematch_handshake_witness :
  (let st' := callback_rematch 1 (Some (1, 2)) (after game_over) in
   rematch_offers st' !! pair_key 1 2 = Some (∅ ∪ {[1]})
   ∧ games st' = games (after game_over))
  ∧ (let st' := callback_rematch 1 (Some (1, 2)) (after one_consent) in
     default ∅ (rematch_offers st' !! pair_key 1 2) = {[1]} ∖ {[1]})
  ∧ (let st := after one_consent in
     let st' := callback_rematch 2 (Some (1, 2)) st in
     rematch_offers st' !! pair_key 1 2 = None
     ∧ (∃ clock, games st' !! make_game_id 1 2
                 = Some (fresh_session 1 2 1 clock))
     ∧ (∃ clock, games (handle cities (RematchTap 2 (Some (1, 2))) st)
                 !! make_game_id 1 2
                 = Some (fresh_session 1 2 1 clock)))
  ∧ (let st := after opponent_busy in
     let st' := callback_rematch 2 (Some (1, 2)) st in
     games st' = games st ∧ (1, RematchAborted) ∈ outbox st').
Proof.
  destruct (rematch_handshake cities) as (H & _ & _ & Hreach).
  split; [|split; [|split]].
  - intros st'.
    destruct (H (after game_over) 1 1 2 ltac:(lia)) as (Hfirst & _).
    destruct Hfirst as (Ho & Hg & _).
    + vm_compute. intros Hin. discriminate Hin.
    + vm_compute. intros Heq. discriminate Heq.
    + by split.
  - intros st'.
    destruct (H (after one_consent) 1 1 2 ltac:(lia)) as (_ & Hw & _).
    destruct Hw as (Ho & _); [vm_compute; reflexivity|exact Ho].
  - intros st st'.
    destruct (H st 2 1 2 ltac:(lia)) as (_ & _ & _ & Hfull).
    destruct Hfull as (Hnone & _ & Hcreate).
    + vm_compute. intros Hin. discriminate Hin.
    + vm_compute. reflexivity.
    + split; [exact Hnone|]. split.
      * destruct Hcreate as (clock & Hg & _);
          [vm_compute; reflexivity|vm_compute; reflexivity|].
        by exists clock.
      * apply (Hreach st 2 1 2).
        -- apply after_reachable. vm_compute. by eexists.
        -- vm_compute. intros Hin. discriminate Hin.
        -- vm_compute. reflexivity.
        -- intros gid g Hg. vm_compute in Hg. discriminate Hg.
        -- intros gid g Hg. vm_compute in Hg. discriminate Hg.
  - intros st st'.
    destruct (H st 2 1 2 ltac:(lia)) as (_ & _ & _ & Hfull).
    destruct Hfull as (_ & Habort & _).
    + vm_compute. intros Hin. discriminate Hin.
    + vm_compute. reflexivity.
    + destruct Habort as (Hg & _ & H1 & _); [vm_compute; reflexivity|].
      by split.
Defined.

Lemma turn_is_a_player_and_flips_witness :
  (let st := after moscow in
   let g := Game (1, 2) 2 (Some 1072%N) {[Py.utf8 "москва"]} (Some 1%nat) 1
                 (Some (1, Py.utf8 "москва")) in
   games st !! (1, 2) = Some g
   ∧ (turn g = (players g).1 ∧ turn g ≠ (players g).2
      ∨ turn g = (players g).2 ∧ turn g ≠ (players g).1))
  ∧ (let st := after matched in
     ∃ g', games (handle_move cities 1 (Some (Py.utf8 "Москва")) st) !! (1, 2)
           = Some g'
           ∧ turn g' ≠ 1).
Proof.
  destruct (turn_is_a_player_and_flips cities) as (H1 & H2).
  split.
  - intros st g.
    assert (games st !! (1, 2) = Some g) as Hg by (vm_compute; reflexivity).
    split; [exact Hg|].
    apply (H1 st (1, 2) g); [|exact Hg].
    apply after_reachable. vm_compute. by eexists.
  - intros st.
    destruct (H2 st 1 (Some (Py.utf8 "Москва")) (1, 2) first_session)
      as (g' & Hg' & _ & _ & Hflip & _).
    + apply after_reachable. vm_compute. by eexists.
    + reflexivity.
    + reflexivity.
    + vm_compute. reflexivity.
    + by exists g'.
Defined.

(** C1.  The bot reaches a state in which one player is on the players
    list of two registered sessions: player 1 waits in the queue, gets
    into a game with player 2 through the rematch buttons, and is then
    matched with player 3, whose [/play] finds player 1 in the waiting
    slot.  [create_game_between] registers the second session although
    player 1 is in a game. *)
Theorem waiting_player_matched_while_in_game :
  let before := after rematch_while_waiting in
  let st := after third_player_joins in
  reachable cities before
  ∧ is_user_in_game 1 before = true
  ∧ waiting_player before = Some 1
  ∧ st = handle cities (Play 3 None) before
  ∧ reachable cities st
  ∧ ∃ g12 g13,
      games st !! make_game_id 1 2 = Some g12
      ∧ games st !! make_game_id 1 3 = Some g13
      ∧ make_game_id 1 2 ≠ make_game_id 1 3
      ∧ plays_in 1 g12 ∧ plays_in 1 g13
      ∧ player_game st !! 1 = Some (make_game_id 1 3)
      ∧ player_game st !! 2 = Some (make_game_id 1 2).
Proof.
  intros before st.
  split; [apply after_reachable; vm_compute; by eexists|].
  split; [by vm_compute|]. split; [by vm_compute|].
  split; [by vm_compute|].
  split; [apply after_reachable; vm_compute; by eexists|].
  destruct (games st !! make_game_id 1 2) as [g12|] eqn:E12;
    [|by vm_compute in E12].
  destruct (games st !! make_game_id 1 3) as [g13|] eqn:E13;
    [|by vm_compute in E13].
  exists g12, g13. split; [done|]. split; [done|].
  split; [by vm_compute|].
  vm_compute in E12. vm_compute in E13.
  injection E12 as <-. injection E13 as <-.
  split; [by left|]. split; [by left|]. split; by vm_compute.
Qed.

End ScenarioFacts.

(** * Further properties *)

(** ** Normalized names *)

Section NormalizeFacts.
Context {U : Unicode}.

Lemma split_from_words (cur s : str) :
  Forall (fun c => Py.isspace c = false) cur ->
  Forall (fun w => w ≠ [] ∧ Forall (fun c => Py.isspace c = false) w)
         (Py.split_from cur s).
Proof.
  revert cur. induction s as [|c s IH]; intros cur Hcur; simpl.
  - destruct cur as [|x cur]; [constructor|].
    constructor; [|constructor]. split.
    + intros Hnil. apply (f_equal (@length N)) in Hnil.
      rewrite length_rev in Hnil. discriminate Hnil.
    + apply Forall_forall. intros y Hy.
      apply (proj1 (elem_of_rev _ _)) in Hy.
      exact (proj1 (Forall_forall _ _) Hcur y Hy).
  - destruct (Py.isspace c) eqn:Hc.
    + destruct cur as [|x cur]; [by apply IH|].
      constructor; [|by apply IH]. split.
      * intros Hnil. apply (f_equal (@length N)) in Hnil.
        rewrite length_rev in Hnil. discriminate Hnil.
      * apply Forall_forall. intros y Hy.
        apply (proj1 (elem_of_rev _ _)) in Hy.
        exact (proj1 (Forall_forall _ _) Hcur y Hy).
    + apply IH. by constructor.
Qed.

Lemma replace_join a b (sep : str) (ws : list str) :
  Py.replace a b (Py.join sep ws)
  = Py.join (Py.replace a b sep) (map (Py.replace a b) ws).
Proof.
  induction ws as [|w ws IH]; [done|].
  destruct ws as [|w' ws]; [done|].
  change (Py.join sep (w :: w' :: ws)) with (w ++ sep ++ Py.join sep (w' :: ws)).
  unfold Py.replace in *. rewrite !map_app, IH. done.
Qed.

Lemma replace1_keeps_space c :
  Py.isspace c = false ->
  Py.isspace (Py.replace1 yo ie c) = false ∧ Py.replace1 yo ie c ≠ yo.
Proof.
  intros Hc. split; [|apply replace1_yo_ne].
  unfold Py.replace1. destruct (N.eqb_spec c yo); [reflexivity|exact Hc].
Qed.

(** X1.  A normalized name is a list of words joined by single spaces;
    each word is non-empty and holds neither white space nor "ё",
    whatever the Unicode tables do. *)
Theorem normalize_city_words (s : str) :
  ∃ words, normalize_city s = Py.join [space] words
           ∧ Forall plain_word words.
Proof.
  destruct s as [|c s]; [exists []; split; [done|constructor]|].
  unfold normalize_city.
  set (low := py_lower (Py.strip (c :: s))).
  exists (map (Py.replace yo ie) (Py.split low)). split.
  - rewrite replace_join. done.
  - apply Forall_forall. intros w (w0 & -> & Hw0)%list_elem_of_fmap.
    pose proof (split_from_words [] low ltac:(constructor)) as Hall.
    destruct (proj1 (Forall_forall _ _) Hall w0 Hw0) as [Hne Hns].
    split.
    + destruct w0; [done|discriminate].
    + unfold Py.replace. apply Forall_forall.
      intros x (x0 & -> & Hx0)%list_elem_of_fmap.
      apply replace1_keeps_space.
      exact (proj1 (Forall_forall _ _) Hns x0 Hx0).
Qed.

End NormalizeFacts.

(** ** The record of a running session *)

Section LedgerFacts.
Context {U : Unicode}.
Variable CITY_SET : gset str.




(** How one step of the bot treats a registered session: it leaves the
    record as it is, or the step is an accepted move of the player to
    move. *)
Lemma handle_session ev st gid g g' :
  games st !! gid = Some g ->
  games (handle CITY_SET ev st) !! gid = Some g' ->
  g' = g
  ∨ ∃ user_id text,
      ev = Text user_id text
      ∧ player_game st !! user_id = Some gid
      ∧ submitMove_checks CITY_SET g user_id
          (normalize_city (Py.strip (default [] text))) = None
      ∧ g' = after_move g user_id
               (normalize_city (Py.strip (default [] text))) (next_task st).
Proof.
  intros Hg.
  assert (∀ st1, games st1 = games st -> games st1 !! gid = Some g' ->
                 g' = g) as Hsame.
  { intros st1 -> H. congruence. }
  assert (∀ p1 p2 first st1, games st1 = games st ->
            games (create_game_between p1 p2 first st1) !! gid = Some g' ->
            g' = g) as Hcreate.
  { intros p1 p2 first st1 Hst1.
    destruct (games st1 !! make_game_id p1 p2) as [g0|] eqn:Hg0.
    - rewrite create_game_between_registered by done. by apply Hsame.
    - rewrite create_game_between_eq by done. cbn [games]. rewrite Hst1.
      intros [[<- _]|[_ Hl]]%lookup_insert_Some; congruence. }
  destruct ev; cbn [handle].
  - left. by eapply Hsame.
  - intros H. left. revert H. unfold cmd_play.
    case_match; [by apply Hsame|].
    case_match; [|by apply Hsame].
    case_decide; [by apply Hsame|]. by apply Hcreate.
  - intros H. left. revert H. unfold cmd_leave.
    case_decide; by apply Hsame.
  - intros H. left. revert H. unfold cmd_surrender.
    repeat case_match; try by apply Hsame.
    intros Hl%end_game_lookup. congruence.
  - intros H. left. revert H. unfold cmd_country.
    case_match; by apply Hsame.
  - intros H. left. revert H. unfold cmd_cancel_rematch.
    case_match; [by apply Hsame|].
    match goal with |- games (foldl _ ?s ?l) !! _ = _ -> _ =>
      destruct (foldl_send_fields OpponentCancelledOffer l s)
        as (Hgames & _) end.
    apply Hsame. by rewrite Hgames.
  - destruct (player_game st !! user_id) as [gid0|] eqn:Hpg;
      [|unfold handle_move; rewrite Hpg; left; congruence].
    destruct (games st !! gid0) as [g0|] eqn:Hg0;
      [|unfold handle_move; rewrite Hpg, Hg0; left; congruence].
    pose proof (handle_move_cases CITY_SET st user_id text gid0 g0 Hpg Hg0)
      as H.
    cbv zeta in H.
    destruct (submitMove_checks CITY_SET g0 user_id _) as [rejection|]
      eqn:Hchk.
    + rewrite H. left. by eapply Hsame.
    + destruct H as (-> & _).
      intros [[<- <-]|[_ Hl]]%lookup_insert_Some; [|left; congruence].
      right. exists user_id, text.
      assert (g0 = g) as -> by congruence. done.
  - intros H. left. revert H.
    destruct data as [[p1 p2]|]; [|by apply Hsame].
    unfold callback_rematch.
    repeat case_decide; try by apply Hsame.
    case_match; [by apply Hsame|]. by apply Hcreate.
  - intros H. left. revert H. unfold turn_timeout.
    case_match; [|by apply Hsame].
    case_match. cbn [games set_tasks]. repeat case_match; try by apply Hsame.
    intros Hl%end_game_lookup. congruence.
Qed.

(** X3.  While a session stays registered, a step of the bot keeps its
    players, never takes a city out of the used cities and never lowers
    the move count; and the only step that changes the session's record
    at all is a message of the player whose turn it is. *)
Theorem session_only_moves_forward ev st gid g g' :
  games st !! gid = Some g ->
  games (handle CITY_SET ev st) !! gid = Some g' ->
  players g' = players g
  ∧ used_cities g ⊆ used_cities g'
  ∧ moves g <= moves g'
  ∧ (g' ≠ g -> ∃ text, ev = Text (turn g) text).
Proof.
  intros Hg Hg'.
  destruct (handle_session ev st gid g g' Hg Hg')
    as [->|(user_id & text & -> & _ & Hchk & ->)].
  - repeat split; [done|lia|]. intros Hne. by destruct Hne.
  - apply accepted_turn in Hchk. subst user_id. cbn.
    repeat split; [apply union_subseteq_r|lia|]. intros _. by exists text.
Qed.

Lemma ledger_ok_after_move g user_id word clock :
  ledger_ok CITY_SET g ->
  submitMove_checks CITY_SET g user_id word = None ->
  ledger_ok CITY_SET (after_move g user_id word clock).
Proof.
  intros (Hm & Hsub & _). unfold submitMove_checks.
  destruct (decide (user_id ≠ turn g)); [discriminate|].
  destruct (decide (word = [])); [discriminate|].
  destruct (decide (word ∉ CITY_SET)) as [|Hin]; [discriminate|].
  destruct (decide (word ∈ used_cities g)) as [|Hnew]; [discriminate|].
  intros _. apply dec_stable in Hin. unfold ledger_ok, after_move. cbn.
  split; [|split].
  - rewrite size_union by (apply disjoint_singleton_l; exact Hnew).
    rewrite size_singleton, Hm. lia.
  - apply union_subseteq. split; [by apply singleton_subseteq_l|done].
  - split; [|done]. apply elem_of_union. left. by apply elem_of_singleton.
Qed.

Lemma ledger_ok_fresh p1 p2 first clock :
  ledger_ok CITY_SET (fresh_session p1 p2 first clock).
Proof.
  unfold ledger_ok, fresh_session. cbn.
  split; [by rewrite size_empty|]. split; [apply empty_subseteq|done].
Qed.

Lemma reachable_ledger st :
  reachable CITY_SET st ->
  ∀ gid g, games st !! gid = Some g -> ledger_ok CITY_SET g.
Proof.
  induction 1 as [|st ev _ IH _]; intros gid g' Hg'.
  - change (games init) with (∅ : gmap (Z * Z) game) in Hg'.
    by rewrite lookup_empty in Hg'.
  - destruct (games st !! gid) as [g|] eqn:Hg.
    + destruct (handle_session ev st gid g g' Hg Hg')
        as [->|(user_id & text & _ & _ & Hchk & ->)]; [by eapply IH|].
      apply ledger_ok_after_move; [by eapply IH|done].
    + destruct (registered_by_step CITY_SET ev st gid g' Hg Hg')
        as [clock ->]. apply ledger_ok_fresh.
Qed.

(** X4.  In every state the bot reaches, the move count of a session is
    the number of its used cities, every used city is a city of the
    dictionary, and the last move, when there is one, is among the used
    cities, gave the session its last letter and passed the turn to the
    other player; a session without a last move has no used city and no
    last letter. *)
Theorem session_books_agree st gid g :
  reachable CITY_SET st -> games st !! gid = Some g ->
  moves g = Z.of_nat (size (used_cities g))
  ∧ used_cities g ⊆ CITY_SET
  ∧ match last_move g with
    | None => used_cities g = ∅ ∧ last_letter g = None
    | Some (mover, city) =>
        city ∈ used_cities g
        ∧ last_letter g = last_significant_letter city
        ∧ turn g = other_player (players g) mover
    end.
Proof. intros Hr Hg. exact (reachable_ledger st Hr gid g Hg). Qed.

End LedgerFacts.

(** ** The statistics the bot keeps *)

Section ScoreFacts.
Context {U : Unicode}.
Variable CITY_SET : gset str.

Lemma db_ok_insert_or_ignore user_id name db :
  db_ok db -> db_ok (DB.insert_or_ignore user_id name db).
Proof.
  intros Hok. unfold DB.insert_or_ignore.
  destruct (db !! user_id) eqn:E; [done|].
  intros u r [[_ <-]|[_ Hl]]%lookup_insert_Some; [|by eapply Hok].
  unfold row_ok. cbn. lia.
Qed.

Lemma db_ok_alter f user_id db :
  (∀ r, row_ok r -> row_ok (f r)) -> db_ok db -> db_ok (alter f user_id db).
Proof.
  intros Hf Hok u r. destruct (decide (user_id = u)) as [->|Hne].
  - rewrite lookup_alter_eq. destruct (db !! u) as [r0|] eqn:E; [|done].
    intros [= <-]. apply Hf. by eapply Hok.
  - rewrite lookup_alter_ne by done. by apply Hok.
Qed.

Lemma db_ok_add_or_update_player user_id uname db :
  db_ok db -> db_ok (DB.add_or_update_player user_id uname db).
Proof.
  intros Hok. unfold DB.add_or_update_player.
  apply db_ok_alter; [|by apply db_ok_insert_or_ignore].
  intros r Hr. exact Hr.
Qed.

Lemma db_ok_set_country user_id c db :
  db_ok db -> db_ok (DB.set_country user_id c db).
Proof.
  intros Hok. unfold DB.set_country.
  apply db_ok_alter; [|by apply db_ok_insert_or_ignore].
  intros r Hr. exact Hr.
Qed.

Lemma row_ok_win r : row_ok r -> row_ok (DB.raise_max (DB.bump r)).
Proof.
  intros (H0 & H1 & H2). unfold DB.raise_max, DB.bump, row_ok. cbn.
  destruct (Z.gtb_spec (current_streak r + 1) (max_streak r)); cbn; lia.
Qed.

Lemma db_ok_record_win user_id db :
  db_ok db -> db_ok (DB.record_win user_id db).
Proof.
  intros Hok. unfold DB.record_win. rewrite alter_alter_eq.
  apply db_ok_alter; [|by apply db_ok_insert_or_ignore].
  intros r Hr. by apply row_ok_win.
Qed.

Lemma db_ok_reset_streak user_id db :
  db_ok db -> db_ok (DB.reset_streak user_id db).
Proof.
  intros Hok. unfold DB.reset_streak.
  apply db_ok_alter; [|by apply db_ok_insert_or_ignore].
  intros r (H0 & H1 & H2). unfold DB.zero_streak, row_ok. cbn. lia.
Qed.

Lemma create_game_between_db p1 p2 first st :
  db (create_game_between p1 p2 first st) = db st.
Proof.
  destruct (games st !! make_game_id p1 p2) as [g|] eqn:Hg.
  - by rewrite create_game_between_registered.
  - by rewrite create_game_between_eq.
Qed.

Lemma db_ok_end_game gid winner why st :
  db_ok (db st) -> db_ok (db (end_game gid (Some winner) why st)).
Proof.
  intros Hok. destruct (games st !! gid) as [g|] eqn:Hg.
  - rewrite (end_game_winner gid g) by done. cbn [db].
    by apply db_ok_reset_streak, db_ok_record_win.
  - unfold end_game. by rewrite Hg.
Qed.

Lemma db_ok_handle ev st :
  db_ok (db st) -> db_ok (db (handle CITY_SET ev st)).
Proof.
  intros Hok.
  assert (∀ st1, db st1 = db st -> db_ok (db st1)) as Hsame
      by (by intros st1 ->).
  destruct ev; cbn [handle].
  - by apply db_ok_add_or_update_player.
  - unfold cmd_play.
    assert (db_ok (DB.add_or_update_player user_id uname (db st))) as Hok1
        by (by apply db_ok_add_or_update_player).
    case_match; [exact Hok1|].
    case_match; [|exact Hok1].
    case_decide; [exact Hok1|].
    rewrite create_game_between_db. exact Hok1.
  - unfold cmd_leave. case_decide; by apply Hsame.
  - unfold cmd_surrender. repeat case_match; try by apply Hsame.
    by apply db_ok_end_game.
  - unfold cmd_country. case_match; [|by apply Hsame].
    cbn [db send set_db].
    by apply db_ok_set_country, db_ok_add_or_update_player.
  - unfold cmd_cancel_rematch. case_match; [by apply Hsame|].
    match goal with |- db_ok (db (foldl _ ?s ?l)) =>
      destruct (foldl_send_fields OpponentCancelledOffer l s)
        as (_ & _ & _ & _ & Hdb & _) end.
    apply Hsame. by rewrite Hdb.
  - destruct (player_game st !! user_id) as [gid|] eqn:Hpg;
      [|unfold handle_move; by rewrite Hpg].
    destruct (games st !! gid) as [g|] eqn:Hg;
      [|unfold handle_move; by rewrite Hpg, Hg].
    pose proof (handle_move_cases CITY_SET st user_id text gid g Hpg Hg) as H.
    cbv zeta in H.
    destruct (submitMove_checks CITY_SET g user_id _) as [rejection|].
    + rewrite H. by apply Hsame.
    + destruct H as (_ & _ & _ & _ & _ & _ & _ & Hdb). by apply Hsame.
  - destruct data as [[p1 p2]|]; [|by apply Hsame].
    unfold callback_rematch.
    repeat case_decide; try by apply Hsame.
    case_match; [by apply Hsame|].
    rewrite create_game_between_db. by apply Hsame.
  - unfold turn_timeout. case_match; [|done].
    case_match. cbn [db set_tasks]. repeat case_match; try done.
    by apply db_ok_end_game.
Qed.

(** X5.  The statistics stay consistent.  Every write of [database.py]
    keeps, for every row, the current streak non-negative, the best streak
    at least the current streak and the wins at least the best streak; and
    so does every state the bot reaches. *)
Theorem statistics_consistent :
  (∀ db user_id uname c,
     db_ok db ->
     db_ok (DB.add_or_update_player user_id uname db)
     ∧ db_ok (DB.set_country user_id c db)
     ∧ db_ok (DB.record_win user_id db)
     ∧ db_ok (DB.reset_streak user_id db))
  ∧ (∀ st, reachable CITY_SET st -> db_ok (db st)).
Proof.
  split.
  - intros db user_id uname c Hok.
    auto using db_ok_add_or_update_player, db_ok_set_country,
      db_ok_record_win, db_ok_reset_streak.
  - induction 1 as [|st ev _ IH _]; [|by apply db_ok_handle].
    intros u r H. change (db init) with (∅ : gmap Z row) in H.
    by rewrite lookup_empty in H.
Qed.

(** What [end_game] does to a registered session when no winner is
    given. *)
Lemma end_game_draw gid g why st :
  games st !! gid = Some g ->
  let p1 := (players g).1 in
  let p2 := (players g).2 in
  end_game gid None why st
  = State (delete gid (games st))
          (delete p2 (delete p1 (player_game st)))
          (waiting_player st) (rematch_offers st)
          (DB.reset_streak p2 (DB.reset_streak p1 (db st)))
          (without_clock g (tasks st)) (next_task st)
          (outbox st ++ [(p1, Draw why); (p2, Draw why);
                         (p1, RematchButton p1 p2);
                         (p2, RematchButton p1 p2)]).
Proof.
  intros Hg. unfold end_game. rewrite Hg, cancel_and_await_eq.
  destruct (players g) as [p1 p2].
  unfold without_clock.
  lazy beta iota zeta delta
    [offer_rematch_to_players send set_games set_player_game set_db
     set_tasks games player_game waiting_player rematch_offers db tasks
     next_task outbox fst snd].
  by rewrite <- !app_assoc.
Qed.



Lemma record_win_other user_id other db :
  other ≠ user_id -> DB.record_win user_id db !! other = db !! other.
Proof.
  intros Hne. unfold DB.record_win.
  rewrite !lookup_alter_ne by done. by rewrite insert_or_ignore_other.
Qed.

Lemma reset_streak_other user_id other db :
  other ≠ user_id -> DB.reset_streak user_id db !! other = db !! other.
Proof.
  intros Hne. unfold DB.reset_streak.
  rewrite lookup_alter_ne by done. by rewrite insert_or_ignore_other.
Qed.

Lemma raise_max_wins r : wins (DB.raise_max r) = wins r.
Proof.
  unfold DB.raise_max. by destruct (current_streak r >? max_streak r).
Qed.

Lemma raise_max_current r :
  current_streak (DB.raise_max r) = current_streak r.
Proof.
  unfold DB.raise_max. by destruct (current_streak r >? max_streak r).
Qed.

(** X7.  When a game of two different players ends with one of them as
    the winner, the winner's row gains one win and one on the current
    streak, the other player's row keeps its wins and best streak and
    has its current streak set to zero, and no other row changes.  When
    it ends without a winner, every row keeps its wins and both players'
    current streaks are zero. *)
Theorem end_game_scores gid g why st :
  games st !! gid = Some g ->
  (players g).1 ≠ (players g).2 ->
  (∀ winner,
     plays_in winner g ->
     let loser := other_player (players g) winner in
     let st' := end_game gid (Some winner) why st in
     loser ≠ winner ∧ plays_in loser g
     ∧ wins (row_of (db st') winner) = wins (row_of (db st) winner) + 1
     ∧ current_streak (row_of (db st') winner)
       = current_streak (row_of (db st) winner) + 1
     ∧ wins (row_of (db st') loser) = wins (row_of (db st) loser)
     ∧ max_streak (row_of (db st') loser) = max_streak (row_of (db st) loser)
     ∧ current_streak (row_of (db st') loser) = 0
     ∧ (∀ other, other ≠ winner -> other ≠ loser ->
          db st' !! other = db st !! other))
  ∧ (let st' := end_game gid None why st in
     (∀ user_id, wins (row_of (db st') user_id)
                 = wins (row_of (db st) user_id))
     ∧ current_streak (row_of (db st') (players g).1) = 0
     ∧ current_streak (row_of (db st') (players g).2) = 0).
Proof.
  intros Hg Hne. split.
  - intros winner Hin loser st'. subst st'.
    rewrite (end_game_winner gid g) by done. cbn [db].
    assert ((if decide (winner = (players g).2)
             then (players g).1 else (players g).2) = loser) as ->.
    { subst loser. unfold other_player, plays_in in *.
      destruct (decide (winner = (players g).2)),
               (decide ((players g).2 = winner)); congruence. }
    assert (loser ≠ winner ∧ plays_in loser g) as [Hlw Hlin].
    { subst loser. unfold other_player, plays_in in *.
      destruct (decide ((players g).2 = winner)) as [He|He].
      - split; [congruence|by left].
      - split; [|by right]. destruct Hin; congruence. }
    split; [done|]. split; [done|]. unfold row_of.
    rewrite (reset_streak_other loser winner) by done.
    rewrite record_win_lookup, reset_streak_lookup.
    unfold row_of. rewrite (record_win_other winner loser) by done.
    cbn [default from_option id].
    rewrite !raise_max_wins, !raise_max_current.
    repeat split.
    intros other Ho1 Ho2.
    by rewrite reset_streak_other, record_win_other.
  - intros st'. subst st'. rewrite (end_game_draw gid g) by done. cbn [db].
    unfold row_of. split; [|split].
    + intros user_id.
      destruct (decide (user_id = (players g).2)) as [->|H2].
      * rewrite reset_streak_lookup. unfold row_of.
        rewrite (reset_streak_other (players g).1 (players g).2) by done.
        done.
      * rewrite reset_streak_other by done.
        destruct (decide (user_id = (players g).1)) as [->|H1].
        -- by rewrite reset_streak_lookup.
        -- by rewrite reset_streak_other.
    + rewrite reset_streak_other by done. by rewrite reset_streak_lookup.
    + by rewrite reset_streak_lookup.
Qed.

End ScoreFacts.

(** ** What the bot sends *)

Section OutboxFacts.
Context {U : Unicode}.
Variable CITY_SET : gset str.
Variable P : Z * msg -> Prop.
Hypothesis P_plain :
  ∀ u m, m ≠ GameNotFound -> is_button m = false -> P (u, m).
Hypothesis P_button :
  ∀ p1 p2, P (p1, RematchButton p1 p2) ∧ P (p2, RematchButton p1 p2).

Lemma grows_refl st : grows P st st.
Proof. exists []. split; [by rewrite app_nil_r|constructor]. Qed.

Lemma grows_trans st1 st2 st3 :
  grows P st1 st2 -> grows P st2 st3 -> grows P st1 st3.
Proof.
  intros (l1 & H1 & Hl1) (l2 & H2 & Hl2). exists (l1 ++ l2).
  split; [by rewrite H2, H1, app_assoc|by apply Forall_app].
Qed.

Lemma grows_same st st0 st1 :
  outbox st1 = outbox st0 -> grows P st st0 -> grows P st st1.
Proof. intros Ho (l & H & Hl). exists l. by rewrite Ho. Qed.

Lemma grows_send st st0 u m :
  m ≠ GameNotFound -> is_button m = false ->
  grows P st st0 -> grows P st (send u m st0).
Proof.
  intros Hm Hb H. eapply grows_trans; [exact H|].
  exists [(u, m)]. split; [done|]. constructor; [by apply P_plain|constructor].
Qed.

Lemma grows_create_game p1 p2 first st :
  grows P st (create_game_between p1 p2 first st).
Proof.
  destruct (games st !! make_game_id p1 p2) as [g|] eqn:Hg.
  - rewrite create_game_between_registered by done. apply grows_refl.
  - rewrite create_game_between_eq by done. eexists. split; [done|].
    repeat (constructor; [by apply P_plain|]). constructor.
Qed.

Lemma grows_end_game gid winner why st :
  grows P st (end_game gid (Some winner) why st).
Proof.
  destruct (games st !! gid) as [g|] eqn:Hg.
  - rewrite (end_game_winner gid g) by done. eexists. split; [done|].
    destruct (P_button (players g).1 (players g).2) as [H1 H2].
    repeat (constructor; [by apply P_plain|]).
    constructor; [exact H1|]. constructor; [exact H2|constructor].
  - unfold end_game. rewrite Hg. apply grows_refl.
Qed.

Lemma grows_foldl_send st m (l : list Z) :
  m ≠ GameNotFound -> is_button m = false ->
  grows P st (foldl (fun st other => send other m st) st l).
Proof.
  intros Hm Hb.
  destruct (foldl_send_fields m l st) as (_ & _ & _ & _ & _ & _ & _ & Ho).
  exists (map (fun other => (other, m)) l). split; [exact Ho|].
  apply Forall_forall. intros x (y & -> & _)%list_elem_of_fmap.
  by apply P_plain.
Qed.

Lemma grows_set_rematch_offers f st st0 :
  grows P st st0 -> grows P st (set_rematch_offers f st0).
Proof. by apply grows_same. Qed.

Lemma grows_set_db f st st0 : grows P st st0 -> grows P st (set_db f st0).
Proof. by apply grows_same. Qed.

Lemma grows_set_waiting_player w st st0 :
  grows P st st0 -> grows P st (set_waiting_player w st0).
Proof. by apply grows_same. Qed.

Lemma grows_set_tasks f st st0 :
  grows P st st0 -> grows P st (set_tasks f st0).
Proof. by apply grows_same. Qed.

Ltac grow :=
  repeat first
    [ apply grows_refl
    | apply grows_send; [done|done|]
    | apply grows_set_rematch_offers
    | apply grows_set_db
    | apply grows_set_waiting_player
    | apply grows_set_tasks
    | apply grows_end_game
    | (eapply grows_trans; [|apply grows_create_game]) ].

Lemma grows_handle ev st :
  index_inv st -> grows P st (handle CITY_SET ev st).
Proof.
  intros [H1 H2]. destruct ev; cbn [handle].
  - unfold cmd_start. grow.
  - unfold cmd_play. repeat case_match; try case_decide; grow.
  - unfold cmd_leave. case_decide; grow.
  - unfold cmd_surrender.
    destruct (player_game st !! user_id) as [gid|] eqn:Hpg; [|grow].
    destruct (H2 _ _ Hpg) as (g & -> & _). grow.
  - unfold cmd_country. case_match; grow.
  - unfold cmd_cancel_rematch. case_match; [grow|].
    eapply grows_trans; [|by apply grows_foldl_send]. grow.
  - destruct (player_game st !! user_id) as [gid|] eqn:Hpg;
      [|unfold handle_move; rewrite Hpg; apply grows_refl].
    destruct (games st !! gid) as [g|] eqn:Hg;
      [|unfold handle_move; rewrite Hpg, Hg; apply grows_refl].
    pose proof (handle_move_cases CITY_SET st user_id text gid g Hpg Hg) as H.
    cbv zeta in H.
    destruct (submitMove_checks CITY_SET g user_id _) as [rejection|]
      eqn:Hchk.
    + rewrite H.
      apply submitMove_checks_kinds in Hchk
        as [->|[->|[->|[->|(needed & _ & ->)]]]]; grow.
    + destruct H as (_ & _ & _ & Ho & _). eexists. split; [exact Ho|].
      repeat (constructor; [by apply P_plain|]). constructor.
  - unfold callback_rematch. destruct data as [[p1 p2]|]; [|grow].
    repeat case_decide; try case_match; grow.
  - unfold turn_timeout. case_match; [|grow].
    case_match. apply grows_set_tasks. repeat case_match; grow.
Qed.

End OutboxFacts.

(** ** The reverse index, and leaving *)

Section LeaveFacts.
Context {U : Unicode}.
Variable CITY_SET : gset str.

Lemma reachable_grows (P : Z * msg -> Prop) st :
  (∀ u m, m ≠ GameNotFound -> is_button m = false -> P (u, m)) ->
  (∀ p1 p2, P (p1, RematchButton p1 p2) ∧ P (p2, RematchButton p1 p2)) ->
  reachable CITY_SET st -> Forall P (outbox st).
Proof.
  intros Hplain Hbutton. induction 1 as [|st ev Hr IH _]; [constructor|].
  destruct (grows_handle CITY_SET P Hplain Hbutton ev st
              (reachable_index_inv CITY_SET st Hr)) as (l & -> & Hl).
  by apply Forall_app.
Qed.


(** X8.  In every state the bot reaches the reverse index is sound: each
    entry of [player_game] leads to a registered session that lists the
    player, and each session is registered under the id of its two
    players.  So the "game not found" answer of [/surrender] is never
    sent. *)
Theorem index_is_sound st :
  reachable CITY_SET st ->
  (∀ u gid, player_game st !! u = Some gid ->
            ∃ g, games st !! gid = Some g ∧ plays_in u g)
  ∧ (∀ gid g, games st !! gid = Some g ->
              gid = make_game_id (players g).1 (players g).2)
  ∧ (∀ u, (u, GameNotFound) ∉ outbox st).
Proof.
  intros Hr. destruct (reachable_index_inv CITY_SET st Hr) as [H1 H2].
  split; [exact H2|]. split; [exact H1|].
  intros u Hin.
  assert (Forall (fun um : Z * msg => um.2 ≠ GameNotFound) (outbox st)) as Hall.
  { apply reachable_grows; [|by intros; split|exact Hr].
    by intros v m Hm _. }
  by apply (proj1 (Forall_forall _ _) Hall _ Hin).
Qed.

(** X9.  [/surrender] of a player who is not in a game only answers "not
    in a game".  In a state the bot reaches, [/surrender] of a player who
    is in a game ends that player's session: the session and both index
    entries are gone, the player is told of the loss and the opponent of
    the win, and the opponent's row gains one win. *)
Theorem surrender_ends_the_game :
  (∀ st user_id,
     player_game st !! user_id = None ->
     cmd_surrender user_id st = send user_id NotInGame st)
  ∧ (∀ st user_id gid,
       reachable CITY_SET st ->
       player_game st !! user_id = Some gid ->
       ∃ g, games st !! gid = Some g ∧ plays_in user_id g
            ∧ let opponent := other_player (players g) user_id in
              let st' := cmd_surrender user_id st in
              opponent ≠ user_id ∧ plays_in opponent g
              ∧ games st' !! gid = None
              ∧ player_game st' !! user_id = None
              ∧ player_game st' !! opponent = None
              ∧ (user_id, YouLost opponent Surrendered) ∈ outbox st'
              ∧ (opponent, YouWon user_id Surrendered) ∈ outbox st'
              ∧ wins (row_of (db st') opponent)
                = wins (row_of (db st) opponent) + 1).
Proof.
  split.
  - intros st user_id Hpg. unfold cmd_surrender. by rewrite Hpg.
  - intros st user_id gid Hr Hpg.
    destruct (reachable_index_inv CITY_SET st Hr) as [_ H2].
    destruct (H2 _ _ Hpg) as (g & Hg & Hin).
    destruct (reachable_sessions_wf CITY_SET st Hr) as [Hs _].
    destruct (Hs _ _ Hg) as [Hne _].
    exists g. split; [done|]. split; [done|]. intros opponent st'.
    assert (opponent ≠ user_id ∧ plays_in opponent g) as [Hou Hoin].
    { subst opponent. unfold other_player, plays_in in *.
      destruct (decide ((players g).2 = user_id)) as [He|He].
      - split; [congruence|by left].
      - split; [|by right]. destruct Hin; congruence. }
    split; [done|]. split; [done|].
    subst st'. unfold cmd_surrender. rewrite Hpg, Hg.
    rewrite (end_game_winner gid g) by done.
    rewrite (forfeit_loser (players g) user_id) by done. fold opponent.
    cbn [games player_game outbox db].
    split; [apply lookup_delete_eq|].
    assert (∀ u, plays_in u g ->
              delete (players g).2 (delete (players g).1 (player_game st))
              !! u = None) as Hgone.
    { intros u [->| ->].
      - destruct (decide ((players g).2 = (players g).1)) as [->|Hd].
        + apply lookup_delete_eq.
        + rewrite lookup_delete_ne by done. apply lookup_delete_eq.
      - apply lookup_delete_eq. }
    split; [by apply Hgone|]. split; [by apply Hgone|].
    split; [apply elem_of_app; right; right; by left|].
    split; [apply elem_of_app; right; by left|].
    unfold row_of. rewrite reset_streak_other by done.
    rewrite record_win_lookup. cbn [default from_option id].
    by rewrite raise_max_wins.
Qed.

(** X10.  [/leave] touches nothing but the waiting slot and the outbox: it
    clears the slot when the player who asks is the one waiting, and
    leaves it alone otherwise.  A [/play] of a player who is in no game,
    sent while nobody waits, followed by that player's [/leave], leaves
    the slot empty and the sessions as they were. *)
Theorem leave_clears_own_slot st user_id :
  let st' := cmd_leave user_id st in
  games st' = games st ∧ player_game st' = player_game st
  ∧ rematch_offers st' = rematch_offers st ∧ db st' = db st
  ∧ tasks st' = tasks st
  ∧ (waiting_player st = Some user_id ->
     waiting_player st' = None
     ∧ outbox st' = outbox st ++ [(user_id, LeftQueue)])
  ∧ (waiting_player st ≠ Some user_id ->
     waiting_player st' = waiting_player st
     ∧ outbox st' = outbox st ++ [(user_id, NotInQueue)])
  ∧ (∀ uname,
       is_user_in_game user_id st = false -> waiting_player st = None ->
       let st'' := cmd_leave user_id (cmd_play user_id uname st) in
       waiting_player st'' = None ∧ games st'' = games st
       ∧ player_game st'' = player_game st
       ∧ outbox st'' = outbox st ++ [(user_id, Queued); (user_id, LeftQueue)]).
Proof.
  intros st'. subst st'. unfold cmd_leave.
  destruct (decide (waiting_player st = Some user_id)) as [Hw|Hw].
  - do 5 (split; [done|]). split; [intros _; by split|].
    split; [intros Hne; by destruct Hne|].
    intros uname Hfree Hnone. congruence.
  - do 5 (split; [done|]). split; [intros Hs; by destruct Hw|].
    split; [intros _; by split|].
    intros uname Hfree Hnone.
    assert (cmd_play user_id uname st
            = send user_id Queued
                (set_waiting_player (Some user_id)
                   (set_db (DB.add_or_update_player user_id uname) st)))
      as ->.
    { unfold cmd_play. rewrite is_user_in_game_set_db, Hfree.
      cbn [waiting_player set_db]. by rewrite Hnone. }
    rewrite decide_True by done.
    cbn [waiting_player games player_game outbox send set_waiting_player
         set_db].
    by rewrite <- app_assoc.
Qed.

End LeaveFacts.

(** ** Pending rematch offers *)

Section OfferFacts.
Context {U : Unicode}.
Variable CITY_SET : gset str.









End OfferFacts.

Section CancelFacts.

Lemma cmd_cancel_rematch_fields user_id st :
  let st' := cmd_cancel_rematch user_id st in
  let hit := filter (fun kv : (Z * Z) * gset Z => user_id ∈ kv.2)
                    (map_to_list (rematch_offers st)) in
  games st' = games st ∧ player_game st' = player_game st
  ∧ waiting_player st' = waiting_player st ∧ db st' = db st
  ∧ tasks st' = tasks st ∧ next_task st' = next_task st
  ∧ rematch_offers st' = omap (withdraw_from user_id) (rematch_offers st)
  ∧ outbox st'
    = outbox st ++
      match hit with
      | [] => [(user_id, NoRematchOffers)]
      | _ => (user_id, RematchOfferCancelled)
             :: map (fun kv : (Z * Z) * gset Z =>
                       (other_player kv.1 user_id, OpponentCancelledOffer)) hit
      end.
Proof.
  intros st' hit. subst st'. unfold cmd_cancel_rematch. fold hit.
  destruct hit as [|kv hit'] eqn:Hhit; [done|].
  match goal with |- context [foldl _ ?s ?l] =>
    destruct (foldl_send_fields OpponentCancelledOffer l s)
      as (-> & -> & -> & -> & -> & -> & -> & ->) end.
  cbn [games player_game waiting_player db tasks next_task rematch_offers
       outbox send set_rematch_offers].
  do 7 (split; [done|]).
  rewrite <- app_assoc. f_equal. cbn [app]. f_equal.
  by rewrite map_map.
Qed.

Lemma withdraw_from_absent (user_id : Z) (m : gmap (Z * Z) (gset Z)) :
  (∀ key offers, m !! key = Some offers -> user_id ∉ offers) ->
  omap (withdraw_from user_id) m = m.
Proof.
  intros Hno. apply map_eq. intros key. rewrite lookup_omap.
  destruct (m !! key) as [o|] eqn:Ho; [|done]. cbn.
  unfold withdraw_from. by rewrite decide_False by by eapply Hno.
Qed.

(** X12.  [/cancel_rematch] withdraws the user's consent from every
    pending offer at once: afterwards no offer holds it, an offer that it
    leaves without consents is dropped, the offers that did not hold it are as
    they were, and the other player of each offer that held it is told.
    Sessions, the queue, the statistics and the clocks are not touched;
    and a user with no consent pending only gets the reply that there is
    nothing to cancel. *)
Theorem cancel_rematch_withdraws_everywhere user_id st :
  let st' := cmd_cancel_rematch user_id st in
  (games st' = games st ∧ player_game st' = player_game st
   ∧ waiting_player st' = waiting_player st ∧ db st' = db st
   ∧ tasks st' = tasks st)
  ∧ (∀ key offers, rematch_offers st' !! key = Some offers ->
       (user_id ∉ offers)
       ∧ ∃ before, rematch_offers st !! key = Some before
                   ∧ offers = before ∖ {[user_id]})
  ∧ (∀ key offers, rematch_offers st !! key = Some offers ->
       user_id ∉ offers -> rematch_offers st' !! key = Some offers)
  ∧ (∀ key offers, rematch_offers st !! key = Some offers ->
       user_id ∈ offers ->
       rematch_offers st' !! key
       = (if decide (offers ∖ {[user_id]} = ∅) then None
          else Some (offers ∖ {[user_id]}))
       ∧ (user_id, RematchOfferCancelled) ∈ outbox st'
       ∧ (other_player key user_id, OpponentCancelledOffer) ∈ outbox st')
  ∧ ((∀ key offers, rematch_offers st !! key = Some offers ->
        user_id ∉ offers) ->
     st' = send user_id NoRematchOffers st).
Proof.
  intros st'.
  destruct (cmd_cancel_rematch_fields user_id st)
    as (Hg & Hpg & Hw & Hdb & Ht & Hn & Hr & Ho).
  fold st' in Hg, Hpg, Hw, Hdb, Ht, Hn, Hr, Ho.
  split; [done|]. split; [|split; [|split]].
  - intros key offers. rewrite Hr, lookup_omap.
    destruct (rematch_offers st !! key) as [o|] eqn:Hl; [|done]. cbn.
    unfold withdraw_from. destruct (decide (user_id ∈ o)) as [Hin|Hnot].
    + case_decide as He; [done|]. intros [= <-].
      split; [|by exists o].
      rewrite elem_of_difference, elem_of_singleton. tauto.
    + intros [= <-]. split; [done|].
      exists o. split; [done|]. apply set_eq. intros x.
      rewrite elem_of_difference, elem_of_singleton.
      split; [|tauto]. intros Hx. split; [done|]. by intros ->.
  - intros key offers Hl Hnot. rewrite Hr, lookup_omap, Hl. cbn.
    unfold withdraw_from. by rewrite decide_False.
  - intros key offers Hl Hin. split.
    { rewrite Hr, lookup_omap, Hl. cbn. unfold withdraw_from.
      by rewrite decide_True. }
    assert ((key, offers)
            ∈ filter (fun kv : (Z * Z) * gset Z => user_id ∈ kv.2)
                     (map_to_list (rematch_offers st))) as Hhit.
    { apply list_elem_of_filter. split; [done|].
      by apply elem_of_map_to_list. }
    rewrite Ho.
    destruct (filter _ _) as [|kv hit'] eqn:Hf.
    { by apply elem_of_nil in Hhit. }
    split; apply elem_of_app; right; [by left|]. right.
    apply (list_elem_of_fmap_2
             (fun kv : (Z * Z) * gset Z =>
                (other_player kv.1 user_id, OpponentCancelledOffer))
             _ (key, offers)) in Hhit. exact Hhit.
  - intros Hno. unfold st', cmd_cancel_rematch.
    destruct (filter _ _) as [|kv hit'] eqn:Hf.
    + unfold set_rematch_offers. rewrite withdraw_from_absent by done.
      by destruct st.
    + assert (kv ∈ filter (fun kv : (Z * Z) * gset Z => user_id ∈ kv.2)
                          (map_to_list (rematch_offers st))) as Hin
        by (rewrite Hf; by left).
      apply list_elem_of_filter in Hin as [Hin Hl].
      destruct kv as [key o]. apply elem_of_map_to_list in Hl.
      by destruct (Hno _ _ Hl).
Qed.

End CancelFacts.

(** ** The read queries of the statistics *)

Section RankFacts.

Lemma text_le_total a b : DB.text_le a b = true ∨ DB.text_le b a = true.
Proof.
  revert b. induction a as [|x a IH]; intros [|y b]; cbn; auto.
  destruct (N.compare_spec x y) as [->|Hlt|Hlt].
  - rewrite N.ltb_irrefl, N.eqb_refl. apply IH.
  - left. by rewrite (proj2 (N.ltb_lt x y)).
  - right. by rewrite (proj2 (N.ltb_lt y x)).
Qed.

Lemma text_le_trans a b c :
  DB.text_le a b = true -> DB.text_le b c = true -> DB.text_le a c = true.
Proof.
  revert b c. induction a as [|x a IH]; intros [|y b] [|z c]; cbn; try done.
  destruct (N.ltb_spec x y), (N.eqb_spec x y), (N.ltb_spec y z),
    (N.eqb_spec y z), (N.ltb_spec x z), (N.eqb_spec x z);
    try done; try lia; subst; eauto.
Qed.

#[local] Instance top_order_total : Total DB.top_order.
Proof.
  intros a b. unfold DB.top_order.
  destruct (Z.lt_trichotomy (wins a.2) (wins b.2)) as [Hlt|[Heq|Hlt]].
  - right. by left.
  - destruct (text_le_total (username a.2) (username b.2)).
    + left. right. by split.
    + right. right. by split.
  - left. by left.
Qed.

#[local] Instance top_order_trans : Transitive DB.top_order.
Proof.
  intros a b c [H1|[H1 T1]] [H2|[H2 T2]].
  - left. lia.
  - left. lia.
  - left. lia.
  - right. split; [lia|]. by eapply text_le_trans.
Qed.

Lemma top_order_wins a b : DB.top_order a b -> wins b.2 <= wins a.2.
Proof. intros [H|[H _]]; lia. Qed.

Lemma higher_lookup w (db : gmap Z row) user_id :
  filter (fun kv : Z * row => w < wins kv.2) db !! user_id
  = match db !! user_id with
    | Some r => if decide (w < wins r) then Some r else None
    | None => None
    end.
Proof.
  apply option_eq. intros r. rewrite map_lookup_filter_Some. cbn.
  destruct (db !! user_id) as [r'|]; [|by split; [intros []|]].
  case_decide as Hw.
  - split; [by intros []|]. by intros [= <-].
  - split; [|done]. intros [[= <-] Hr]. by destruct Hw.
Qed.

(** What a write of one row does to the count of [COUNT( * ) ... WHERE
    wins > ?]. *)
Lemma count_higher_insert w user_id r' (db : gmap Z row) :
  DB.count_higher w (<[user_id := r']> db)
  = DB.count_higher w db
    + (if decide (w < wins r') then 1 else 0)
    - match db !! user_id with
      | Some r => if decide (w < wins r) then 1 else 0
      | None => 0
      end.
Proof.
  unfold DB.count_higher. rewrite map_filter_insert. cbn [snd].
  pose proof (higher_lookup w db user_id) as Hl.
  destruct (decide (w < wins r')) as [Hw|Hw].
  - rewrite map_size_insert, Hl.
    destruct (db !! user_id) as [r|]; [case_decide|]; cbn; lia.
  - rewrite map_filter_delete, map_size_delete, Hl.
    destruct (db !! user_id) as [r|]; [case_decide as Hr|]; cbn; try lia.
    assert (size (filter (fun kv : Z * row => w < wins kv.2) db) ≠ 0%nat).
    { apply (map_size_ne_0_lookup_2 _ user_id). rewrite Hl. by eexists. }
    lia.
Qed.

Lemma count_higher_list w (db : gmap Z row) :
  DB.count_higher w db
  = Z.of_nat (length (filter (fun kv : Z * row => w < wins kv.2)
                             (map_to_list db))).
Proof.
  unfold DB.count_higher. f_equal.
  rewrite map_filter_alt, map_size_list_to_map; [done|].
  apply NoDup_fmap_fst.
  - intros x y1 y2 [_ H1%elem_of_map_to_list]%list_elem_of_filter
                   [_ H2%elem_of_map_to_list]%list_elem_of_filter.
    congruence.
  - apply NoDup_filter, NoDup_map_to_list.
Qed.

Lemma count_higher_bounds w (db : gmap Z row) user_id r :
  db !! user_id = Some r -> wins r <= w ->
  0 <= DB.count_higher w db < Z.of_nat (size db).
Proof.
  intros Hl Hw. rewrite count_higher_list, <- length_map_to_list.
  split; [lia|]. apply inj_lt.
  apply (length_filter_lt _ _ (user_id, r)).
  - by apply elem_of_map_to_list.
  - cbn. lia.
Qed.

Lemma count_higher_mono w w' (db : gmap Z row) :
  w <= w' -> DB.count_higher w' db <= DB.count_higher w db.
Proof.
  intros Hw. unfold DB.count_higher. apply inj_le, map_subseteq_size.
  apply map_subseteq_spec. intros i x.
  rewrite !map_lookup_filter_Some. cbn. intros [? ?]. split; [done|lia].
Qed.

Lemma count_higher_strict w (db : gmap Z row) user_id r :
  db !! user_id = Some r -> w < wins r ->
  DB.count_higher (wins r) db < DB.count_higher w db.
Proof.
  intros Hl Hw. unfold DB.count_higher. apply inj_lt, map_subset_size.
  split.
  - apply map_subseteq_spec. intros i x.
    rewrite !map_lookup_filter_Some. cbn. intros [? ?]. split; [done|lia].
  - intros Hsub.
    assert (filter (fun kv : Z * row => w < wins kv.2) db !! user_id
            = Some r) as Hin by by apply map_lookup_filter_Some.
    eapply lookup_weaken in Hin; [|exact Hsub].
    apply map_lookup_filter_Some in Hin as [_ Hin]. cbn in Hin. lia.
Qed.

(** X13.  The rank of [/myrank].  A user without a row has no rank and
    zero points.  A user with a row gets the wins of the row as points and
    a rank between 1 and the number of rows, which is one more than the
    number of rows with more wins: so the rank is 1 exactly when nobody
    has more wins, a player with more wins has a better rank, and players
    with equal wins share a rank. *)
Theorem rank_reflects_wins (db : gmap Z row) :
  (∀ user_id, db !! user_id = None ->
     DB.get_player_rank_and_points user_id db = (None, 0))
  ∧ (∀ user_id r, db !! user_id = Some r ->
       ∃ rank, DB.get_player_rank_and_points user_id db = (Some rank, wins r)
               ∧ 1 <= rank <= Z.of_nat (size db)
               ∧ (rank = 1 ↔ ∀ v r', db !! v = Some r' -> wins r' <= wins r))
  ∧ (∀ u v ru rv rank_u rank_v,
       db !! u = Some ru -> db !! v = Some rv ->
       (DB.get_player_rank_and_points u db).1 = Some rank_u ->
       (DB.get_player_rank_and_points v db).1 = Some rank_v ->
       (wins ru < wins rv -> rank_v < rank_u)
       ∧ (wins ru = wins rv -> rank_u = rank_v)).
Proof.
  split; [|split].
  - intros user_id Hl. unfold DB.get_player_rank_and_points. by rewrite Hl.
  - intros user_id r Hl. unfold DB.get_player_rank_and_points. rewrite Hl.
    eexists. split; [done|].
    pose proof (count_higher_bounds (wins r) db user_id r Hl
                  ltac:(lia)) as Hb.
    split; [lia|]. split.
    + intros Hone v r' Hv.
      destruct (decide (wins r' <= wins r)) as [|Hgt]; [done|].
      pose proof (count_higher_strict (wins r) db v r' Hv ltac:(lia)).
      pose proof (count_higher_bounds (wins r') db v r' Hv ltac:(lia)).
      lia.
    + intros Hmax.
      assert (DB.count_higher (wins r) db = 0) as ->; [|done].
      unfold DB.count_higher.
      assert (filter (fun kv : Z * row => wins r < wins kv.2) db = ∅) as ->.
      { apply map_empty. intros i. apply eq_None_not_Some. intros [x Hx].
        apply map_lookup_filter_Some in Hx as [Hx Hw]. cbn in Hw.
        specialize (Hmax _ _ Hx). lia. }
      by rewrite map_size_empty.
  - intros u v ru rv rank_u rank_v Hu Hv.
    unfold DB.get_player_rank_and_points. rewrite Hu, Hv. cbn.
    intros [= <-] [= <-]. split.
    + intros Hlt. pose proof (count_higher_strict (wins ru) db v rv Hv Hlt).
      lia.
    + by intros ->.
Qed.

(** X14.  [/profile] and [/myrank] agree: a user has a profile exactly
    when [/myrank] has a rank, and then the profile shows that rank and
    those points, under the user's own id and a name that is not empty. *)
Theorem profile_agrees_with_rank user_id (db : gmap Z row) :
  match DB.get_player_profile user_id db with
  | None => DB.get_player_rank_and_points user_id db = (None, 0)
  | Some p =>
      DB.get_player_rank_and_points user_id db
      = (Some (DB.profile_rank p), DB.profile_wins p)
      ∧ DB.profile_user_id p = user_id
      ∧ DB.profile_username p ≠ []
      ∧ ∃ r, db !! user_id = Some r
             ∧ DB.profile_country p = country r
             ∧ DB.profile_current_streak p = current_streak r
             ∧ DB.profile_max_streak p = max_streak r
  end.
Proof.
  unfold DB.get_player_profile, DB.get_player_rank_and_points.
  destruct (db !! user_id) as [r|]; [|done].
  cbn [DB.profile_rank DB.profile_wins DB.profile_user_id
       DB.profile_username DB.profile_country DB.profile_current_streak
       DB.profile_max_streak].
  do 2 (split; [done|]). split; [|by exists r].
  unfold DB.or_Player. destruct (username r); [|done].
  by vm_compute.
Qed.

Lemma record_win_insert user_id (db : gmap Z row) r :
  db !! user_id = Some r ->
  DB.record_win user_id db
  = <[user_id := DB.raise_max (DB.bump r)]> db.
Proof.
  intros Hl. unfold DB.record_win, DB.insert_or_ignore. rewrite Hl.
  rewrite alter_alter_eq. by rewrite (alter_alt_Some _ _ _ r).
Qed.

(** X15.  What a win does to the ranking.  For a player with a row,
    [record_win] raises the points by one and never worsens the rank; the
    points of everyone else stay, and the rank of another player drops by
    one place exactly when the winner had the same number of wins, and
    stays otherwise. *)
Theorem win_moves_the_ranking user_id (db : gmap Z row) r :
  db !! user_id = Some r ->
  let db' := DB.record_win user_id db in
  (∃ rank rank',
     DB.get_player_rank_and_points user_id db = (Some rank, wins r)
     ∧ DB.get_player_rank_and_points user_id db' = (Some rank', wins r + 1)
     ∧ rank' <= rank)
  ∧ (∀ v rv, v ≠ user_id -> db !! v = Some rv ->
       ∃ rank,
         DB.get_player_rank_and_points v db = (Some rank, wins rv)
         ∧ DB.get_player_rank_and_points v db'
           = (Some (if decide (wins rv = wins r) then rank + 1 else rank),
              wins rv)).
Proof.
  intros Hl db'. subst db'. rewrite (record_win_insert _ _ r Hl).
  assert (wins (DB.raise_max (DB.bump r)) = wins r + 1) as Hw.
  { unfold DB.raise_max, DB.bump. cbn. by case_match. }
  unfold DB.get_player_rank_and_points. split.
  - rewrite Hl, lookup_insert_eq, Hw. do 2 eexists.
    split; [done|]. split; [done|].
    rewrite count_higher_insert, Hl, Hw.
    rewrite decide_False by lia. rewrite decide_False by lia.
    pose proof (count_higher_mono (wins r) (wins r + 1) db ltac:(lia)). lia.
  - intros v rv Hne Hv. rewrite Hv, lookup_insert_ne, Hv by done.
    eexists. split; [done|]. f_equal. f_equal.
    rewrite count_higher_insert, Hl, Hw.
    repeat case_decide; lia.
Qed.

End RankFacts.

Section BoardFacts.

#[local] Existing Instance top_order_total.
#[local] Existing Instance top_order_trans.

Lemma rank_after_rewrite (f : row -> row) user_id name (db : gmap Z row) :
  db_ok db -> (∀ r, wins (f r) = wins r) ->
  ∀ v rv, db !! v = Some rv ->
    DB.get_player_rank_and_points v
      (alter f user_id (DB.insert_or_ignore user_id name db))
    = DB.get_player_rank_and_points v db.
Proof.
  intros Hok Hf v rv Hv.
  assert (∃ r,
            alter f user_id (DB.insert_or_ignore user_id name db)
            = <[user_id := f r]> db
            ∧ match db !! user_id with
              | Some r0 => r0 = r
              | None => wins r = 0
              end) as (r & -> & Hr).
  { unfold DB.insert_or_ignore.
    destruct (db !! user_id) as [r|] eqn:Hu.
    - exists r. split; [by apply alter_alt_Some|done].
    - eexists. split; [by rewrite alter_insert_eq|done]. }
  unfold DB.get_player_rank_and_points.
  assert (DB.count_higher (wins rv) (<[user_id := f r]> db)
          = DB.count_higher (wins rv) db) as Hc.
  { rewrite count_higher_insert, Hf.
    destruct (db !! user_id) as [r0|]; [subst r0; lia|].
    destruct (Hok _ _ Hv) as (? & ? & ?).
    rewrite decide_False by lia. lia. }
  destruct (decide (v = user_id)) as [->|Hne].
  - rewrite lookup_insert_eq, Hv, Hf. rewrite Hv in Hr. subst r.
    by rewrite Hc.
  - rewrite lookup_insert_ne, Hv by done. by rewrite Hc.
Qed.

Lemma row_after_rewrite (f : row -> row) user_id name (db : gmap Z row) :
  let db' := alter f user_id (DB.insert_or_ignore user_id name db) in
  is_Some (db' !! user_id)
  ∧ ∀ v rv, db !! v = Some rv ->
      db' !! v = Some (if decide (v = user_id) then f rv else rv).
Proof.
  intros db'. subst db'. split.
  - rewrite lookup_alter_eq, insert_or_ignore_lookup.
    destruct (db !! user_id); by eexists.
  - intros v rv Hv. destruct (decide (v = user_id)) as [->|Hne].
    + by rewrite lookup_alter_eq, insert_or_ignore_lookup, Hv.
    + by rewrite lookup_alter_ne, insert_or_ignore_other.
Qed.

(** X16.  The writes that are not wins leave the ranking alone.  On
    consistent statistics, [add_or_update_player], [set_country] and
    [reset_streak] give the user a row if there was none, and change
    nobody's rank or points: a row that existed keeps its wins and its
    best streak, and the rows of other users are not changed at all. *)
Theorem bookkeeping_keeps_the_ranking (db : gmap Z row) user_id uname c :
  db_ok db ->
  ∀ db', db' ∈ [DB.add_or_update_player user_id uname db;
                DB.set_country user_id c db;
                DB.reset_streak user_id db] ->
    is_Some (db' !! user_id)
    ∧ ∀ v rv, db !! v = Some rv ->
        DB.get_player_rank_and_points v db'
        = DB.get_player_rank_and_points v db
        ∧ ∃ rv', db' !! v = Some rv'
                 ∧ wins rv' = wins rv ∧ max_streak rv' = max_streak rv
                 ∧ (v ≠ user_id -> rv' = rv).
Proof.
  intros Hok db' Hin.
  assert (∃ f name,
            db' = alter f user_id (DB.insert_or_ignore user_id name db)
            ∧ ∀ r, wins (f r) = wins r ∧ max_streak (f r) = max_streak r)
    as (f & name & -> & Hf).
  { apply elem_of_cons in Hin as [->|Hin];
      [|apply elem_of_cons in Hin as [->|Hin];
        [|apply list_elem_of_singleton in Hin as ->]].
    - by eexists _, _.
    - by eexists _, _.
    - by eexists _, _. }
  destruct (row_after_rewrite f user_id name db) as [Hsome Hrow].
  split; [done|]. intros v rv Hv. split.
  - apply (rank_after_rewrite f user_id name db Hok (fun r => proj1 (Hf r))
             v rv Hv).
  - rewrite (Hrow _ _ Hv). eexists. split; [done|].
    case_decide; [|done]. destruct (Hf rv). by repeat split.
Qed.

Lemma sorted_later {A} (R : relation A) (l : list A) i j a b :
  StronglySorted R l -> l !! i = Some a -> l !! j = Some b ->
  (i < j)%nat -> R a b.
Proof.
  intros HS Hi Hj Hlt. rewrite <- (take_drop j l) in HS.
  eapply StronglySorted_app_1_elem_of; [exact HS| |].
  - apply elem_of_take. eauto.
  - apply list_elem_of_lookup. exists 0%nat.
    by rewrite lookup_drop, Nat.add_0_r.
Qed.

Lemma filter_none {A} (P : A -> Prop) `{!∀ x, Decision (P x)} (l : list A) :
  Forall (fun x => ¬ P x) l -> filter P l = [].
Proof.
  induction 1 as [|x l Hx _ IH]; [done|].
  by rewrite filter_cons_False.
Qed.

Lemma number_rows_lookup k rows i :
  DB.number_rows k rows !! i
  = (fun kv : Z * row =>
       DB.TopEntry (k + Z.of_nat i) (DB.or_Player (Some (username kv.2)))
                   (country kv.2) (wins kv.2) (max_streak kv.2))
      <$> rows !! i.
Proof.
  revert k i. induction rows as [|[u r] rows IH]; intros k [|i]; cbn.
  - done.
  - done.
  - by rewrite Z.add_0_r.
  - rewrite IH. destruct (rows !! i); [|done]. cbn.
    do 2 f_equal. lia.
Qed.

Lemma number_rows_length k rows :
  length (DB.number_rows k rows) = length rows.
Proof.
  revert k. induction rows as [|[u r] rows IH]; intros k; cbn; [done|].
  by rewrite IH.
Qed.

(** The rows before a row in the sorted table are all there is with more
    wins. *)
Lemma count_higher_position (db : gmap Z row) i kv :
  merge_sort DB.top_order (map_to_list db) !! i = Some kv ->
  DB.count_higher (wins kv.2) db <= Z.of_nat i.
Proof.
  intros Hi. rewrite count_higher_list.
  rewrite <- (merge_sort_Permutation DB.top_order (map_to_list db)).
  pose proof (StronglySorted_merge_sort DB.top_order (map_to_list db)) as HS.
  set (l := merge_sort DB.top_order (map_to_list db)) in *.
  rewrite <- (take_drop i l), filter_app, length_app.
  rewrite (filter_none _ (drop i l)).
  - cbn. pose proof (length_filter (fun kv' : Z * row => wins kv.2 < wins kv'.2)
                       (take i l)).
    pose proof (length_take_le l i
                  ltac:(apply Nat.lt_le_incl; by eapply lookup_lt_Some)).
    lia.
  - apply Forall_forall. intros x [k Hk]%list_elem_of_lookup.
    rewrite lookup_drop in Hk. cbn. destruct k as [|k].
    + rewrite Nat.add_0_r in Hk. assert (x = kv) as -> by congruence. lia.
    + pose proof (sorted_later _ l i (i + S k) kv x HS Hi Hk ltac:(lia))
        as Ho%top_order_wins. lia.
Qed.

(** X17.  The board of [/top].  It lists the first fifty rows of the table
    in the order of wins, or all of them when there are fewer.  Entries are
    numbered 1, 2, 3, ... in order; each shows a row of the table, with a
    name that is not empty; wins never go up along the board; a row with
    more wins than some listed row is listed itself; and the number on the
    board is never better than the rank [/myrank] gives for the same wins:
    the two differ where players tie. *)
Theorem top50_board (db : gmap Z row) :
  let top := DB.get_top50 db in
  length top = Nat.min 50 (size db)
  ∧ (∀ i e, top !! i = Some e ->
       DB.top_rank e = Z.of_nat i + 1
       ∧ DB.top_username e ≠ []
       ∧ ∃ user_id r,
           db !! user_id = Some r
           ∧ DB.select_top50 db !! i = Some (user_id, r)
           ∧ DB.top_username e = DB.or_Player (Some (username r))
           ∧ DB.top_country e = country r
           ∧ DB.top_wins e = wins r
           ∧ DB.top_max_streak e = max_streak r
           ∧ ∃ rank, DB.get_player_rank_and_points user_id db
                     = (Some rank, wins r)
                     ∧ rank <= DB.top_rank e)
  ∧ (∀ i j e e', (i <= j)%nat -> top !! i = Some e -> top !! j = Some e' ->
       DB.top_wins e' <= DB.top_wins e)
  ∧ (∀ user_id r kv, db !! user_id = Some r ->
       kv ∈ DB.select_top50 db -> wins kv.2 < wins r ->
       (user_id, r) ∈ DB.select_top50 db).
Proof.
  intros top. subst top. unfold DB.get_top50, DB.select_top50.
  pose proof (StronglySorted_merge_sort DB.top_order (map_to_list db)) as HS.
  pose proof (merge_sort_Permutation DB.top_order (map_to_list db)) as HP.
  assert (∀ i e,
            DB.number_rows 1
              (take 50 (merge_sort DB.top_order (map_to_list db))) !! i
            = Some e ->
            ∃ kv, merge_sort DB.top_order (map_to_list db) !! i = Some kv
                  ∧ (i < 50)%nat
                  ∧ e = DB.TopEntry (1 + Z.of_nat i)
                          (DB.or_Player (Some (username kv.2)))
                          (country kv.2) (wins kv.2) (max_streak kv.2))
    as Hentry.
  { intros i e. rewrite number_rows_lookup.
    destruct (take 50 _ !! i) as [kv|] eqn:Hk; [|done].
    apply lookup_take_Some in Hk as [Hk Hlt]. intros [= <-]. by exists kv. }
  set (l := merge_sort DB.top_order (map_to_list db)) in *.
  split; [|split; [|split]].
  - rewrite number_rows_length, length_take.
    by rewrite HP, length_map_to_list.
  - intros i e (kv & Hk & Hlt & ->)%Hentry. cbn.
    split; [lia|]. split.
    { unfold DB.or_Player. destruct (username kv.2); [by vm_compute|done]. }
    destruct kv as [u r]. exists u, r. cbn.
    assert (db !! u = Some r) as Hu.
    { apply elem_of_map_to_list. rewrite <- HP.
      by eapply list_elem_of_lookup_2. }
    split; [done|]. split; [by apply lookup_take_Some|].
    do 4 (split; [done|]).
    unfold DB.get_player_rank_and_points. rewrite Hu.
    eexists. split; [done|].
    pose proof (count_higher_position db i (u, r) Hk). cbn in *. lia.
  - intros i j e e' Hij (kv & Hk & _ & ->)%Hentry (kv' & Hk' & _ & ->)%Hentry.
    cbn. destruct (decide (i = j)) as [->|Hne].
    + assert (kv = kv') as -> by congruence. lia.
    + apply (top_order_wins kv kv').
      by apply (sorted_later _ l i j); [..|lia].
  - intros u r kv Hu [i [Hi Hlt]]%elem_of_take Hw.
    assert ((u, r) ∈ l) as [j Hj]%list_elem_of_lookup.
    { rewrite HP. by apply elem_of_map_to_list. }
    apply elem_of_take. exists j. split; [done|].
    destruct (decide (j < 50)%nat) as [|Hge]; [done|].
    pose proof (sorted_later _ l i j kv (u, r) HS Hi Hj ltac:(lia))
      as Ho%top_order_wins. cbn in Ho. lia.
Qed.

End BoardFacts.

Section IdFacts.

(** X18.  Session ids and offer keys do not depend on the order of the
    two players, and two pairs get the same one exactly when they are the
    same two players. *)
Theorem make_game_id_unordered a b c d :
  make_game_id a b = make_game_id b a
  ∧ pair_key a b = pair_key b a
  ∧ (make_game_id a b = make_game_id c d
     ↔ (a = c ∧ b = d) ∨ (a = d ∧ b = c))
  ∧ (pair_key a b = pair_key c d
     ↔ (a = c ∧ b = d) ∨ (a = d ∧ b = c)).
Proof.
  unfold make_game_id, pair_key.
  split; [by rewrite Z.min_comm, Z.max_comm|].
  split; [by rewrite Z.min_comm, Z.max_comm|].
  split.
  - split.
    + intros [= Hmin Hmax]. lia.
    + intros [[-> ->]|[-> ->]]; [done|]. by rewrite Z.min_comm, Z.max_comm.
  - split.
    + intros [= Hmin Hmax]. lia.
    + intros [[-> ->]|[-> ->]]; [done|]. by rewrite Z.min_comm, Z.max_comm.
Qed.

End IdFacts.

Section CountryFacts.

Lemma or_Player_filled uname : DB.or_Player uname ≠ [].
Proof. destruct uname as [[|x s]|]; [by vm_compute|done|by vm_compute]. Qed.

Lemma or_Player_idem uname :
  DB.or_Player (Some (DB.or_Player uname)) = DB.or_Player uname.
Proof.
  pose proof (or_Player_filled uname) as Hne.
  unfold DB.or_Player at 1. by destruct (DB.or_Player uname).
Qed.

(** X19.  [/country] with an argument shows in [/profile].  On consistent
    statistics, after the command the user's profile carries the argument
    without the blanks around it as the country and the Telegram name (or
    the default name) as the name; wins, streaks and rank are those the
    user had, or zero wins and no streak for a user seen for the first
    time.  The profiles of all other users, the sessions, the queue, the
    offers and the clocks are as before, and the user gets the one reply
    that the country is saved. *)
Theorem country_shows_in_profile st user_id uname a :
  db_ok (db st) ->
  let st' := cmd_country user_id uname (Some a) st in
  (∃ p, DB.get_player_profile user_id (db st') = Some p
        ∧ DB.profile_country p = Py.strip a
        ∧ DB.profile_username p = DB.or_Player uname
        ∧ match db st !! user_id with
          | Some r =>
              DB.profile_wins p = wins r
              ∧ DB.profile_current_streak p = current_streak r
              ∧ DB.profile_max_streak p = max_streak r
              ∧ (DB.get_player_rank_and_points user_id (db st)).1
                = Some (DB.profile_rank p)
          | None =>
              DB.profile_wins p = 0
              ∧ DB.profile_current_streak p = 0
              ∧ DB.profile_max_streak p = 0
          end)
  ∧ (∀ v, v ≠ user_id ->
       DB.get_player_profile v (db st') = DB.get_player_profile v (db st))
  ∧ games st' = games st ∧ player_game st' = player_game st
  ∧ waiting_player st' = waiting_player st
  ∧ rematch_offers st' = rematch_offers st ∧ tasks st' = tasks st
  ∧ outbox st' = outbox st ++ [(user_id, CountrySaved (Py.strip a))].
Proof.
  intros Hok st'. subst st'. unfold cmd_country.
  cbn [db games player_game waiting_player rematch_offers tasks outbox
       send set_db].
  set (db1 := DB.add_or_update_player user_id uname (db st)).
  set (db2 := DB.set_country user_id (Py.strip a) db1).
  assert (db_ok db1) as Hok1 by by apply db_ok_add_or_update_player.
  assert (∀ v rv, db st !! v = Some rv ->
            DB.get_player_rank_and_points v db2
            = DB.get_player_rank_and_points v (db st)) as Hrank.
  { intros v rv Hv.
    destruct (row_after_rewrite
                (fun r => Row (DB.or_Player uname) (country r) (wins r)
                              (current_streak r) (max_streak r))
                user_id (DB.or_Player uname) (db st)) as [_ Hrow].
    specialize (Hrow _ _ Hv).
    etrans.
    - exact (rank_after_rewrite
               (fun r => Row (username r) (Py.strip a) (wins r)
                             (current_streak r) (max_streak r))
               user_id DB.Player db1 Hok1 (fun _ => eq_refl) v _ Hrow).
    - exact (rank_after_rewrite
               (fun r => Row (DB.or_Player uname) (country r) (wins r)
                             (current_streak r) (max_streak r))
               user_id (DB.or_Player uname) (db st) Hok (fun _ => eq_refl)
               v rv Hv). }
  assert (db2 !! user_id
          = Some (let r0 := default (Row (DB.or_Player uname) [] 0 0 0)
                                    (db st !! user_id) in
                  Row (DB.or_Player uname) (Py.strip a) (wins r0)
                      (current_streak r0) (max_streak r0))) as Hu.
  { unfold db2, DB.set_country. rewrite lookup_alter_eq.
    rewrite insert_or_ignore_lookup.
    unfold db1, DB.add_or_update_player. rewrite lookup_alter_eq.
    rewrite insert_or_ignore_lookup. by destruct (db st !! user_id). }
  assert (∀ v, v ≠ user_id -> db2 !! v = db st !! v) as Hv.
  { intros v Hne. unfold db2, DB.set_country.
    rewrite lookup_alter_ne, insert_or_ignore_other by done.
    unfold db1, DB.add_or_update_player.
    by rewrite lookup_alter_ne, insert_or_ignore_other. }
  split; [|split; [|done]].
  - unfold DB.get_player_profile. rewrite Hu. eexists. split; [done|].
    cbn [DB.profile_country DB.profile_username DB.profile_wins
         DB.profile_current_streak DB.profile_max_streak DB.profile_rank
         username country wins current_streak max_streak].
    split; [done|]. split; [apply or_Player_idem|].
    destruct (db st !! user_id) as [r|] eqn:Hl; [|done].
    cbn [default from_option id]. do 3 (split; [done|]).
    specialize (Hrank _ _ Hl). revert Hrank.
    unfold DB.get_player_rank_and_points. rewrite Hu, Hl.
    cbn [default from_option id wins fst]. by intros [= -> ].
  - intros v Hne. unfold DB.get_player_profile. rewrite (Hv v Hne).
    destruct (db st !! v) as [rv|] eqn:Hl; [|done].
    specialize (Hrank _ _ Hl). revert Hrank.
    unfold DB.get_player_rank_and_points. rewrite (Hv v Hne), Hl.
    by intros [= ->].
Qed.

End CountryFacts.

(** ** Participants and their rows *)

Section RegisteredFacts.
Context {U : Unicode}.
Variable CITY_SET : gset str.

Lemma known_rewrite (f : row -> row) user_id name db v :
  known db v -> known (alter f user_id (DB.insert_or_ignore user_id name db)) v.
Proof.
  intros [rv Hv]. unfold known.
  destruct (row_after_rewrite f user_id name db) as [_ Hrow].
  rewrite (Hrow _ _ Hv). by eexists.
Qed.

Lemma known_add_or_update_player user_id uname db v :
  known db v -> known (DB.add_or_update_player user_id uname db) v.
Proof. apply known_rewrite. Qed.

Lemma known_set_country user_id c db v :
  known db v -> known (DB.set_country user_id c db) v.
Proof. apply known_rewrite. Qed.

Lemma known_reset_streak user_id db v :
  known db v -> known (DB.reset_streak user_id db) v.
Proof. apply known_rewrite. Qed.

Lemma known_record_win user_id db v :
  known db v -> known (DB.record_win user_id db) v.
Proof.
  unfold DB.record_win. rewrite alter_alter_eq. apply known_rewrite.
Qed.

Lemma known_self user_id uname db :
  known (DB.add_or_update_player user_id uname db) user_id.
Proof.
  unfold DB.add_or_update_player.
  by destruct (row_after_rewrite
                 (fun r => Row (DB.or_Player uname) (country r) (wins r)
                               (current_streak r) (max_streak r))
                 user_id (DB.or_Player uname) db) as [H _].
Qed.

Lemma button_known_mono db db' um :
  (∀ v, known db v -> known db' v) ->
  button_known db um -> button_known db' um.
Proof.
  intros Hm. unfold button_known. destruct (um.2); try done.
  intros [H1 H2]. split; by apply Hm.
Qed.

Lemma registered_inv_send u m st :
  is_button m = false -> registered_inv st -> registered_inv (send u m st).
Proof.
  intros Hb (Hg & Hw & Ho). split; [exact Hg|]. split; [exact Hw|].
  cbn [outbox db send]. apply Forall_app. split; [exact Ho|].
  constructor; [|constructor]. unfold button_known. cbn. by destruct m.
Qed.

Lemma registered_inv_set_db f st :
  (∀ v, known (db st) v -> known (f (db st)) v) ->
  registered_inv st -> registered_inv (set_db f st).
Proof.
  intros Hm (Hg & Hw & Ho). split; [|split].
  - intros gid g Hl. destruct (Hg _ _ Hl). split; by apply Hm.
  - intros u Hu. by apply Hm, Hw.
  - cbn [outbox db set_db]. eapply Forall_impl; [exact Ho|].
    intros um. by apply button_known_mono.
Qed.

Lemma registered_inv_set_waiting_player w st :
  (∀ u, w = Some u -> known (db st) u) ->
  registered_inv st -> registered_inv (set_waiting_player w st).
Proof. intros Hk (Hg & Hw & Ho). by split. Qed.

Lemma registered_inv_set_rematch_offers f st :
  registered_inv st -> registered_inv (set_rematch_offers f st).
Proof. by intros (Hg & Hw & Ho). Qed.

Lemma registered_inv_set_tasks f st :
  registered_inv st -> registered_inv (set_tasks f st).
Proof. by intros (Hg & Hw & Ho). Qed.

Lemma registered_inv_create_game p1 p2 first st :
  known (db st) p1 -> known (db st) p2 ->
  registered_inv st -> registered_inv (create_game_between p1 p2 first st).
Proof.
  intros H1 H2 (Hg & Hw & Ho).
  destruct (games st !! make_game_id p1 p2) as [g|] eqn:Hl.
  - by rewrite create_game_between_registered.
  - rewrite create_game_between_eq by done. split; [|split].
    + intros gid g. cbn [games db].
      intros [[<- <-]|[_ Hold]]%lookup_insert_Some; [done|].
      by apply (Hg gid).
    + exact Hw.
    + cbn [outbox db]. apply Forall_app. split; [exact Ho|].
      by repeat constructor.
Qed.

Lemma registered_inv_end_game gid winner why st :
  registered_inv st -> registered_inv (end_game gid (Some winner) why st).
Proof.
  intros (Hg & Hw & Ho).
  destruct (games st !! gid) as [g|] eqn:Hl;
    [|unfold end_game; by rewrite Hl].
  rewrite (end_game_winner gid g) by done.
  assert (∀ loser v, known (db st) v ->
            known (DB.reset_streak loser (DB.record_win winner (db st))) v)
    as Hm by (intros; by apply known_reset_streak, known_record_win).
  destruct (Hg _ _ Hl) as [H1 H2]. split; [|split].
  - intros gid' g'. cbn [games db].
    intros [_ Hold]%lookup_delete_Some.
    destruct (Hg _ _ Hold). split; by apply Hm.
  - intros u Hu. by apply Hm, Hw.
  - cbn [outbox db]. apply Forall_app. split.
    + eapply Forall_impl; [exact Ho|].
      intros um. apply button_known_mono. apply Hm.
    + do 2 (constructor; [exact I|]).
      do 2 (constructor; [split; by apply Hm|]). constructor.
Qed.

Lemma registered_inv_same st st' :
  games st' = games st -> waiting_player st' = waiting_player st ->
  db st' = db st -> outbox st' = outbox st ->
  registered_inv st -> registered_inv st'.
Proof.
  intros Eg Ew Ed Eo. unfold registered_inv. by rewrite Eg, Ew, Ed, Eo.
Qed.

Ltac reg :=
  repeat first
    [ assumption
    | apply registered_inv_send; [done|]
    | apply registered_inv_set_rematch_offers
    | apply registered_inv_set_tasks
    | apply registered_inv_end_game ].

Lemma registered_inv_handle ev st :
  enabled st ev -> registered_inv st ->
  registered_inv (handle CITY_SET ev st).
Proof.
  intros Hen Hinv. destruct ev; cbn [handle].
  - unfold cmd_start. reg. apply registered_inv_set_db; [|done].
    intros v. apply known_add_or_update_player.
  - unfold cmd_play.
    assert (registered_inv
              (set_db (DB.add_or_update_player user_id uname) st)) as Hinv1.
    { apply registered_inv_set_db; [|done].
      intros v. apply known_add_or_update_player. }
    pose proof (known_self user_id uname (db st)) as Hself.
    case_match; [by reg|].
    destruct (waiting_player (set_db _ st)) as [waiting|] eqn:Hw.
    + case_decide; [by reg|].
      apply registered_inv_create_game; [| |].
      * destruct Hinv1 as (_ & Hw1 & _). by apply Hw1.
      * exact Hself.
      * by apply registered_inv_set_waiting_player.
    + reg. apply registered_inv_set_waiting_player; [|done].
      by intros u [= <-].
  - unfold cmd_leave. case_decide; reg.
    by apply registered_inv_set_waiting_player.
  - unfold cmd_surrender. repeat case_match; reg.
  - unfold cmd_country. case_match; reg.
    apply registered_inv_set_db; [intros v; apply known_set_country|].
    apply registered_inv_set_db; [|done].
    intros v. apply known_add_or_update_player.
  - destruct (cmd_cancel_rematch_fields user_id st)
      as (Hg & _ & Hw & Hdb & _ & _ & _ & Ho).
    destruct Hinv as (H1 & H2 & H3). unfold registered_inv.
    rewrite Hg, Hw, Hdb, Ho. split; [done|]. split; [done|].
    apply Forall_app. split; [done|].
    destruct (filter _ _) as [|kv hit]; [by repeat constructor|].
    constructor; [exact I|].
    apply Forall_forall. by intros x (y & -> & _)%list_elem_of_fmap.
  - destruct (player_game st !! user_id) as [gid|] eqn:Hpg;
      [|unfold handle_move; by rewrite Hpg].
    destruct (games st !! gid) as [g|] eqn:Hg;
      [|unfold handle_move; by rewrite Hpg, Hg].
    pose proof (handle_move_cases CITY_SET st user_id text gid g Hpg Hg) as H.
    cbv zeta in H.
    destruct (submitMove_checks CITY_SET g user_id _) as [rejection|]
      eqn:Hchk.
    + rewrite H.
      apply submitMove_checks_kinds in Hchk
        as [->|[->|[->|[->|(needed & _ & ->)]]]]; reg.
    + destruct H as (Eg & _ & _ & Eo & _ & Ew & _ & Ed).
      destruct Hinv as (H1 & H2 & H3). unfold registered_inv.
      rewrite Eg, Ew, Ed, Eo. split; [|split; [done|]].
      * intros gid' g'.
        intros [[<- <-]|[_ Hold]]%lookup_insert_Some;
          [|by apply (H1 gid')].
        cbn [players]. by apply (H1 gid).
      * apply Forall_app. split; [done|]. by repeat constructor.
  - unfold callback_rematch. destruct data as [[p1 p2]|]; [|reg].
    cbn in Hen.
    assert (known (db st) p1 ∧ known (db st) p2) as [Hk1 Hk2].
    { destruct Hinv as (_ & _ & Ho).
      exact (proj1 (Forall_forall _ _) Ho _ Hen). }
    repeat case_decide; try case_match; reg.
    by apply registered_inv_create_game; reg.
  - unfold turn_timeout.
    destruct (tasks st !! task) as [[gid u]|]; [|done].
    apply registered_inv_set_tasks.
    destruct (games st !! gid) as [g|]; [|done].
    case_decide; reg.
Qed.

Lemma reachable_registered st :
  reachable CITY_SET st -> registered_inv st.
Proof.
  induction 1 as [|st ev _ IH Hen].
  - split; [|split].
    + intros gid g H. change (games init) with (∅ : gmap (Z * Z) game) in H.
      by rewrite lookup_empty in H.
    + intros u H. discriminate H.
    + constructor.
  - by apply registered_inv_handle.
Qed.

(** X20.  Whoever takes part has a row in the statistics.  In every state
    the bot reaches, both players of a session, the player in the queue
    and both players named on a rematch button have a row: [/profile]
    answers for anyone who is in a game.  So when a session ends with a
    winner among its players, the result is booked on rows that exist and
    the table gets no new row. *)
Theorem participants_have_rows st :
  reachable CITY_SET st ->
  (∀ gid g user_id, games st !! gid = Some g -> plays_in user_id g ->
     is_Some (db st !! user_id))
  ∧ (∀ user_id gid, player_game st !! user_id = Some gid ->
       is_Some (DB.get_player_profile user_id (db st)))
  ∧ (∀ user_id, waiting_player st = Some user_id ->
       is_Some (db st !! user_id))
  ∧ (∀ u p1 p2, (u, RematchButton p1 p2) ∈ outbox st ->
       is_Some (db st !! p1) ∧ is_Some (db st !! p2))
  ∧ (∀ gid g winner why, games st !! gid = Some g -> plays_in winner g ->
       dom (db (end_game gid (Some winner) why st)) = dom (db st)).
Proof.
  intros Hr. destruct (reachable_registered st Hr) as (Hg & Hw & Ho).
  destruct (reachable_index_inv CITY_SET st Hr) as [_ Hidx].
  assert (∀ gid g user_id, games st !! gid = Some g -> plays_in user_id g ->
            is_Some (db st !! user_id)) as Hplay.
  { intros gid g u Hl [->| ->]; by destruct (Hg _ _ Hl). }
  split; [exact Hplay|]. split; [|split; [exact Hw|split]].
  - intros u gid Hpg. destruct (Hidx _ _ Hpg) as (g & Hl & Hin).
    destruct (Hplay _ _ _ Hl Hin) as [r Hrow].
    unfold DB.get_player_profile. rewrite Hrow. by eexists.
  - intros u p1 p2 Hin.
    exact (proj1 (Forall_forall _ _) Ho _ Hin).
  - intros gid g winner why Hl Hin.
    rewrite (end_game_winner gid g) by done. cbn [db].
    set (loser := if decide (winner = (players g).2)
                  then (players g).1 else (players g).2).
    assert (known (db st) winner) as [rw Hrw] by by eapply Hplay.
    assert (known (db st) loser) as Hkl.
    { destruct (Hg _ _ Hl). subst loser. by case_decide. }
    pose proof (known_record_win winner (db st) loser Hkl) as [rl Hrl].
    unfold DB.reset_streak, DB.insert_or_ignore. rewrite Hrl.
    rewrite dom_alter_L.
    unfold DB.record_win, DB.insert_or_ignore. rewrite Hrw.
    by rewrite !dom_alter_L.
Qed.

End RegisteredFacts.

(** ** The further properties on the sample runs *)

Module FurtherScenarioFacts.
Import Scenario Table.
#[local] Existing Instance Sample.tables.

Lemma league_ok : db_ok league.
Proof.
  intros u r H. unfold league in H.
  apply lookup_insert_Some in H as [[<- <-]|[_ H]];
    [unfold row_ok; cbn; lia|].
  apply lookup_insert_Some in H as [[<- <-]|[_ H]];
    [unfold row_ok; cbn; lia|].
  apply lookup_insert_Some in H as [[<- <-]|[_ H]];
    [unfold row_ok; cbn; lia|].
  by rewrite lookup_empty in H.
Qed.


Lemma session_only_moves_forward_witness :
  let g' := Game (1, 2) 2 (Some 1072%N) {[Py.utf8 "москва"]} (Some 1%nat) 1
                 (Some (1, Py.utf8 "москва")) in
  players g' = players first_session
  ∧ used_cities first_session ⊆ used_cities g'
  ∧ moves first_session <= moves g'.
Proof.
  intros g'.
  destruct (session_only_moves_forward cities
              (Text 1 (Some (Py.utf8 "Москва"))) (after matched) (1, 2)
              first_session g') as (H1 & H2 & H3 & _);
    [reflexivity|vm_compute; reflexivity|].
  split; [exact H1|]. split; [exact H2|exact H3].
Defined.

Lemma session_books_agree_witness :
  let g' := Game (1, 2) 2 (Some 1072%N) {[Py.utf8 "москва"]} (Some 1%nat) 1
                 (Some (1, Py.utf8 "москва")) in
  moves g' = Z.of_nat (size (used_cities g')) ∧ used_cities g' ⊆ cities.
Proof.
  intros g'.
  destruct (session_books_agree cities (after moscow) (1, 2) g')
    as (H1 & H2 & _);
    [apply ScenarioFacts.after_reachable; vm_compute; by eexists
    |vm_compute; reflexivity|].
  split; [exact H1|exact H2].
Defined.

Lemma end_game_scores_witness :
  let st := after matched in
  let st' := end_game (1, 2) (Some 1) Surrendered st in
  wins (row_of (db st') 1) = wins (row_of (db st) 1) + 1
  ∧ current_streak (row_of (db st') 2) = 0.
Proof.
  intros st st'.
  destruct (end_game_scores (1, 2) first_session Surrendered st)
    as [H _]; [reflexivity|cbn; lia|].
  destruct (H 1) as (_ & _ & Hw & _ & _ & _ & Hl & _); [by left|].
  split; [exact Hw|exact Hl].
Defined.

Lemma index_is_sound_witness :
  ((1, GameNotFound) ∉ outbox (after matched))
  ∧ ∃ g, games (after matched) !! (1, 2) = Some g ∧ plays_in 1 g.
Proof.
  destruct (index_is_sound cities (after matched)) as (H1 & _ & H3);
    [apply ScenarioFacts.after_reachable; vm_compute; by eexists|].
  split; [apply H3|]. apply (H1 1 (1, 2)). reflexivity.
Defined.

Lemma surrender_ends_the_game_witness :
  games (cmd_surrender 2 (after matched)) !! (1, 2) = None.
Proof.
  destruct (surrender_ends_the_game cities) as [_ H].
  destruct (H (after matched) 2 (1, 2)) as (g & _ & _ & Hrest);
    [apply ScenarioFacts.after_reachable; vm_compute; by eexists|reflexivity|].
  cbv zeta in Hrest. by destruct Hrest as (_ & _ & Hgone & _).
Defined.


Lemma cancel_rematch_withdraws_everywhere_witness :
  let st' := cmd_cancel_rematch 1 (after one_consent) in
  (2, OpponentCancelledOffer) ∈ outbox st'
  ∧ games st' = games (after one_consent).
Proof.
  intros st'.
  destruct (cancel_rematch_withdraws_everywhere 1 (after one_consent))
    as ((Hg & _) & _ & _ & H & _).
  destruct (H (1, 2) {[1]}) as (_ & _ & Hout);
    [vm_compute; reflexivity|by apply elem_of_singleton|].
  split; [exact Hout|exact Hg].
Defined.

Lemma win_moves_the_ranking_witness :
  DB.get_player_rank_and_points 8 league = (Some 2, 3)
  ∧ DB.get_player_rank_and_points 8 (DB.record_win 7 league) = (Some 3, 3).
Proof.
  assert (DB.get_player_rank_and_points 8 league = (Some 2, 3)) as H8
      by (vm_compute; reflexivity).
  split; [exact H8|].
  destruct (win_moves_the_ranking 7 league (Row (Py.utf8 "a") [] 3 2 2))
    as [_ H]; [vm_compute; reflexivity|].
  destruct (H 8 (Row (Py.utf8 "b") [] 3 0 1)) as (rank & Hb & Ha);
    [lia|vm_compute; reflexivity|].
  rewrite H8 in Hb. injection Hb as <-. exact Ha.
Defined.

Lemma bookkeeping_keeps_the_ranking_witness :
  DB.get_player_rank_and_points 8 (DB.set_country 10 (Py.utf8 "RU") league)
  = DB.get_player_rank_and_points 8 league
  ∧ is_Some (DB.set_country 10 (Py.utf8 "RU") league !! 10).
Proof.
  destruct (bookkeeping_keeps_the_ranking league 10 None (Py.utf8 "RU")
              league_ok (DB.set_country 10 (Py.utf8 "RU") league))
    as [Hsome H]; [right; left|].
  destruct (H 8 (Row (Py.utf8 "b") [] 3 0 1)) as [Hrank _];
    [vm_compute; reflexivity|].
  split; [exact Hrank|exact Hsome].
Defined.

Lemma country_shows_in_profile_witness :
  ∃ p, DB.get_player_profile 1
         (db (cmd_country 1 None (Some (Py.utf8 " RU ")) init)) = Some p
       ∧ DB.profile_country p = Py.utf8 "RU"
       ∧ DB.profile_username p = DB.Player.
Proof.
  destruct (country_shows_in_profile init 1 None (Py.utf8 " RU "))
    as ((p & Hp & Hc & Hn & _) & _).
  - intros u r H. change (db init) with (∅ : gmap Z row) in H.
    by rewrite lookup_empty in H.
  - exists p. split; [exact Hp|]. split; [exact Hc|exact Hn].
Defined.

Lemma participants_have_rows_witness :
  is_Some (db (after matched) !! 1)
  ∧ is_Some (DB.get_player_profile 2 (db (after matched))).
Proof.
  destruct (participants_have_rows cities (after matched))
    as (H1 & H2 & _); [apply ScenarioFacts.after_reachable; vm_compute; by eexists|].
  split.
  - apply (H1 (1, 2) first_session 1); [reflexivity|by left].
  - apply (H2 2 (1, 2)). reflexivity.
Defined.

End FurtherScenarioFacts.

(** ** The task of a clock between its awaits *)

Section LiveFacts.
Context {U : Unicode}.
Variable CITY_SET : gset str.

Lemma live_run_reachable es l l' :
  live_reachable CITY_SET l -> live_run CITY_SET es l = Some l' ->
  live_reachable CITY_SET l'.
Proof.
  revert l. induction es as [|e es IH]; intros l Hr; simpl.
  - by intros [= <-].
  - case_decide as Hen; [|discriminate].
    apply IH. by constructor.
Qed.

(** The runs of uninterrupted handlers are among the runs of the tasks. *)
Lemma reachable_live st :
  reachable CITY_SET st -> live_reachable CITY_SET (Live st ∅).
Proof.
  induction 1 as [|st ev _ IH Hen]; [constructor|].
  apply (live_reachable_step CITY_SET (Live st ∅) (Handler ev)); [done|].
  split; [done|]. by destruct ev.
Qed.

Lemma await_done_at task st fs f x :
  tasks st !! task = Some x ->
  await_done task (Live st (<[task := f]> fs))
  = match f_at f with
    | TellWinner =>
        Live (send (f_winner_id f) (YouWon (f_loser f) (f_reason f)) st)
             (<[task := set_at TellLoser f]> fs)
    | TellLoser =>
        Live (send (f_loser f) (YouLost (f_winner_id f) (f_reason f)) st)
             (<[task := set_at RecordWin f]> fs)
    | RecordWin =>
        Live (set_db (DB.record_win (f_winner_id f)) st)
             (<[task := set_at ResetStreak f]> fs)
    | ResetStreak =>
        Live (set_games (delete (f_game_id f))
                (set_player_game (delete (f_p2 f))
                   (set_player_game (delete (f_p1 f))
                      (set_db (DB.reset_streak (f_loser f)) st))))
             (<[task := set_at OfferFirst f]> fs)
    | OfferFirst =>
        Live (send (f_p1 f) (RematchButton (f_p1 f) (f_p2 f)) st)
             (<[task := set_at OfferSecond f]> fs)
    | OfferSecond =>
        Live (set_tasks (delete task)
                (send (f_p2 f) (RematchButton (f_p1 f) (f_p2 f)) st))
             (delete task fs)
    end.
Proof.
  intros Hx. unfold await_done. cbn [shared forfeits].
  rewrite Hx, lookup_insert_eq.
  destruct (f_at f); rewrite ?insert_insert_eq; try done.
  unfold task_returns. cbn [shared forfeits]. by rewrite delete_insert_eq.
Qed.

Lemma await_done_returned task l :
  tasks (shared l) !! task = None -> await_done task l = l.
Proof. intros Hx. unfold await_done. by rewrite Hx. Qed.

(** A forfeit that nothing interrupts is the [turn_timeout] of the
    handlers: the six awaits of [end_game] one after the other leave the
    shared state [turn_timeout] leaves. *)
Lemma forfeit_uninterrupted task l :
  forfeits l !! task = None ->
  shared (Nat.iter 6 (await_done task) (sleep_over task l))
  = turn_timeout task (shared l).
Proof.
  intros Hnone. destruct l as [st fs]. cbn [shared forfeits] in *.
  assert (∀ l', tasks (shared l') !! task = None ->
            Nat.iter 6 (await_done task) l' = l') as Hret.
  { intros l' Hl'. unfold Nat.iter. cbn [nat_rect].
    by rewrite !(await_done_returned task l'). }
  unfold sleep_over, turn_timeout. cbn [shared forfeits].
  destruct (tasks st !! task) as [[gid u]|] eqn:Htask;
    [|by rewrite Hret by (cbn; by rewrite Htask)].
  rewrite Hnone.
  assert (tasks (set_tasks (delete task) st) !! task = None) as Hdel
      by (cbn [tasks set_tasks]; apply lookup_delete_eq).
  destruct (games st !! gid) as [g|] eqn:Hg;
    [|unfold task_returns; by rewrite Hret].
  destruct (decide (turn g = u)) as [Hturn|Hturn];
    [|unfold task_returns; by rewrite Hret].
  rewrite (end_game_winner gid g) by done.
  unfold end_game_enter. cbn [shared forfeits]. rewrite Hg.
  destruct (players g) as [p1 p2] eqn:Hp. cbn [fst snd].
  set (winner := other_player (p1, p2) u).
  set (loser := if decide (winner = p2) then p1 else p2).
  set (st1 := match timer_task g with
              | Some t => if decide (t = task) then st
                          else cancel_and_await (Some t) st
              | None => st
              end).
  assert (games st1 = games st ∧ player_game st1 = player_game st
          ∧ waiting_player st1 = waiting_player st
          ∧ rematch_offers st1 = rematch_offers st ∧ db st1 = db st
          ∧ next_task st1 = next_task st ∧ outbox st1 = outbox st
          ∧ tasks st1 !! task = Some (gid, u)
          ∧ delete task (tasks st1)
            = delete task (without_clock g (tasks st)))
    as (Eg & Epg & Ew & Er & Ed & En & Eo & Et & Edel).
  { subst st1. unfold without_clock.
    destruct (timer_task g) as [t|]; [|done].
    destruct (decide (t = task)) as [->|Hne].
    - by rewrite delete_delete_eq.
    - rewrite cancel_and_await_eq. cbn [games player_game waiting_player
        rematch_offers db next_task outbox tasks set_tasks].
      by rewrite lookup_delete_ne. }
  clearbody st1. destruct st1 as [g1 pg1 w1 r1 d1 t1 n1 o1].
  cbn [games player_game waiting_player rematch_offers db tasks next_task
       outbox] in Eg, Epg, Ew, Er, Ed, En, Eo, Et, Edel.
  subst g1 pg1 w1 r1 d1 n1 o1.
  unfold Nat.iter. cbn [nat_rect].
  rewrite (await_done_at task _ fs _ (gid, u)) by exact Et.
  cbn [f_at f_winner_id f_loser f_reason f_p1 f_p2 f_game_id set_at].
  rewrite (await_done_at task _ fs _ (gid, u)) by exact Et.
  cbn [f_at f_winner_id f_loser f_reason f_p1 f_p2 f_game_id set_at].
  rewrite (await_done_at task _ fs _ (gid, u)) by exact Et.
  cbn [f_at f_winner_id f_loser f_reason f_p1 f_p2 f_game_id set_at].
  rewrite (await_done_at task _ fs _ (gid, u)) by exact Et.
  cbn [f_at f_winner_id f_loser f_reason f_p1 f_p2 f_game_id set_at].
  rewrite (await_done_at task _ fs _ (gid, u)) by exact Et.
  cbn [f_at f_winner_id f_loser f_reason f_p1 f_p2 f_game_id set_at].
  rewrite (await_done_at task _ fs _ (gid, u)) by exact Et.
  cbn [f_at f_winner_id f_loser f_reason f_p1 f_p2 f_game_id set_at shared].
  lazy beta iota zeta delta
    [send set_db set_player_game set_games set_tasks games player_game
     waiting_player rematch_offers db tasks next_task outbox].
  rewrite Edel. by rewrite <- !app_assoc.
Qed.

End LiveFacts.

(** ** Runs that go wrong *)

Module RaceFacts.
Import Scenario Races.
#[local] Existing Instance Sample.tables.

Lemma live_after_reachable es :
  is_Some (live_run cities es live_init) ->
  live_reachable cities (live_after es).
Proof.
  intros [l Hl]. unfold live_after. rewrite Hl.
  eapply live_run_reachable; [constructor|exact Hl].
Qed.

Ltac by_evaluation := apply (bool_decide_unpack _); vm_compute; exact I.

(** C3.  A move is accepted while the forfeit of the same turn is under
    way.  Players 1 and 2 are matched and the clock of player 1's turn
    runs out: its task finds the session with player 1 to move, enters
    [end_game] and tells player 2 of the win.  While the task is suspended
    in the send to player 1, the session is still registered with player 1
    to move, so a city of player 1 passes every check of [handle_move]:
    the move is accepted against that very clock, the task is cancelled
    inside [end_game], and the game goes on with player 2 to move, after
    player 2 was told it was won.  When the move comes two awaits later,
    player 1 has been told of the loss and the win of player 2 is in the
    statistics, and the game goes on all the same. *)
Theorem move_accepted_during_forfeit :
  (let before := live_after told_of_the_win in
   let l := live_handle cities (Handler late_move) before in
   live_reachable cities before
   ∧ live_reachable cities l
   ∧ forfeits before !! 0%nat
     = Some (Forfeit (1, 2) 2 TimedOut 1 2 1 TellLoser)
   ∧ (2, YouWon 1 TimedOut) ∈ outbox (shared before)
   ∧ move_accepted_on cities 0 late_move (shared before)
   ∧ (1, Accepted (Py.utf8 "москва")) ∈ outbox (shared l)
   ∧ games (shared l) !! (1, 2) = Some moved_session
   ∧ tasks (shared l) !! 0%nat = None
   ∧ tasks (shared l) !! 1%nat = Some ((1, 2), 2))
  ∧ (let before := live_after win_recorded in
     let l := live_handle cities (Handler late_move) before in
     live_reachable cities before
     ∧ live_reachable cities l
     ∧ forfeits before !! 0%nat
       = Some (Forfeit (1, 2) 2 TimedOut 1 2 1 ResetStreak)
     ∧ (2, YouWon 1 TimedOut) ∈ outbox (shared before)
     ∧ (1, YouLost 2 TimedOut) ∈ outbox (shared before)
     ∧ wins (row_of (db (shared before)) 2) = 1
     ∧ move_accepted_on cities 0 late_move (shared before)
     ∧ (1, Accepted (Py.utf8 "москва")) ∈ outbox (shared l)
     ∧ games (shared l) !! (1, 2) = Some moved_session
     ∧ wins (row_of (db (shared l)) 2) = 1
     ∧ tasks (shared l) !! 0%nat = None
     ∧ tasks (shared l) !! 1%nat = Some ((1, 2), 2)).
Proof.
  assert (∀ es, is_Some (live_run cities es live_init) ->
            move_accepted_on cities 0 late_move (after matched) ->
            games (shared (live_after es)) = games (after matched) ->
            player_game (shared (live_after es))
            = player_game (after matched) ->
            tasks (shared (live_after es)) = tasks (after matched) ->
            move_accepted_on cities 0 late_move (shared (live_after es)))
    as Hsame.
  { intros es _ (u & text & gid & g & Hev & Hpg & Hg & Ht & Hp & Hc) Eg Epg
           Et.
    exists u, text, gid, g. by rewrite Eg, Epg, Et. }
  assert (move_accepted_on cities 0 late_move (after matched)) as Hacc.
  { exists 1, (Some (Py.utf8 "Москва")), (1, 2), first_session.
    split; [reflexivity|]. split; [reflexivity|]. split; [reflexivity|].
    split; [reflexivity|]. split; [|vm_compute; reflexivity].
    exists ((1, 2), 1). reflexivity. }
  split.
  - intros before l.
    assert (live_reachable cities before) as Hr
        by (apply live_after_reachable; vm_compute; by eexists).
    split; [exact Hr|]. split; [by constructor|].
    split; [vm_compute; reflexivity|]. split; [by_evaluation|].
    split.
    { apply Hsame; [vm_compute; by eexists|exact Hacc|..];
        vm_compute; reflexivity. }
    split; [by_evaluation|].
    split; [vm_compute; reflexivity|].
    split; vm_compute; reflexivity.
  - intros before l.
    assert (live_reachable cities before) as Hr
        by (apply live_after_reachable; vm_compute; by eexists).
    split; [exact Hr|]. split; [by constructor|].
    split; [vm_compute; reflexivity|]. split; [by_evaluation|].
    split; [by_evaluation|]. split; [vm_compute; reflexivity|].
    split.
    { apply Hsame; [vm_compute; by eexists|exact Hacc|..];
        vm_compute; reflexivity. }
    split; [by_evaluation|].
    split; [vm_compute; reflexivity|].
    split; [vm_compute; reflexivity|].
    split; vm_compute; reflexivity.
Qed.

(** C7.  The completed rematch is decided by the reverse index alone.
    First run: player 1 is on the players list of the registered game of
    1 and 2 but has no entry in [player_game]; when player 3 gives the
    second consent to a rematch of 1 and 3, nobody is told that the
    rematch is off, and the session of 1 and 3 is registered beside the
    game of 1 and 2.  Second run: the session of 1 and 3 is registered
    and neither player has an entry in [player_game]; when player 3 gives
    the second consent, the offer is removed, [create_game_between]
    returns at once, no session is created and the two players get
    nothing but the two consent notices. *)
Theorem rematch_decided_by_the_index_alone :
  (let before := after listed_elsewhere in
   let st := handle cities second_consent before in
   reachable cities before
   ∧ enabled before second_consent
   ∧ rematch_offers before !! pair_key 1 3 = Some {[1]}
   ∧ is_user_in_game 1 before = false
   ∧ is_user_in_game 3 before = false
   ∧ games before !! make_game_id 1 3 = None
   ∧ (∃ g12, games before !! make_game_id 1 2 = Some g12
             ∧ plays_in 1 g12
             ∧ games st !! make_game_id 1 2 = Some g12)
   ∧ rematch_offers st !! pair_key 1 3 = None
   ∧ (∃ clock, games st !! make_game_id 1 3
               = Some (fresh_session 1 3 1 clock))
   ∧ ((1, RematchAborted) ∉ outbox st)
   ∧ ((3, RematchAborted) ∉ outbox st))
  ∧ (let before := after stale_session in
     let st := handle cities second_consent before in
     reachable cities before
     ∧ enabled before second_consent
     ∧ rematch_offers before !! pair_key 1 3 = Some {[1]}
     ∧ is_user_in_game 1 before = false
     ∧ is_user_in_game 3 before = false
     ∧ (∃ g13, games before !! make_game_id 1 3 = Some g13
               ∧ plays_in 1 g13 ∧ plays_in 3 g13)
     ∧ rematch_offers st !! pair_key 1 3 = None
     ∧ games st = games before
     ∧ player_game st = player_game before
     ∧ tasks st = tasks before
     ∧ outbox st
       = outbox before ++ [(3, ConsentGiven); (1, OpponentConsented)]).
Proof.
  split.
  - intros before st.
    split; [apply ScenarioFacts.after_reachable; vm_compute; by eexists|].
    split; [by_evaluation|].
    split; [vm_compute; reflexivity|].
    split; [vm_compute; reflexivity|].
    split; [vm_compute; reflexivity|].
    split; [vm_compute; reflexivity|].
    split.
    { exists (Game (1, 2) 1 None ∅ (Some 1%nat) 0 None).
      split; [vm_compute; reflexivity|].
      split; [by left|vm_compute; reflexivity]. }
    split; [vm_compute; reflexivity|].
    split; [exists 3%nat; vm_compute; reflexivity|].
    split; by_evaluation.
  - intros before st.
    split; [apply ScenarioFacts.after_reachable; vm_compute; by eexists|].
    split; [by_evaluation|].
    split; [vm_compute; reflexivity|].
    split; [vm_compute; reflexivity|].
    split; [vm_compute; reflexivity|].
    split.
    { exists (Game (1, 3) 1 None ∅ (Some 3%nat) 0 None).
      split; [vm_compute; reflexivity|]. split; [by left|by right]. }
    split; [vm_compute; reflexivity|].
    split; [vm_compute; reflexivity|].
    split; [vm_compute; reflexivity|].
    split; vm_compute; reflexivity.
Qed.

End RaceFacts.
